(** * Industrial workforce scheduler: shift segmentation, break insertion,
      fallback scheduling and the optimisation orchestrator.

    A shallow embedding of [src/utils/helpers.py],
    [src/models/entities.py] and [src/simulator/workforce_simulator.py].
    Python integers are [Z]; Python lists are [list]; the list
    [self.employees] is the state threaded through the simulator's
    methods; a Python exception is the [Raised] outcome of a command. *)

From Stdlib Require Import ZArith QArith Lia Lqa.
From stdpp Require Import prelude strings sorting.

Local Open Scope Z_scope.

(** ** Python's [range] *)

(** [range(start, stop)]: empty when [stop <= start]. *)
Definition range (start stop : Z) : list Z := seqZ start (stop - start).

(** [range(len(l))]: the indices of a list. *)
Definition indices {A} (l : list A) : list nat := seq 0 (length l).

(** ** src/models/entities.py *)

Record Employee := mkEmployee {
  id : Z;
  skills : list string;
  max_hours : Q;
  current_task : option string;
  hours_worked : Q;
  breaks_taken : list Z;
  schedule : list Z
}.

(** [employee.schedule = s] *)
Definition set_schedule (s : list Z) (emp : Employee) : Employee :=
  mkEmployee (id emp) (skills emp) (max_hours emp) (current_task emp)
             (hours_worked emp) (breaks_taken emp) s.

(** [employee.breaks_taken = b] *)
Definition set_breaks_taken (b : list Z) (emp : Employee) : Employee :=
  mkEmployee (id emp) (skills emp) (max_hours emp) (current_task emp)
             (hours_worked emp) b (schedule emp).

(** ** src/utils/helpers.py : get_shifts *)

Module Helpers.

(** The body of [for hour in schedule[1:]] with the two local lists
    [shifts] and [current_shift], followed by the closing
    [if current_shift: shifts.append(current_shift)].
    [current_shift[-1]] is the last element of the current shift. *)
Fixpoint get_shifts_loop (hours : list Z) (shifts : list (list Z))
         (current_shift : list Z) : list (list Z) :=
  match hours with
  | [] =>
      match current_shift with
      | [] => shifts
      | _ :: _ => shifts ++ [current_shift]
      end
  | hour :: hours' =>
      if decide (hour = List.last current_shift 0 + 1)
      then get_shifts_loop hours' shifts (current_shift ++ [hour])
      else get_shifts_loop hours' (shifts ++ [current_shift]) [hour]
  end.

Definition get_shifts (schedule : list Z) : list (list Z) :=
  match schedule with
  | [] => []
  | first :: rest => get_shifts_loop rest [] [first]
  end.

End Helpers.

(** ** Vocabulary for runs *)

(** Neighbouring elements of a list, left to right. *)
Definition adjacent {A} (l : list A) : list (A * A) := zip l (tail l).

(** Each element equals its predecessor plus one. *)
Definition contiguous (run : list Z) : bool :=
  forallb (λ xy, bool_decide (snd xy = fst xy + 1)) (adjacent run).

(** Two neighbouring runs could be merged into one contiguous run. *)
Definition mergeable (runs : list Z * list Z) : bool :=
  contiguous (fst runs ++ snd runs).

Definition nonempty {A} (l : list A) : bool :=
  match l with [] => false | _ => true end.

(** The runs of a segmentation: none is empty, each is contiguous, and no
    two neighbours can be merged. *)
Definition maximal_runs (runs : list (list Z)) : bool :=
  forallb nonempty runs && forallb contiguous runs
  && forallb (λ rr, negb (mergeable rr)) (adjacent runs).

(** ** Commands over the simulator's employee list

    A method of [WorkforceSimulator] reads and mutates [self.employees]
    and either returns or raises.  Mutations made before an exception is
    raised stay in place, as in Python. *)

Inductive outcome (A : Type) : Type :=
| Return (a : A)
| Raised.
Arguments Return {A} a.
Arguments Raised {A}.

Definition Sim (A : Type) : Type := list Employee → outcome A * list Employee.

Definition ret {A} (a : A) : Sim A := λ emps, (Return a, emps).

Definition raise {A} : Sim A := λ emps, (Raised, emps).

Definition bind {A B} (m : Sim A) (k : A → Sim B) : Sim B :=
  λ emps,
    match m emps with
    | (Return a, emps') => k a emps'
    | (Raised, emps') => (Raised, emps')
    end.

Notation "x ⇐ m ;; k" := (bind m (λ x, k))
  (at level 100, m at next level, right associativity).
Notation "m ;;; k" := (bind m (λ _, k))
  (at level 100, right associativity).

(** [try: body except Exception: handler] *)
Definition try_except {A} (body handler : Sim A) : Sim A :=
  λ emps,
    match body emps with
    | (Return a, emps') => (Return a, emps')
    | (Raised, emps') => handler emps'
    end.

(** [for x in xs: body(x)] *)
Fixpoint for_each {X} (xs : list X) (body : X → Sim unit) : Sim unit :=
  match xs with
  | [] => ret tt
  | x :: xs' => body x ;;; for_each xs' body
  end.

(** A value computed outside the employee list that may have raised. *)
Definition lift {A} (o : outcome A) : Sim A := λ emps, (o, emps).

(** [len(self.employees)] *)
Definition count_employees : Sim nat := λ emps, (Return (length emps), emps).

(** [self.employees[e]]: an [IndexError] out of range. *)
Definition employee_at (e : nat) : Sim Employee :=
  λ emps,
    match emps !! e with
    | Some emp => (Return emp, emps)
    | None => (Raised, emps)
    end.

(** [self.employees[e].schedule = s] *)
Definition assign_schedule (e : nat) (s : list Z) : Sim unit :=
  emp ⇐ employee_at e ;; λ emps, (Return tt, <[e := set_schedule s emp]> emps).

(** [self.employees[e].breaks_taken = b] *)
Definition assign_breaks_taken (e : nat) (b : list Z) : Sim unit :=
  emp ⇐ employee_at e ;; λ emps, (Return tt, <[e := set_breaks_taken b emp]> emps).

(** [self.employees[e].breaks_taken.append(x)] *)
Definition append_break (e : nat) (x : Z) : Sim unit :=
  emp ⇐ employee_at e ;; assign_breaks_taken e (breaks_taken emp ++ [x]).

(** [l[i]]: an [IndexError] out of range. *)
Definition item {A} (l : list A) (i : nat) : Sim A :=
  match l !! i with
  | Some x => ret x
  | None => raise
  end.

(** ** The optimisation backend (Pyomo with CBC), a black box

    [solver.solve(model)] either raises or returns a status, a
    termination condition and the values it loaded into the variables
    [model.working[e,p]].  A variable may hold no value, in which case
    [pyo.value] raises.  Floating-point values are taken as rationals. *)

Inductive SolverStatus := ok | warning | error | aborted | unknown.

Inductive TerminationCondition :=
| optimal | feasible | infeasible | unbounded | maxTimeLimit | other.

Record SolverResults := mkResults {
  status : SolverStatus;
  termination_condition : TerminationCondition;
  working : nat → Z → option Q
}.

(** The sets of the [pyo.ConcreteModel]; Pyomo sets initialised from a
    [range] iterate in that order. *)
Record ConcreteModel := mkModel {
  PERIODS : list Z;
  EMPLOYEES : list nat;
  DAYS : list Z
}.

Definition Solver : Type := ConcreteModel → outcome SolverResults.

#[global] Instance SolverStatus_eq_dec : EqDecision SolverStatus.
Proof. solve_decision. Defined.

#[global] Instance TerminationCondition_eq_dec : EqDecision TerminationCondition.
Proof. solve_decision. Defined.

(** [sum(...)] over variable values, from the left starting at 0; no
    result when some variable holds no value. *)
Definition sum_values (vs : list (option Q)) : option Q :=
  foldl (λ acc ov,
           match acc, ov with
           | Some a, Some v => Some (a + v)%Q
           | _, _ => None
           end) (Some 0%Q) vs.

(** [x > 0.5] *)
Definition above_half (x : Q) : bool := negb (Qle_bool x (1 # 2)).

(** [domain=pyo.Binary] *)
Definition is_binary (ov : option Q) : bool :=
  match ov with
  | Some v => Qeq_bool v 0 || Qeq_bool v 1
  | None => false
  end.

(** ** src/simulator/workforce_simulator.py *)

Module WorkforceSimulator.

(** Lines 36-38: the sets of the model. *)
Definition build_model (n_employees : nat) (horizon_days : Z) : ConcreteModel :=
  mkModel (range 0 (24 * horizon_days)) (seq 0 n_employees) (range 0 horizon_days).

(** Lines 51-53, on the values of a solution. *)
Definition daily_hours_rule (x : nat → Z → option Q) (e : nat) (d : Z) : bool :=
  let day_start := d * 24 in
  match sum_values (x e <$> range day_start (day_start + 24)) with
  | Some total => Qle_bool total 8
  | None => false
  end.

(** Lines 57-58. *)
Definition coverage_rule (model : ConcreteModel) (x : nat → Z → option Q) (p : Z) : bool :=
  match sum_values ((λ e, x e p) <$> EMPLOYEES model) with
  | Some total => Qle_bool 1 total
  | None => false
  end.

(** Lines 62-65; [Constraint.Skip] imposes nothing. *)
Definition consecutive_hours_rule (model : ConcreteModel) (x : nat → Z → option Q)
           (e : nat) (p : Z) : bool :=
  if decide (p ≤ Z.of_nat (length (PERIODS model)) - 9)
  then match sum_values (x e <$> range p (p + 9)) with
       | Some total => Qle_bool total 8
       | None => false
       end
  else true.

(** The variables of line 41 are binary and the constraints of line 54
    hold. *)
Definition daily_hours (model : ConcreteModel) (x : nat → Z → option Q) : bool :=
  forallb (λ e, forallb (λ p, is_binary (x e p)) (PERIODS model)
                && forallb (λ d, daily_hours_rule x e d) (DAYS model))
          (EMPLOYEES model).

(** Lines 59 and 66. *)
Definition coverage (model : ConcreteModel) (x : nat → Z → option Q) : bool :=
  forallb (coverage_rule model x) (PERIODS model).

Definition consecutive_hours (model : ConcreteModel) (x : nat → Z → option Q) : bool :=
  forallb (λ e, forallb (consecutive_hours_rule model x e) (PERIODS model))
          (EMPLOYEES model).

(** Lines 77-80: the inner loop of the extraction, with the local list
    [schedule]. *)
Fixpoint extract_periods (x : nat → Z → option Q) (e : nat) (periods : list Z)
         (schedule : list Z) : outcome (list Z) :=
  match periods with
  | [] => Return schedule
  | p :: periods' =>
      match x e p with
      | None => Raised
      | Some v =>
          extract_periods x e periods'
            (if above_half v then schedule ++ [p] else schedule)
      end
  end.

(** Lines 95-99. *)
Definition shifts : list (Z * Z) := [(0, 8); (8, 16); (16, 24)].

(** Lines 108-109. *)
Definition fallback_hours (day shift_start shift_end : Z) (schedule : list Z) : list Z :=
  foldl (λ schedule hour, schedule ++ [day * 24 + hour]) schedule
        (range shift_start shift_end).

(** Lines 106-109, from the empty list of line 102. *)
Definition fallback_days (horizon_days shift_start shift_end : Z) : list Z :=
  foldl (λ schedule day,
           if decide (day `mod` 2 = 0)
           then fallback_hours day shift_start shift_end schedule
           else schedule) [] (range 0 horizon_days).

(** Lines 91-113. *)
Definition _generate_fallback_schedule (horizon_days : Z) : Sim unit :=
  n ⇐ count_employees ;;
  for_each (seq 0 n) (λ e,
    let shift_index := (e `mod` length shifts)%nat in
    shift ⇐ item shifts shift_index ;;
    let schedule := fallback_days horizon_days (fst shift) (snd shift) in
    assign_schedule e schedule).

(** Lines 30-89.  Building the model and calling the solver (lines
    33-70) is the one call [solver model], which may raise; the
    extraction of lines 76-81 may raise at any variable; the logging
    calls are left out. *)
Definition generate_schedule (solver : Solver) (horizon_days : Z) : Sim unit :=
  try_except
    (n ⇐ count_employees ;;
     let model := build_model n horizon_days in
     results ⇐ lift (solver model) ;;
     if bool_decide (status results = ok)
        && bool_decide (termination_condition results = optimal)
     then
       for_each (EMPLOYEES model) (λ e,
         schedule ⇐ lift (extract_periods (working results) e (PERIODS model) []) ;;
         assign_schedule e schedule)
     else
       _generate_fallback_schedule horizon_days)
    (_generate_fallback_schedule horizon_days).

(** Lines 133-150, the same text as [Helpers.get_shifts]. *)
Fixpoint _get_shifts_loop (hours : list Z) (shifts : list (list Z))
         (current_shift : list Z) : list (list Z) :=
  match hours with
  | [] =>
      match current_shift with
      | [] => shifts
      | _ :: _ => shifts ++ [current_shift]
      end
  | hour :: hours' =>
      if decide (hour = List.last current_shift 0 + 1)
      then _get_shifts_loop hours' shifts (current_shift ++ [hour])
      else _get_shifts_loop hours' (shifts ++ [current_shift]) [hour]
  end.

Definition _get_shifts (schedule : list Z) : list (list Z) :=
  match schedule with
  | [] => []
  | first :: rest => _get_shifts_loop rest [] [first]
  end.

(** Lines 122-126: one shift of the inner loop of [add_breaks]. *)
Definition add_break (e : nat) (shift : list Z) : Sim unit :=
  if decide (6 ≤ length shift)%nat
  then mid_point ⇐ item shift (length shift / 2)%nat ;; append_break e mid_point
  else ret tt.

(** Lines 115-131.  [for employee in self.employees] visits the
    employees by position (the list holds distinct objects, as [main]
    builds it); the handler only logs. *)
Definition add_breaks : Sim unit :=
  try_except
    (n ⇐ count_employees ;;
     for_each (seq 0 n) (λ e,
       employee ⇐ employee_at e ;;
       let shifts := _get_shifts (schedule employee) in
       assign_breaks_taken e [] ;;;
       for_each shifts (add_break e)))
    (ret tt).

End WorkforceSimulator.

(** ** Running a method *)

(** The employee list a method leaves behind. *)
Definition employees_after {A} (m : Sim A) (emps : list Employee) : list Employee :=
  snd (m emps).

(** The method returned instead of raising to its caller. *)
Definition returns {A} (m : Sim A) (emps : list Employee) : bool :=
  match fst (m emps) with Return _ => true | Raised => false end.

(** ** Vocabulary for schedules and breaks, in the specification's words *)

Definition strictly_increasing (l : list Z) : bool :=
  forallb (λ xy, bool_decide (fst xy < snd xy)) (adjacent l).

(** Every period lies in [[0, horizon_days * 24)]. *)
Definition within_horizon (horizon_days : Z) (l : list Z) : bool :=
  forallb (λ p, bool_decide (0 ≤ p < horizon_days * 24)) l.

(** The schedule entries in the half-open range [[d*24, (d+1)*24)]. *)
Definition periods_on_day (d : Z) (schedule : list Z) : list Z :=
  filter (λ p, d * 24 ≤ p < (d + 1) * 24) schedule.

(** What one run contributes: a run of length [L >= 6] gives the single
    break [run[L // 2]], a shorter run gives none. *)
Definition breaks_of_run (run : list Z) : list Z :=
  if decide (6 ≤ length run)%nat then [run !!! (length run / 2)%nat] else [].

(** The breaks of a schedule: those of its runs, run after run. *)
Definition breaks_of_schedule (schedule : list Z) : list Z :=
  concat (breaks_of_run <$> WorkforceSimulator._get_shifts schedule).

(** The recorded breaks that fall inside a given run. *)
Definition breaks_within (run breaks : list Z) : list Z :=
  filter (λ b, b ∈ run) breaks.

(** The fallback heuristic as section 4.3 words it: employee [e] has
    template [e mod 3]; on every even day of the horizon every hour of
    the template is scheduled, and the other days are off. *)
Definition template (e : nat) : Z * Z :=
  WorkforceSimulator.shifts !!! (e `mod` 3)%nat.

Definition fallback_schedule (e : nat) (horizon_days : Z) : list Z :=
  concat ((λ day, (λ hour, day * 24 + hour) <$> range (fst (template e)) (snd (template e)))
            <$> filter (λ day, day `mod` 2 = 0) (range 0 horizon_days)).

(** The extraction as section 4.2 words it: the periods of the horizon,
    in order, whose decision variable is above the threshold. *)
Definition selected (x : nat → Z → option Q) (e : nat) (p : Z) : bool :=
  match x e p with
  | Some v => above_half v
  | None => false
  end.

Definition extracted_schedule (results : SolverResults) (e : nat) (horizon_days : Z) : list Z :=
  filter (λ p, selected (working results) e p = true) (range 0 (24 * horizon_days)).

(** The backend produced an optimal assignment and every variable of the
    model holds a value. *)
Definition backend_optimal (solver : Solver) (n_employees : nat) (horizon_days : Z)
  : option SolverResults :=
  let model := WorkforceSimulator.build_model n_employees horizon_days in
  match solver model with
  | Return results =>
      if bool_decide (status results = ok)
         && bool_decide (termination_condition results = optimal)
         && forallb (λ e, forallb (λ p, bool_decide (is_Some (working results e p)))
                                  (PERIODS model))
                    (EMPLOYEES model)
      then Some results
      else None
  | Raised => None
  end.

(** A period lies on an even day and inside the hours-of-day of the
    employee's template. *)
Definition on_template (e : nat) (p : Z) : Prop :=
  (p `div` 24) `mod` 2 = 0 ∧ fst (template e) ≤ p `mod` 24 < snd (template e).

#[global] Instance on_template_dec e p : Decision (on_template e p).
Proof. unfold on_template. apply _. Defined.

(** When the backend is optimal, the values it loaded are binary and
    satisfy the daily-hours constraints of the model. *)
Definition backend_respects_daily_hours (solver : Solver) (n_employees : nat)
           (horizon_days : Z) : bool :=
  match backend_optimal solver n_employees horizon_days with
  | Some results =>
      WorkforceSimulator.daily_hours
        (WorkforceSimulator.build_model n_employees horizon_days) (working results)
  | None => true
  end.

(** src/config/settings.py, [SIMULATION_SETTINGS['max_hours_per_day']]. *)
Definition max_hours_per_day : nat := 8.

(** ** Concrete inputs *)

(** src/config/settings.py, [SKILLS_MATRIX]. *)
Definition SKILLS_MATRIX : list (list string) :=
  [["operator"; "maintenance"]; ["operator"]; ["maintenance"; "quality"];
   ["operator"; "quality"]]%string.

(** [Employee(id=i, skills=skills)] with the defaults of the dataclass. *)
Definition new_employee (i : nat) (skills : list string) : Employee :=
  mkEmployee (Z.of_nat i) skills 40 None 0 [] [].

(** src/main.py, lines 17-18. *)
Definition main_employees : list Employee := imap new_employee SKILLS_MATRIX.

(** A backend that is not available: every call raises. *)
Definition unavailable : Solver := λ _, Raised.

(** An employee who works the six periods 0..5 and has no break yet. *)
Definition six_period_employee : Employee :=
  set_schedule [0; 1; 2; 3; 4; 5] (new_employee 0 ["operator"%string]).

(** A backend that reports an optimal solution in which every employee
    works the first eight periods of the horizon. *)
Definition first_eight : Solver :=
  λ _, Return (mkResults ok optimal (λ _ p, Some (if decide (p < 8) then 1%Q else 0%Q))).

(** A backend whose optimal solution leaves one variable without value. *)
Definition stale_variable : Solver :=
  λ _, Return (mkResults ok optimal
                 (λ e p, if decide (e = 1%nat ∧ p = 3) then None else Some 1%Q)).

(** A backend that calls optimal a solution violating the constraints:
    every employee works every period. *)
Definition all_ones : Solver :=
  λ _, Return (mkResults ok optimal (λ _ _, Some 1%Q)).

(** The scenario of section 8: the four employees of [main], a horizon
    of seven days, the backend unavailable, then the breaks. *)
Definition scenario_result : list Employee :=
  employees_after WorkforceSimulator.add_breaks
    (employees_after (WorkforceSimulator.generate_schedule unavailable 7) main_employees).

From stdpp Require Import pretty gmap.

Local Open Scope Z_scope.

(** ** Schedules as assignments of the model *)

(** The 0/1 assignment a list of schedules stands for: variable [(e, p)]
    is 1 when period [p] is in the schedule of employee [e]. *)
Definition assignment_of (schedules : list (list Z)) : nat → Z → option Q :=
  λ e p, Some (if decide (p ∈ schedules !!! e) then 1%Q else 0%Q).

(** The schedules the fallback gives to [n] employees. *)
Definition fallback_schedules (n : nat) (horizon_days : Z) : list (list Z) :=
  (λ e, fallback_schedule e horizon_days) <$> seq 0 n.

(** An assignment satisfies the model of lines 41-66: binary variables,
    daily hours, coverage and consecutive hours. *)
Definition satisfies_model (model : ConcreteModel) (x : nat → Z → option Q) : bool :=
  WorkforceSimulator.daily_hours model x
  && WorkforceSimulator.coverage model x
  && WorkforceSimulator.consecutive_hours model x.

(** When the backend is optimal, its solution satisfies the model. *)
Definition backend_feasible (solver : Solver) (n_employees : nat) (horizon_days : Z) : bool :=
  match backend_optimal solver n_employees horizon_days with
  | Some results =>
      satisfies_model (WorkforceSimulator.build_model n_employees horizon_days) (working results)
  | None => true
  end.

(** The number of employees scheduled at period [p]. *)
Definition staff_at (emps : list Employee) (p : Z) : nat :=
  length (filter (λ emp, p ∈ schedule emp) emps).

(** A backend whose optimal solution has employee [e] work the eight
    periods from [8 * e] on. *)
Definition three_shifts : Solver :=
  λ _, Return (mkResults ok optimal
                 (λ e p, Some (if decide (8 * Z.of_nat e ≤ p < 8 * Z.of_nat e + 8)
                               then 1%Q else 0%Q))).

(** A variable counts as true: it has a value above the threshold of
    line 79. *)
Definition holds (ov : option Q) : bool :=
  match ov with
  | Some v => above_half v
  | None => false
  end.

(** A backend that reports the assignment of given schedules as
    optimal. *)
Definition answers (schedules : list (list Z)) : Solver :=
  λ _, Return (mkResults ok optimal (assignment_of schedules)).

(** Three employees working round the clock: employee [e] of the first
    three works the eight hours from [8 * e] of every day, and the
    others do not work. *)
Definition round_the_clock : nat → Z → option Q :=
  λ e p, Some (if decide ((e < 3)%nat ∧ 8 * Z.of_nat e ≤ p `mod` 24 < 8 * Z.of_nat e + 8)
               then 1%Q else 0%Q).

(** A backend that finds the model infeasible and loads no values. *)
Definition reports_infeasible : Solver :=
  λ _, Return (mkResults warning infeasible (λ _ _, None)).

(** ** Reports: [print_schedule] and src/visualization/visualizer.py

    The reports read the employees and mutate nothing.  What is modelled
    is the data each of them prepares before it prints, plots or writes
    a file: a report returns that data or raises.  The plotting and
    file-writing calls themselves are not modelled. *)

#[global] Instance outcome_ret : MRet outcome := λ A a, Return a.

#[global] Instance outcome_bind : MBind outcome :=
  λ A B k o, match o with Return a => k a | Raised => Raised end.

(** [for x in xs: ...] over local data [acc]; an exception ends the
    loop. *)
Fixpoint for_acc {A X} (xs : list X) (body : A → X → outcome A) (acc : A) : outcome A :=
  match xs with
  | [] => Return acc
  | x :: xs' => acc' ← body acc x; for_acc xs' body acc'
  end.

(** [enumerate(l)] *)
Definition enumerate {A} (l : list A) : list (nat * A) := imap pair l.

(** [l[0]] and [l[-1]]: an [IndexError] on the empty list. *)
Definition first_item (l : list Z) : outcome Z :=
  match l with
  | [] => Raised
  | x :: _ => Return x
  end.

Definition last_item (l : list Z) : outcome Z :=
  match last l with
  | Some x => Return x
  | None => Raised
  end.

(** [sorted(l)] on integers. *)
Definition sorted (l : list Z) : list Z := merge_sort Z.le l.

(** [f'{n:02d}'] *)
Definition format_02d (n : Z) : string :=
  if decide (0 ≤ n < 10) then "0" +:+ pretty n else pretty n.

(** [sep.join(l)] *)
Definition join (sep : string) (l : list string) : string := String.concat sep l.

Definition newline : string := String (Ascii.ascii_of_nat 10) "".

(** Lines 159-161 of workforce_simulator.py and 133-135 of
    visualizer.py: day, start hour and end hour of a shift. *)
Definition shift_times (shift : list Z) : outcome (Z * Z * Z) :=
  first ← first_item shift;
  last ← last_item shift;
  mret (first `div` 24, first `mod` 24, last `mod` 24 + 1).

(** The f-strings of lines 156, 162 and 164 of workforce_simulator.py. *)
Definition employee_heading (i : nat) (employee : Employee) : string :=
  newline +:+ "Employee " +:+ pretty i +:+ " (Skills: "
  +:+ join ", " (skills employee) +:+ ")".

Definition shift_text (day start_hour end_hour : Z) : string :=
  "  Day " +:+ pretty day +:+ ": " +:+ format_02d start_hour +:+ ":00 - "
  +:+ format_02d end_hour +:+ ":00".

Definition break_text (b : Z) : string :=
  "Day " +:+ pretty (b `div` 24) +:+ ", " +:+ format_02d (b `mod` 24) +:+ ":00".

(** workforce_simulator.py, lines 152-165: the lines printed, one string
    for each call of [print]. *)
Definition print_schedule (emps : list Employee) : outcome (list string) :=
  for_acc (enumerate emps)
    (λ out ie,
       let i := fst ie in
       let employee := snd ie in
       let out := out ++ [employee_heading i employee] in
       let shifts := WorkforceSimulator._get_shifts (schedule employee) in
       out ← for_acc shifts
               (λ out shift,
                  times ← shift_times shift;
                  let day := fst (fst times) in
                  let start_hour := snd (fst times) in
                  let end_hour := snd times in
                  mret (out ++ [shift_text day start_hour end_hour]))
               out;
       if nonempty (breaks_taken employee)
       then
         let break_times := break_text <$> sorted (breaks_taken employee) in
         mret (out ++ ["  Breaks: " +:+ join ", " break_times])
       else mret out)
    [newline +:+ "Schedule Summary:"].

(** The simulator a [ScheduleVisualizer] holds is read through its
    employee list. *)
Module ScheduleVisualizer.

(** *** create_gantt_chart, lines 25-49 *)

(** A [datetime] with whole hours, as the number of hours since
    [datetime(2024, 1, 1)].  The type holds the years 1 to 9999:
    from 0001-01-01 00:00 to 9999-12-31 23:00. *)
Definition datetime_min : Z := -17733240.
Definition datetime_max : Z := 69916175.

(** [d + timedelta(hours=h)]: an [OverflowError] outside the range. *)
Definition plus_hours (d h : Z) : outcome Z :=
  if decide (datetime_min ≤ d + h ≤ datetime_max) then Return (d + h) else Raised.

Record GanttRow := mkGanttRow {
  Employee_label : string;
  Start : Z;
  Finish : Z;
  Task : string
}.

Definition employee_label (i : nat) (employee : Employee) : string :=
  "Employee " +:+ pretty i +:+ " (" +:+ join ", " (skills employee) +:+ ")".

Definition df_list (emps : list Employee) : outcome (list GanttRow) :=
  for_acc (enumerate emps)
    (λ df_list ie,
       let i := fst ie in
       let employee := snd ie in
       let shifts := WorkforceSimulator._get_shifts (schedule employee) in
       df_list ← for_acc shifts
                   (λ df_list shift,
                      first ← first_item shift;
                      start_time ← plus_hours 0 first;
                      last ← last_item shift;
                      end_time ← plus_hours 0 (last + 1);
                      mret (df_list ++ [mkGanttRow (employee_label i employee)
                                                   start_time end_time "Working"]))
                   df_list;
       for_acc (breaks_taken employee)
         (λ df_list break_time,
            break_start ← plus_hours 0 break_time;
            break_end ← plus_hours break_start 1;
            mret (df_list ++ [mkGanttRow (employee_label i employee)
                                         break_start break_end "Break"]))
         df_list)
    [].

(** *** create_coverage_heatmap, lines 72-79 *)

(** Indexing one axis of length [n] of a numpy array: a negative index
    counts from the end, and an [IndexError] is raised outside
    [[-n, n)]. *)
Definition axis_index (n : Z) (i : Z) : outcome nat :=
  if decide (0 ≤ i < n) then Return (Z.to_nat i)
  else if decide (- n ≤ i < 0) then Return (Z.to_nat (i + n))
  else Raised.

(** [matrix[r, c] += 1] at indices inside the array. *)
Definition increment (r c : nat) (matrix : list (list nat)) : list (list nat) :=
  alter (alter S c) r matrix.

(** Lines 76-79: one scheduled hour. *)
Definition count_hour (matrix : list (list nat)) (hour : Z) : outcome (list (list nat)) :=
  let day := hour `div` 24 in
  let hour_of_day := hour `mod` 24 in
  if decide (day < 7)
  then r ← axis_index 7 day;
       c ← axis_index 24 hour_of_day;
       mret (increment r c matrix)
  else mret matrix.

(** The 7 x 24 array [coverage_matrix]; its entries are whole numbers
    held in floats. *)
Definition coverage_matrix (emps : list Employee) : outcome (list (list nat)) :=
  for_acc emps
    (λ matrix employee, for_acc (schedule employee) count_hour matrix)
    (replicate 7 (replicate 24 0%nat)).

(** *** create_skill_coverage_chart, lines 97-108 *)

(** [skill_coverage[skill]] of the [defaultdict]: a missing key stands
    for [np.zeros(24)]. *)
Definition skill_row (skill_coverage : gmap string (list nat)) (skill : string) : list nat :=
  default (replicate 24 0%nat) (skill_coverage !! skill).

(** [skill_coverage[skill][hour_of_day] += 1] *)
Definition count_skill (hour_of_day : Z) (skill_coverage : gmap string (list nat))
           (skill : string) : outcome (gmap string (list nat)) :=
  c ← axis_index 24 hour_of_day;
  mret (<[skill := alter S c (skill_row skill_coverage skill)]> skill_coverage).

(** The pair of [all_skills] and [skill_coverage] after the loop. *)
Definition skill_coverage (emps : list Employee)
  : outcome (gset string * gmap string (list nat)) :=
  for_acc emps
    (λ acc employee,
       let all_skills := fst acc ∪ list_to_set (skills employee) in
       let shifts := WorkforceSimulator._get_shifts (schedule employee) in
       coverage ← for_acc shifts
                    (λ coverage shift,
                       for_acc shift
                         (λ coverage hour,
                            let hour_of_day := hour `mod` 24 in
                            for_acc (skills employee) (count_skill hour_of_day) coverage)
                         coverage)
                    (snd acc);
       mret (all_skills, coverage))
    (∅, ∅).

(** *** generate_excel_report, lines 129-164 *)

Record ScheduleRow := mkScheduleRow {
  Employee_ID : nat;
  Skills : string;
  Day : Z;
  Start_Hour : string;
  End_Hour : string;
  Shift_Length : nat
}.

(** Lines 129-143. *)
Definition schedule_data (emps : list Employee) : outcome (list ScheduleRow) :=
  for_acc (enumerate emps)
    (λ schedule_data ie,
       let i := fst ie in
       let employee := snd ie in
       let shifts := WorkforceSimulator._get_shifts (schedule employee) in
       for_acc shifts
         (λ schedule_data shift,
            times ← shift_times shift;
            let day := fst (fst times) in
            let start_hour := snd (fst times) in
            let end_hour := snd times in
            mret (schedule_data
                    ++ [mkScheduleRow i (join ", " (skills employee)) day
                                      (format_02d start_hour +:+ ":00")
                                      (format_02d end_hour +:+ ":00")
                                      (length shift)]))
         schedule_data)
    [].

Record BreakRow := mkBreakRow {
  Break_Employee_ID : nat;
  Break_Day : Z;
  Break_Time : string
}.

(** Lines 149-156. *)
Definition break_data (emps : list Employee) : list BreakRow :=
  foldl (λ break_data ie,
           let i := fst ie in
           let employee := snd ie in
           foldl (λ break_data break_time,
                    break_data ++ [mkBreakRow i (break_time `div` 24)
                                              (format_02d (break_time `mod` 24) +:+ ":00")])
                 break_data (sorted (breaks_taken employee)))
        [] (enumerate emps).

(** A row of the coverage summary.  ['Skills Available'] joins the
    elements of a set, in an order Python does not fix; the row keeps
    the set. *)
Record CoverageRow := mkCoverageRow {
  Coverage_Day : Z;
  Coverage_Hour : Z;
  Staff_Count : nat;
  Skills_Available : gset string
}.

(** Lines 176-189: the row of one day and hour. *)
Definition coverage_row (emps : list Employee) (day hour : Z) : CoverageRow :=
  let staff_count :=
    sum_list ((λ _, 1%nat) <$> filter (λ emp, day * 24 + hour ∈ schedule emp) emps) in
  let skills_present :=
    foldl (λ skills_present (emp : Employee),
             if decide (day * 24 + hour ∈ schedule emp)
             then skills_present ∪ list_to_set (skills emp)
             else skills_present) (∅ : gset string) emps in
  mkCoverageRow day hour staff_count skills_present.

(** Lines 168-191. *)
Definition _generate_coverage_summary (emps : list Employee) : list CoverageRow :=
  let hours := range 0 24 in
  let days := range 0 7 in
  foldl (λ coverage_data day,
           foldl (λ coverage_data hour, coverage_data ++ [coverage_row emps day hour])
                 coverage_data hours)
        [] days.

(** The three sheets handed to the writer. *)
Record ExcelReport := mkExcelReport {
  Schedules : list ScheduleRow;
  Breaks : list BreakRow;
  Coverage_Summary : list CoverageRow
}.

Definition generate_excel_report (emps : list Employee) : outcome ExcelReport :=
  schedule_data ← schedule_data emps;
  let break_data := break_data emps in
  let coverage_data := _generate_coverage_summary emps in
  mret (mkExcelReport schedule_data break_data coverage_data).

End ScheduleVisualizer.

(** ** The simulator object: [__init__] and [add_employee], lines 16-28 *)

(** [simpy.Resource(env, capacity=1)] *)
Record Resource := mkResource { capacity : nat }.

(** The attributes [employees] and [resources]; [tasks],
    [historical_demand] and [performance_metrics] are set empty by
    [__init__] and touched by no method. *)
Record Simulator := mkSimulator {
  employees : list Employee;
  resources : gmap string Resource
}.

(** [WorkforceSimulator(env)] *)
Definition new_simulator : Simulator := mkSimulator [] ∅.

(** Lines 24-28. *)
Definition add_employee (self : Simulator) (employee : Employee) : Simulator :=
  mkSimulator
    (employees self ++ [employee])
    (foldl (λ resources skill,
              if decide (resources !! skill = None)
              then <[skill := mkResource 1]> resources
              else resources)
           (resources self) (skills employee)).

(** ** src/main.py *)

(** Lines 13-18: the simulator with the employees of [SKILLS_MATRIX]. *)
Definition main_simulator : Simulator :=
  foldl (λ simulator i_skills,
           add_employee simulator (new_employee (fst i_skills) (snd i_skills)))
        new_simulator (enumerate SKILLS_MATRIX).

(** The run of [main], lines 10-41, for a backend and a visualizer:
    creating the [ScheduleVisualizer] and calling
    [generate_all_visualizations] is a black box that is handed the
    employees and returns or raises.  The result is the exit code. *)
Definition main (solver : Solver) (visualizer : list Employee → outcome unit) : Z :=
  match WorkforceSimulator.generate_schedule solver 7 (employees main_simulator) with
  | (Raised, _) => 1
  | (Return _, emps) =>
      match WorkforceSimulator.add_breaks emps with
      | (Raised, _) => 1
      | (Return _, emps) =>
          match visualizer emps with
          | Raised => 1
          | Return _ => 0
          end
      end
  end.

(** ** Vocabulary for the reports *)

(** The row of the Schedules sheet for a shift of an employee, from the
    first and the last period of the shift. *)
Definition shift_row (i : nat) (employee : Employee) (shift : list Z)
  : ScheduleVisualizer.ScheduleRow :=
  ScheduleVisualizer.mkScheduleRow i (join ", " (skills employee))
    (hd 0 shift `div` 24)
    (format_02d (hd 0 shift `mod` 24) +:+ ":00")
    (format_02d (List.last shift 0 `mod` 24 + 1) +:+ ":00")
    (length shift).

(** The row of the Breaks sheet for a break of an employee. *)
Definition break_row (i : nat) (break_time : Z) : ScheduleVisualizer.BreakRow :=
  ScheduleVisualizer.mkBreakRow i (break_time `div` 24)
    (format_02d (break_time `mod` 24) +:+ ":00").

(** [shift[len(shift) // 2]], the period in the middle of a shift. *)
Definition mid_point (shift : list Z) : Z := shift !!! (length shift / 2)%nat.

(** The skills of the employees scheduled at period [p]. *)
Definition skills_at (emps : list Employee) (p : Z) (skill : string) : Prop :=
  ∃ emp, emp ∈ emps ∧ p ∈ schedule emp ∧ skill ∈ skills emp.

(** [matrix[d, h]] at indices inside the array. *)
Definition cell (matrix : list (list nat)) (d h : nat) : nat := (matrix !!! d) !!! h.

(** A 7 x 24 array. *)
Definition week_shaped (matrix : list (list nat)) : Prop :=
  length matrix = 7%nat ∧ Forall (λ row, length row = 24%nat) matrix.

(** How often the heatmap counts the list [hours] in the cell of the
    hour [cell] of the week: the hours before the end of the first week
    that fall on that hour of a week. *)
Definition week_count (cell : Z) (hours : list Z) : nat :=
  length (filter (λ p, p < 168 ∧ p `mod` 168 = cell) hours).

(** The bars of the Gantt chart: one for a shift, from its first period
    to the end of its last period, and one of an hour for a break. *)
Definition working_bar (i : nat) (employee : Employee) (shift : list Z)
  : ScheduleVisualizer.GanttRow :=
  ScheduleVisualizer.mkGanttRow (ScheduleVisualizer.employee_label i employee)
    (hd 0 shift) (List.last shift 0 + 1) "Working".

Definition break_bar (i : nat) (employee : Employee) (break_time : Z)
  : ScheduleVisualizer.GanttRow :=
  ScheduleVisualizer.mkGanttRow (ScheduleVisualizer.employee_label i employee)
    break_time (break_time + 1) "Break".

(** Every period can be turned into a [datetime], and so can the hour
    after it. *)
Definition datable (l : list Z) : Prop :=
  Forall (λ p, ScheduleVisualizer.datetime_min ≤ p < ScheduleVisualizer.datetime_max) l.

(** The line [print_schedule] would print for a row of the Schedules
    sheet. *)
Definition shift_line (row : ScheduleVisualizer.ScheduleRow) : string :=
  "  Day " +:+ pretty (ScheduleVisualizer.Day row) +:+ ": "
  +:+ ScheduleVisualizer.Start_Hour row +:+ " - " +:+ ScheduleVisualizer.End_Hour row.

(** The line of breaks [print_schedule] prints for an employee who has
    breaks. *)
Definition breaks_lines (employee : Employee) : list string :=
  match breaks_taken employee with
  | [] => []
  | _ => ["  Breaks: " +:+ join ", " (break_text <$> sorted (breaks_taken employee))]
  end.

(** How often an employee's skill list names a skill, and how many
    periods of a schedule fall on hour [h] of the day. *)
Definition skill_count (skill : string) (employee : Employee) : nat :=
  length (filter (λ s, s = skill) (skills employee)).

Definition hour_count (h : nat) (schedule : list Z) : nat :=
  length (filter (λ p, p `mod` 24 = Z.of_nat h) schedule).

(** Every array of the [defaultdict] has 24 entries. *)
Definition day_shaped (skill_coverage : gmap string (list nat)) : Prop :=
  ∀ skill, length (ScheduleVisualizer.skill_row skill_coverage skill) = 24%nat.

(** * Properties *)

(** ** Shift segmentation *)

Section Segmentation.

Import Helpers.

Lemma adjacent_cons {A} (x y : A) (l : list A) :
  adjacent (x :: y :: l) = (x, y) :: adjacent (y :: l).
Proof. reflexivity. Qed.

(** [contiguous] says what it should: every element is its predecessor
    plus one. *)
Lemma contiguous_lookup (run : list Z) :
  contiguous run = true ↔
  ∀ i x y, run !! i = Some x → run !! S i = Some y → y = x + 1.
Proof.
  induction run as [|a [|b run] IH].
  - split; [intros _ i x y H; by rewrite lookup_nil in H | done].
  - split; [intros _ [|i] x y H1 H2; simplify_eq/= | done].
  - unfold contiguous in *. rewrite adjacent_cons. cbn [forallb fst snd].
    rewrite andb_true_iff, bool_decide_eq_true, IH. split.
    + intros [-> H] [|i] x y H1 H2; simplify_eq/=; [done | by eapply H].
    + intros H. split; [by apply (H 0%nat) | intros i x y; apply (H (S i))].
Qed.

Lemma contiguous_snoc (run : list Z) (x : Z) :
  run ≠ [] →
  contiguous (run ++ [x]) = contiguous run && bool_decide (x = List.last run 0 + 1).
Proof.
  induction run as [|a [|b run] IH]; [done | |]; intros _.
  - unfold contiguous. simpl. by rewrite andb_true_r.
  - change ((a :: b :: run) ++ [x]) with (a :: b :: (run ++ [x])).
    unfold contiguous in *. rewrite !adjacent_cons. cbn [forallb fst snd].
    change (b :: run ++ [x]) with ((b :: run) ++ [x]).
    rewrite IH by done. by rewrite andb_assoc.
Qed.

Lemma contiguous_app (run : list Z) (x : Z) (more : list Z) :
  run ≠ [] →
  contiguous (run ++ x :: more) =
  contiguous run && bool_decide (x = List.last run 0 + 1) && contiguous (x :: more).
Proof.
  induction run as [|a [|b run] IH]; [done | |]; intros _.
  - unfold contiguous. destruct more; reflexivity.
  - change ((a :: b :: run) ++ x :: more) with (a :: b :: (run ++ x :: more)).
    unfold contiguous in *. rewrite !adjacent_cons. cbn [forallb fst snd].
    change (b :: run ++ x :: more) with ((b :: run) ++ x :: more).
    rewrite IH by done. by rewrite !andb_assoc.
Qed.

Lemma maximal_runs_cons (r1 r2 : list Z) (runs : list (list Z)) :
  maximal_runs (r1 :: r2 :: runs) =
  nonempty r1 && contiguous r1 && negb (mergeable (r1, r2))
  && maximal_runs (r2 :: runs).
Proof.
  unfold maximal_runs. rewrite adjacent_cons. cbn [forallb].
  destruct (nonempty r1), (contiguous r1), (negb (mergeable (r1, r2))),
    (nonempty r2), (contiguous r2); simpl; try reflexivity;
    by rewrite ?andb_false_r.
Qed.

Lemma get_shifts_loop_app (hours : list Z) (shifts : list (list Z)) (current : list Z) :
  get_shifts_loop hours shifts current = shifts ++ get_shifts_loop hours [] current.
Proof.
  revert shifts current.
  induction hours as [|hour hours IH]; intros shifts current; simpl.
  - destruct current; [by rewrite app_nil_r | done].
  - case_decide; [apply IH |].
    rewrite (IH (shifts ++ [current])), (IH [current]). by rewrite <- app_assoc.
Qed.

Lemma get_shifts_loop_concat (hours current : list Z) :
  current ≠ [] → concat (get_shifts_loop hours [] current) = current ++ hours.
Proof.
  revert current. induction hours as [|hour hours IH]; intros current Hne; simpl.
  - destruct current; [done | reflexivity].
  - case_decide.
    + rewrite IH by (by destruct current). by rewrite <- app_assoc.
    + rewrite get_shifts_loop_app. simpl. by rewrite IH.
Qed.

Lemma get_shifts_loop_first (hours current : list Z) :
  current ≠ [] →
  ∃ more runs, get_shifts_loop hours [] current = (current ++ more) :: runs.
Proof.
  revert current. induction hours as [|hour hours IH]; intros current Hne; simpl.
  - destruct current; [done |]. exists [], []. by rewrite app_nil_r.
  - case_decide.
    + destruct (IH (current ++ [hour])) as (more & runs & ->); [by destruct current |].
      exists (hour :: more), runs. by rewrite <- app_assoc.
    + rewrite get_shifts_loop_app. exists [], (get_shifts_loop hours [] [hour]).
      by rewrite app_nil_r.
Qed.

Lemma get_shifts_loop_maximal (hours current : list Z) :
  current ≠ [] → contiguous current = true →
  maximal_runs (get_shifts_loop hours [] current) = true.
Proof.
  revert current. induction hours as [|hour hours IH]; intros current Hne Hc; simpl.
  - destruct current; [done |]. unfold maximal_runs. simpl. by rewrite Hc.
  - case_decide as Hnext.
    + apply IH; [by destruct current |].
      rewrite contiguous_snoc, Hc by done. by rewrite bool_decide_eq_true_2.
    + rewrite get_shifts_loop_app. simpl.
      destruct (get_shifts_loop_first hours [hour]) as (more & runs & Hfirst); [done |].
      specialize (IH [hour] ltac:(done) eq_refl). rewrite Hfirst in IH |- *.
      rewrite maximal_runs_cons, IH, Hc. unfold mergeable. cbn [fst snd].
      change ([hour] ++ more) with (hour :: more).
      rewrite contiguous_app, Hc, bool_decide_eq_false_2 by done.
      by destruct current.
Qed.

Lemma _get_shifts_loop_eq (hours : list Z) (shifts : list (list Z)) (current : list Z) :
  WorkforceSimulator._get_shifts_loop hours shifts current
  = get_shifts_loop hours shifts current.
Proof.
  revert shifts current. induction hours as [|hour hours IH]; intros; simpl; [done |].
  by rewrite !IH.
Qed.

Lemma _get_shifts_eq (schedule : list Z) :
  WorkforceSimulator._get_shifts schedule = get_shifts schedule.
Proof. destruct schedule; [done | apply _get_shifts_loop_eq]. Qed.

(** Both copies of the segmenter: the runs concatenate to the input and
    form a maximal segmentation. *)
Lemma get_shifts_runs (schedule : list Z) :
  concat (get_shifts schedule) = schedule
  ∧ maximal_runs (get_shifts schedule) = true.
Proof.
  split.
  - destruct schedule as [|first rest]; [done |].
    by apply get_shifts_loop_concat.
  - destruct schedule as [|first rest]; [done |].
    by apply get_shifts_loop_maximal.
Qed.

End Segmentation.

(** ** Loops over the employee list *)

Section Loops.

Lemma bind_return {A B} (m : Sim A) (k : A → Sim B) emps a emps' :
  m emps = (Return a, emps') → bind m k emps = k a emps'.
Proof. unfold bind. by intros ->. Qed.

Lemma bind_raised {A B} (m : Sim A) (k : A → Sim B) emps emps' :
  m emps = (Raised, emps') → bind m k emps = (Raised, emps').
Proof. unfold bind. by intros ->. Qed.

Lemma employee_at_lookup e emps emp :
  emps !! e = Some emp → employee_at e emps = (Return emp, emps).
Proof. unfold employee_at. by intros ->. Qed.

Lemma assign_schedule_lookup e s emps emp :
  emps !! e = Some emp →
  assign_schedule e s emps = (Return tt, <[e := set_schedule s emp]> emps).
Proof.
  intros H. unfold assign_schedule.
  by rewrite (bind_return _ _ _ _ _ (employee_at_lookup _ _ _ H)).
Qed.

Lemma assign_breaks_taken_lookup e b emps emp :
  emps !! e = Some emp →
  assign_breaks_taken e b emps = (Return tt, <[e := set_breaks_taken b emp]> emps).
Proof.
  intros H. unfold assign_breaks_taken.
  by rewrite (bind_return _ _ _ _ _ (employee_at_lookup _ _ _ H)).
Qed.

(** A loop over the indices whose body rewrites the employee it visits
    rewrites every employee. *)
Lemma for_each_rewrites (body : nat → Sim unit) (g : nat → Employee → Employee) :
  (∀ e emp emps, emps !! e = Some emp →
                 body e emps = (Return tt, <[e := g e emp]> emps)) →
  ∀ todo seen,
    for_each (seq (length seen) (length todo)) body (seen ++ todo)
    = (Return tt, seen ++ imap (λ j, g (length seen + j)%nat) todo).
Proof.
  intros Hbody. induction todo as [|emp todo IH]; intros seen; [by rewrite !app_nil_r |].
  cbn [length seq for_each].
  erewrite bind_return; last first.
  { rewrite (Hbody _ emp) by (by apply list_lookup_middle).
    by rewrite insert_app_r_alt, Nat.sub_diag by done. }
  cbn [insert list_insert].
  specialize (IH (seen ++ [g (length seen) emp])).
  rewrite length_app in IH. cbn [length] in IH.
  rewrite Nat.add_1_r, <- app_assoc in IH. cbn [app] in IH. rewrite IH.
  rewrite imap_cons, Nat.add_0_r, <- app_assoc. cbn [app]. do 3 f_equal.
  apply imap_ext. intros j x _. cbn. f_equal. lia.
Qed.

Lemma for_each_all (body : nat → Sim unit) (g : nat → Employee → Employee) emps :
  (∀ e emp emps, emps !! e = Some emp →
                 body e emps = (Return tt, <[e := g e emp]> emps)) →
  for_each (seq 0 (length emps)) body emps = (Return tt, imap g emps).
Proof. intros H. apply (for_each_rewrites body g H emps []). Qed.

End Loops.

(** ** Break insertion *)

Section Breaks.

Import WorkforceSimulator.

Lemma set_breaks_taken_twice b b' emp :
  set_breaks_taken b (set_breaks_taken b' emp) = set_breaks_taken b emp.
Proof. reflexivity. Qed.

Lemma set_breaks_taken_same emp : set_breaks_taken (breaks_taken emp) emp = emp.
Proof. by destruct emp. Qed.

Lemma middle_in_range (n : nat) : (6 ≤ n → n / 2 < n)%nat.
Proof. intros H. apply Nat.div_lt; lia. Qed.

(** One shift of the inner loop appends the contribution of that shift
    and never raises: the middle index is in range. *)
Lemma add_break_appends e shift emps emp :
  emps !! e = Some emp →
  add_break e shift emps
  = (Return tt, <[e := set_breaks_taken (breaks_taken emp ++ breaks_of_run shift) emp]> emps).
Proof.
  intros He. unfold add_break, breaks_of_run. case_decide as Hlen.
  - destruct (lookup_lt_is_Some_2 shift (length shift / 2)) as [mid Hmid];
      [by apply middle_in_range |].
    rewrite (list_lookup_total_correct _ _ _ Hmid).
    unfold item. rewrite Hmid. unfold append_break.
    erewrite !bind_return; [| by apply employee_at_lookup | done].
    by apply assign_breaks_taken_lookup.
  - unfold ret. by rewrite app_nil_r, set_breaks_taken_same, list_insert_id.
Qed.

Lemma add_break_loop e shifts emps emp :
  emps !! e = Some emp →
  for_each shifts (add_break e) emps
  = (Return tt,
     <[e := set_breaks_taken (breaks_taken emp ++ concat (breaks_of_run <$> shifts)) emp]> emps).
Proof.
  revert emps emp. induction shifts as [|shift shifts IH]; intros emps emp He.
  - cbn. unfold ret. by rewrite app_nil_r, set_breaks_taken_same, list_insert_id.
  - cbn [for_each]. erewrite bind_return; [| by apply add_break_appends].
    erewrite IH; last by (apply list_lookup_insert_eq; eapply lookup_lt_Some).
    rewrite list_insert_insert_eq, set_breaks_taken_twice. cbn.
    by rewrite app_assoc.
Qed.

(** The body of the outer loop replaces the employee's breaks by those of
    the current schedule. *)
Lemma add_breaks_body e emps emp :
  emps !! e = Some emp →
  (employee ⇐ employee_at e ;;
   let shifts := _get_shifts (schedule employee) in
   assign_breaks_taken e [] ;;; for_each shifts (add_break e)) emps
  = (Return tt, <[e := set_breaks_taken (breaks_of_schedule (schedule emp)) emp]> emps).
Proof.
  intros He.
  erewrite bind_return; [| by apply employee_at_lookup].
  cbn zeta. erewrite bind_return; [| by apply assign_breaks_taken_lookup].
  erewrite add_break_loop; last by (apply list_lookup_insert_eq; eapply lookup_lt_Some).
  by rewrite list_insert_insert_eq.
Qed.

(** [add_breaks] as a whole: it returns, and every employee's breaks
    become those of the employee's schedule. *)
Lemma add_breaks_run emps :
  add_breaks emps
  = (Return tt, (λ emp, set_breaks_taken (breaks_of_schedule (schedule emp)) emp) <$> emps).
Proof.
  unfold add_breaks, try_except.
  erewrite bind_return; [| reflexivity].
  rewrite (for_each_all _ (λ _ emp, set_breaks_taken (breaks_of_schedule (schedule emp)) emp));
    [f_equal; apply imap_const |].
  intros e emp emps' He. by apply add_breaks_body.
Qed.

Lemma add_breaks_after emps :
  employees_after add_breaks emps
  = (λ emp, set_breaks_taken (breaks_of_schedule (schedule emp)) emp) <$> emps.
Proof. unfold employees_after. by rewrite add_breaks_run. Qed.

Lemma breaks_of_run_sublist run : breaks_of_run run `sublist_of` run.
Proof.
  unfold breaks_of_run. case_decide as Hlen; [| apply sublist_nil_l].
  apply singleton_sublist_l, list_elem_of_lookup_total_2, middle_in_range, Hlen.
Qed.

Lemma breaks_of_runs_sublist (runs : list (list Z)) :
  concat (breaks_of_run <$> runs) `sublist_of` concat runs.
Proof.
  induction runs as [|run runs IH]; [done |].
  cbn. apply sublist_app; [apply breaks_of_run_sublist | done].
Qed.

(** The breaks of a schedule are picked from it, in order. *)
Lemma breaks_of_schedule_sublist (s : list Z) : breaks_of_schedule s `sublist_of` s.
Proof.
  unfold breaks_of_schedule.
  rewrite <- (proj1 (get_shifts_runs s)) at 2.
  rewrite _get_shifts_eq. apply breaks_of_runs_sublist.
Qed.

Lemma filter_all {A} (P : A → Prop) `{!∀ x, Decision (P x)} (l : list A) :
  Forall P l → filter P l = l.
Proof.
  induction 1 as [|x l Hx _ IH]; [done |].
  by rewrite filter_cons_True, IH.
Qed.

Lemma filter_none {A} (P : A → Prop) `{!∀ x, Decision (P x)} (l : list A) :
  Forall (λ x, ¬ P x) l → filter P l = [].
Proof.
  induction 1 as [|x l Hx _ IH]; [done |].
  by rewrite filter_cons_False.
Qed.

Lemma elem_of_concat {A} (x : A) (l : list A) (ls : list (list A)) :
  x ∈ l → l ∈ ls → x ∈ concat ls.
Proof.
  intros Hx. induction ls as [|l' ls IH]; [by intros ?%not_elem_of_nil |].
  intros [-> | Hl]%elem_of_cons; cbn; apply elem_of_app; auto.
Qed.

(** In a list of pairwise disjoint runs, the breaks that fall inside a
    run are exactly that run's own. *)
Lemma breaks_within_own (runs : list (list Z)) :
  NoDup (concat runs) →
  Forall (λ run, breaks_within run (concat (breaks_of_run <$> runs)) = breaks_of_run run) runs.
Proof.
  induction runs as [|r runs IH]; [constructor |].
  cbn [concat]. intros (Hr & Hdisj & Hruns)%NoDup_app.
  unfold breaks_within in *. cbn [fmap list_fmap concat]. constructor.
  - rewrite filter_app.
    rewrite (filter_all _ (breaks_of_run r)); last first.
    { apply Forall_forall. intros b Hb.
      eapply elem_of_sublist; [exact Hb | apply breaks_of_run_sublist]. }
    rewrite (filter_none _ (concat (breaks_of_run <$> runs)));
      [by rewrite app_nil_r |].
    apply Forall_forall. intros b Hb Hin. apply (Hdisj b Hin).
    eapply elem_of_sublist; [exact Hb | apply breaks_of_runs_sublist].
  - specialize (IH Hruns). rewrite Forall_forall in IH |- *. intros run Hrun.
    rewrite filter_app, (IH run Hrun).
    rewrite (filter_none _ (breaks_of_run r)); [done |].
    apply Forall_forall. intros b Hb Hin. apply (Hdisj b).
    + eapply elem_of_sublist; [exact Hb | apply breaks_of_run_sublist].
    + by eapply elem_of_concat.
Qed.

End Breaks.

(** ** The fallback scheduler *)

Section Fallback.

Import WorkforceSimulator.

Lemma foldl_snoc_each {A B} (f : B → A) (l : list B) (acc : list A) :
  foldl (λ acc x, acc ++ [f x]) acc l = acc ++ (f <$> l).
Proof.
  revert acc. induction l as [|x l IH]; intros acc; cbn.
  - by rewrite app_nil_r.
  - by rewrite IH, <- app_assoc.
Qed.

Lemma fallback_hours_eq day shift_start shift_end sched :
  fallback_hours day shift_start shift_end sched
  = sched ++ ((λ hour, day * 24 + hour) <$> range shift_start shift_end).
Proof. apply foldl_snoc_each. Qed.

Lemma fallback_days_loop (s t : Z) (days : list Z) (acc : list Z) :
  foldl (λ sched day,
           if decide (day `mod` 2 = 0) then fallback_hours day s t sched else sched)
        acc days
  = acc ++ concat ((λ day, (λ hour, day * 24 + hour) <$> range s t)
                     <$> filter (λ day, day `mod` 2 = 0) days).
Proof.
  revert acc. induction days as [|day days IH]; intros acc; cbn [foldl].
  - by rewrite app_nil_r.
  - rewrite IH, filter_cons. case_decide; [| done].
    rewrite fallback_hours_eq. cbn. by rewrite <- app_assoc.
Qed.

Lemma template_cases (e : nat) :
  shifts !! (e `mod` 3)%nat = Some (template e)
  ∧ (template e = (0, 8) ∨ template e = (8, 16) ∨ template e = (16, 24)).
Proof.
  unfold template. pose proof (Nat.mod_upper_bound e 3 ltac:(lia)) as Hlt.
  destruct (e `mod` 3)%nat as [|[|[|k]]]; [| | | lia]; cbn; auto.
Qed.

(** The loops of the source compute the schedule that section 4.3
    describes. *)
Lemma fallback_days_template (e : nat) (horizon_days : Z) :
  fallback_days horizon_days (fst (template e)) (snd (template e))
  = fallback_schedule e horizon_days.
Proof. unfold fallback_days, fallback_schedule. by rewrite fallback_days_loop. Qed.

Lemma fallback_body e horizon_days emps emp :
  emps !! e = Some emp →
  (shift ⇐ item shifts (e `mod` length shifts)%nat ;;
   assign_schedule e (fallback_days horizon_days (fst shift) (snd shift))) emps
  = (Return tt, <[e := set_schedule (fallback_schedule e horizon_days) emp]> emps).
Proof.
  intros He. change (length shifts) with 3%nat.
  destruct (template_cases e) as [Hshift _].
  erewrite bind_return; [| unfold item; by rewrite Hshift].
  rewrite fallback_days_template. by apply assign_schedule_lookup.
Qed.

(** The fallback never raises and gives every employee the schedule of
    the employee's index. *)
Lemma fallback_run horizon_days emps :
  _generate_fallback_schedule horizon_days emps
  = (Return tt, imap (λ e, set_schedule (fallback_schedule e horizon_days)) emps).
Proof.
  unfold _generate_fallback_schedule.
  erewrite bind_return; [| reflexivity].
  apply (for_each_all _ (λ e, set_schedule (fallback_schedule e horizon_days))).
  intros e emp emps' He. by apply fallback_body.
Qed.

End Fallback.

(** ** The optimisation orchestrator *)

Section Orchestrator.

Import WorkforceSimulator.

(** Assigning a schedule forgets the previous one. *)
Lemma set_schedule_twice s s' emp :
  set_schedule s (set_schedule s' emp) = set_schedule s emp.
Proof. reflexivity. Qed.

Lemma imap_set_schedule_forgets (f g : nat → list Z) (emps : list Employee) :
  imap (λ e, set_schedule (f e)) (imap (λ e, set_schedule (g e)) emps)
  = imap (λ e, set_schedule (f e)) emps.
Proof.
  revert f g. induction emps as [|emp emps IH]; intros f g; [done |].
  rewrite !imap_cons. f_equal. apply (IH (f ∘ S) (g ∘ S)).
Qed.

(** The inner loop of the extraction: it raises exactly when a variable
    of the row holds no value, and otherwise appends the selected
    periods in order. *)
Lemma extract_periods_run x e periods acc :
  extract_periods x e periods acc
  = if forallb (λ p, bool_decide (is_Some (x e p))) periods
    then Return (acc ++ filter (λ p, selected x e p = true) periods)
    else Raised.
Proof.
  revert acc. induction periods as [|p periods IH]; intros acc; cbn [extract_periods forallb].
  - by rewrite app_nil_r.
  - rewrite filter_cons. destruct (x e p) as [v|] eqn:Hv.
    + assert (selected x e p = above_half v) as Hsel
        by (unfold selected; by rewrite Hv).
      rewrite bool_decide_eq_true_2 by eauto. cbn [andb]. rewrite IH.
      destruct (forallb _ periods); [| done].
      case_decide as Hd; rewrite Hsel in Hd.
      * by rewrite Hd, <- app_assoc.
      * by destruct (above_half v).
    + rewrite bool_decide_eq_false_2; [done |]. by intros [? ?].
Qed.

(** A loop over the indices whose body either rewrites the employee it
    visits or raises before touching the list: it stops at the first
    index that raises, with the employees before it rewritten. *)
Lemma for_each_until (body : nat → Sim unit) (g : nat → Employee → Employee)
      (passes : nat → bool) :
  (∀ e emp emps, emps !! e = Some emp →
                 body e emps = if passes e then (Return tt, <[e := g e emp]> emps)
                               else (Raised, emps)) →
  ∀ todo seen, ∃ k,
    for_each (seq (length seen) (length todo)) body (seen ++ todo)
    = (if forallb passes (seq (length seen) (length todo)) then Return tt else Raised,
       seen ++ imap (λ j, g (length seen + j)%nat) (take k todo) ++ drop k todo)
    ∧ (forallb passes (seq (length seen) (length todo)) = true → k = length todo).
Proof.
  intros Hbody. induction todo as [|emp todo IH]; intros seen.
  - exists 0%nat. by rewrite !app_nil_r.
  - cbn [length seq for_each forallb].
    pose proof (Hbody (length seen) emp (seen ++ emp :: todo)
                      (list_lookup_middle _ _ _ _ eq_refl)) as Hstep.
    destruct (passes (length seen)) eqn:Hpass.
    + rewrite insert_app_r_alt, Nat.sub_diag in Hstep by done.
      cbn [insert list_insert] in Hstep.
      destruct (IH (seen ++ [g (length seen) emp])) as (k & Hrun & Hk).
      rewrite length_app in Hrun, Hk. cbn [length] in Hrun, Hk.
      rewrite Nat.add_1_r, <- app_assoc in Hrun. cbn [app] in Hrun.
      rewrite Nat.add_1_r in Hk.
      exists (S k). split; [| by intros ->%Hk].
      erewrite bind_return by exact Hstep. rewrite Hrun. cbn [andb take drop].
      rewrite imap_cons, Nat.add_0_r, <- !app_assoc. cbn [app]. do 4 f_equal.
      apply imap_ext. intros j y _. cbn. f_equal. lia.
    + exists 0%nat. split; [| done].
      erewrite bind_raised by exact Hstep. done.
Qed.

(** The body of the extraction loop. *)
Lemma extract_body (results : SolverResults) periods e emps emp :
  emps !! e = Some emp →
  (sched ⇐ lift (extract_periods (working results) e periods []) ;;
   assign_schedule e sched) emps
  = if forallb (λ p, bool_decide (is_Some (working results e p))) periods
    then (Return tt,
          <[e := set_schedule (filter (λ p, selected (working results) e p = true) periods) emp]> emps)
    else (Raised, emps).
Proof.
  intros He. unfold bind at 1, lift. rewrite extract_periods_run.
  destruct (forallb _ periods); [| done]. cbn [app]. by apply assign_schedule_lookup.
Qed.

(** [generate_schedule] as a whole: it returns, and the schedules are
    the extracted ones when the backend is optimal and every variable
    holds a value, and the fallback's otherwise. *)
Lemma generate_schedule_run (solver : Solver) (horizon_days : Z) (emps : list Employee) :
  generate_schedule solver horizon_days emps
  = (Return tt,
     imap (λ e, set_schedule
                  match backend_optimal solver (length emps) horizon_days with
                  | Some results => extracted_schedule results e horizon_days
                  | None => fallback_schedule e horizon_days
                  end) emps).
Proof.
  unfold generate_schedule, try_except, backend_optimal.
  erewrite (bind_return count_employees) by reflexivity. cbn zeta.
  unfold bind at 1, lift.
  destruct (solver (build_model (length emps) horizon_days)) as [results|];
    [| apply fallback_run].
  destruct (bool_decide (status results = ok)
            && bool_decide (termination_condition results = optimal)) eqn:Hopt;
    cbn [andb]; [| by rewrite fallback_run].
  destruct (for_each_until
              (λ e, sched ⇐ lift (extract_periods (working results) e
                                    (PERIODS (build_model (length emps) horizon_days)) []) ;;
                    assign_schedule e sched)
              (λ e, set_schedule (extracted_schedule results e horizon_days))
              (λ e, forallb (λ p, bool_decide (is_Some (working results e p)))
                            (PERIODS (build_model (length emps) horizon_days)))
              ltac:(intros e emp emps' He; by apply extract_body) emps [])
    as (k & Hrun & Hk).
  cbn [length app] in Hrun, Hk. cbn [EMPLOYEES build_model] in *.
  unfold lift in Hrun. rewrite Hrun.
  destruct (forallb _ (seq 0 (length emps))).
  - rewrite (Hk eq_refl), firstn_all, skipn_all, app_nil_r. done.
  - rewrite fallback_run.
    rewrite <- (take_drop k emps) at 3.
    rewrite !imap_app, imap_set_schedule_forgets. f_equal.
    rewrite length_imap. done.
Qed.

Lemma generate_schedule_after solver horizon_days emps :
  employees_after (generate_schedule solver horizon_days) emps
  = imap (λ e, set_schedule
                 match backend_optimal solver (length emps) horizon_days with
                 | Some results => extracted_schedule results e horizon_days
                 | None => fallback_schedule e horizon_days
                 end) emps.
Proof. unfold employees_after. by rewrite generate_schedule_run. Qed.

Lemma schedules_after_imap (f : nat → list Z) (emps : list Employee) :
  schedule <$> imap (λ e, set_schedule (f e)) emps = f <$> indices emps.
Proof.
  unfold indices. rewrite fmap_imap. rewrite <- (imap_seq_0 emps f).
  apply imap_ext. done.
Qed.

End Orchestrator.

(** ** Sorted schedules inside the horizon *)

Section Schedules.

Import WorkforceSimulator.

Lemma strictly_increasing_cons (x y : Z) (l : list Z) :
  strictly_increasing (x :: y :: l)
  = bool_decide (x < y) && strictly_increasing (y :: l).
Proof. reflexivity. Qed.

(** [strictly_increasing] says what it should. *)
Lemma strictly_increasing_sorted (l : list Z) :
  strictly_increasing l = true ↔ StronglySorted Z.lt l.
Proof.
  induction l as [|x [|y l] IH].
  - split; [constructor | done].
  - split; [repeat constructor | done].
  - rewrite strictly_increasing_cons, andb_true_iff, bool_decide_eq_true, IH.
    rewrite (StronglySorted_cons _ (y :: l) x). split.
    + intros [Hxy Hs]. split; [| done].
      apply StronglySorted_cons in Hs as [Hy _].
      constructor; [done |]. eapply Forall_impl; [exact Hy |]. intros; cbn in *; lia.
    + intros [Hx Hs]. split; [| done]. by inversion Hx.
Qed.

Lemma StronglySorted_seqZ (a n : Z) : StronglySorted Z.lt (seqZ a n).
Proof.
  destruct (decide (n ≤ 0)) as [?|Hn]; [rewrite seqZ_nil by done; constructor |].
  rewrite <- (Z2Nat.id n) by lia. generalize (Z.to_nat n) as k. clear. intros k.
  revert a. induction k as [|k IH]; intros a; [constructor |].
  rewrite seqZ_cons by lia. constructor.
  - replace (Z.pred (Z.of_nat (S k))) with (Z.of_nat k) by lia. apply IH.
  - apply Forall_seqZ. lia.
Qed.

Lemma StronglySorted_sublist {A} (R : relation A) (l1 l2 : list A) :
  l1 `sublist_of` l2 → StronglySorted R l2 → StronglySorted R l1.
Proof.
  induction 1 as [|x l1 l2 Hsub IH|x l1 l2 Hsub IH]; [done | |].
  - intros [Hx Hs]%StronglySorted_cons. apply StronglySorted_cons. split; [| auto].
    rewrite Forall_forall in Hx |- *. intros y Hy. apply Hx.
    by eapply elem_of_sublist.
  - intros [_ Hs]%StronglySorted_cons. auto.
Qed.

(** Any selection of the periods of the horizon, taken in order, is
    strictly increasing and inside the horizon. *)
Lemma filter_range_sorted (P : Z → Prop) `{!∀ p, Decision (P p)} (horizon_days : Z) :
  strictly_increasing (filter P (range 0 (24 * horizon_days))) = true
  ∧ within_horizon horizon_days (filter P (range 0 (24 * horizon_days))) = true.
Proof.
  split.
  - apply strictly_increasing_sorted.
    eapply StronglySorted_sublist; [apply sublist_filter | apply StronglySorted_seqZ].
  - unfold within_horizon. apply forallb_forall. intros p Hp.
    apply list_elem_of_In, list_elem_of_filter in Hp as [_ Hp].
    apply elem_of_seqZ in Hp. apply bool_decide_eq_true. lia.
Qed.

Lemma filter_ext_in {A} (P Q : A → Prop) `{!∀ x, Decision (P x)} `{!∀ x, Decision (Q x)}
      (l : list A) :
  (∀ x, x ∈ l → P x ↔ Q x) → filter P l = filter Q l.
Proof.
  induction l as [|x l IH]; intros Hiff; [done |].
  rewrite !filter_cons, IH by (intros; apply Hiff; by right).
  pose proof (Hiff x ltac:(by left)). repeat case_decide; tauto || done.
Qed.

Lemma filter_fmap {A B} (f : A → B) (P : B → Prop) `{!∀ y, Decision (P y)} (l : list A) :
  filter P (f <$> l) = f <$> filter (λ x, P (f x)) l.
Proof.
  induction l as [|x l IH]; [done |].
  cbn [fmap list_fmap]. rewrite !filter_cons, IH. by case_decide.
Qed.

(** The selected periods of one day. *)
Lemma on_template_day (e : nat) (day : Z) :
  filter (on_template e) (seqZ (24 * day) 24)
  = if decide (day `mod` 2 = 0)
    then (λ hour, day * 24 + hour) <$> range (fst (template e)) (snd (template e))
    else [].
Proof.
  replace (24 * day) with (24 * day + 0) by lia.
  rewrite <- fmap_add_seqZ, filter_fmap.
  case_decide as Heven.
  - rewrite (filter_ext_in _ (λ hour, fst (template e) ≤ hour < snd (template e))); last first.
    { intros hour [? ?]%elem_of_seqZ. unfold on_template. cbn.
      replace ((24 * day + hour) `div` 24) with day
        by (apply (Z.div_unique _ 24 day hour); lia).
      replace ((24 * day + hour) `mod` 24) with hour
        by (apply (Z.mod_unique _ 24 day hour); lia).
      tauto. }
    destruct (template_cases e) as [_ [-> | [-> | ->]]]; cbn [fst snd];
      (etrans; [| apply list_fmap_ext; intros ? hour _; cbn; instantiate (1 := Z.add (24 * day)); lia]);
      f_equal.
  - rewrite filter_none; [done |].
    apply Forall_forall. intros hour [? ?]%elem_of_seqZ. unfold on_template.
    replace ((24 * day + hour) `div` 24) with day
      by (apply (Z.div_unique _ 24 day hour); lia).
    tauto.
Qed.

Lemma range_0 (stop : Z) : range 0 stop = seqZ 0 stop.
Proof. unfold range. by rewrite Z.sub_0_r. Qed.

(** The fallback schedule is a selection of the periods of the horizon,
    taken in order. *)
Lemma fallback_schedule_filter (e : nat) (horizon_days : Z) :
  fallback_schedule e horizon_days
  = filter (on_template e) (range 0 (24 * horizon_days)).
Proof.
  unfold fallback_schedule. rewrite !range_0.
  destruct (decide (horizon_days ≤ 0)) as [?|Hpos];
    [by rewrite (seqZ_nil 0 horizon_days), (seqZ_nil 0 (24 * horizon_days)) by lia |].
  rewrite <- (Z2Nat.id horizon_days) by lia.
  generalize (Z.to_nat horizon_days) as n. clear. intros n.
  induction n as [|n IH]; [done |].
  rewrite seqZ_S, filter_app, fmap_app, concat_app, IH.
  replace (24 * Z.of_nat (S n)) with (24 * Z.of_nat n + 24) by lia.
  rewrite seqZ_app, filter_app by lia. f_equal.
  rewrite !Z.add_0_l, on_template_day, filter_cons, filter_nil.
  case_decide; cbn; [by rewrite app_nil_r | done].
Qed.

End Schedules.

(** ** The daily cap *)

Section DailyCap.

Import WorkforceSimulator.

(** A strictly increasing list of integers inside an interval of [n]
    integers has at most [n] elements. *)
Lemma sorted_interval_length (l : list Z) (a n : Z) :
  StronglySorted Z.lt l → Forall (λ p, a ≤ p < a + n) l →
  (length l ≤ Z.to_nat n)%nat.
Proof.
  revert a n. induction l as [|x l IH]; intros a n Hs Hin; [cbn; lia |].
  apply StronglySorted_cons in Hs as [Hx Hs].
  apply Forall_cons in Hin as [Hxa Hin].
  specialize (IH (x + 1) (a + n - x - 1) Hs). cbn [length].
  assert (length l ≤ Z.to_nat (a + n - x - 1))%nat; [| lia].
  apply IH. rewrite Forall_forall in Hx, Hin |- *.
  intros p Hp. specialize (Hx p Hp). specialize (Hin p Hp). cbn in Hx. lia.
Qed.

Lemma periods_on_day_filter (P : Z → Prop) `{!∀ p, Decision (P p)} (d : Z) (l : list Z) :
  periods_on_day d (filter P l) = filter P (periods_on_day d l).
Proof.
  unfold periods_on_day. induction l as [|p l IH]; [done |].
  rewrite !filter_cons. repeat case_decide; rewrite ?filter_cons; repeat case_decide;
    try done; by rewrite IH.
Qed.

Lemma periods_on_day_sublist (d : Z) (l : list Z) : periods_on_day d l `sublist_of` l.
Proof. apply sublist_filter. Qed.

(** On the fallback path an employee works at most the eight hours of
    the template on any day. *)
Lemma fallback_daily_cap (e : nat) (horizon_days d : Z) :
  (length (periods_on_day d (fallback_schedule e horizon_days)) ≤ 8)%nat.
Proof.
  rewrite fallback_schedule_filter.
  change 8%nat with (Z.to_nat 8).
  apply (sorted_interval_length _ (d * 24 + fst (template e))).
  - eapply StronglySorted_sublist; [apply periods_on_day_sublist |].
    eapply StronglySorted_sublist; [apply sublist_filter | apply StronglySorted_seqZ].
  - apply Forall_forall. intros p [Hday [[_ Hp] _]%list_elem_of_filter]%list_elem_of_filter.
    assert (snd (template e) = fst (template e) + 8) as Hlen
      by (destruct (template_cases e) as [_ [-> | [-> | ->]]]; done).
    rewrite Hlen in Hp. clear Hlen.
    generalize dependent (fst (template e)). intros s Hp.
    pose proof (Z.div_mod p 24 ltac:(lia)). pose proof (Z.mod_pos_bound p 24 ltac:(lia)).
    lia.
Qed.

(** The periods of the horizon that fall on day [d]. *)
Lemma periods_on_day_range (d horizon_days : Z) :
  periods_on_day d (range 0 (24 * horizon_days))
  = if decide (0 ≤ d < horizon_days) then range (d * 24) (d * 24 + 24) else [].
Proof.
  unfold periods_on_day. rewrite range_0. case_decide as Hd.
  - replace (24 * horizon_days)
      with (d * 24 + (24 + (24 * horizon_days - d * 24 - 24))) by lia.
    rewrite seqZ_app, (seqZ_app _ 24), !filter_app by lia.
    rewrite (filter_none _ (seqZ 0 _)), (filter_all _ (seqZ _ 24)), filter_none.
    + unfold range. rewrite app_nil_r. cbn [app]. f_equal; lia.
    + apply Forall_seqZ. lia.
    + apply Forall_seqZ. lia.
    + apply Forall_seqZ. lia.
  - apply filter_none, Forall_seqZ. lia.
Qed.

(** With binary values the sum of a row is the number of selected
    periods. *)
Lemma sum_values_counts (x : nat → Z → option Q) (e : nat) (periods : list Z) (a : Q) :
  forallb (λ p, is_binary (x e p)) periods = true →
  ∃ total,
    foldl (λ acc ov, match acc, ov with
                     | Some a, Some v => Some (a + v)%Q
                     | _, _ => None
                     end) (Some a) (x e <$> periods) = Some total
    ∧ (total == a + inject_Z (Z.of_nat (length (filter (λ p, selected x e p = true) periods))))%Q.
Proof.
  revert a. induction periods as [|p periods IH]; intros a Hbin.
  - exists a. split; [done |]. symmetry. apply Qplus_0_r.
  - cbn [forallb] in Hbin. apply andb_true_iff in Hbin as [Hp Hbin].
    cbn [fmap list_fmap foldl]. rewrite filter_cons.
    destruct (x e p) as [v|] eqn:Hv; [| done]. cbn [is_binary] in Hp.
    assert (selected x e p = above_half v) as Hsel
      by (unfold selected; by rewrite Hv).
    destruct (IH (a + v)%Q Hbin) as (total & Hrun & Htotal).
    exists total. split; [done |]. rewrite Htotal.
    apply orb_true_iff in Hp as [H0%Qeq_bool_eq | H1%Qeq_bool_eq].
    + assert (above_half v = false) as Hh.
      { unfold above_half. apply negb_false_iff, Qle_bool_iff. rewrite H0. done. }
      case_decide as Hd; [congruence |]. rewrite H0. lra.
    + assert (above_half v = true) as Hh.
      { unfold above_half. apply negb_true_iff. apply not_true_iff_false.
        rewrite Qle_bool_iff, H1. intros Hle. by compute in Hle. }
      case_decide as Hd; [| congruence]. cbn [length].
      rewrite Nat2Z.inj_succ, <- Z.add_1_r, inject_Z_plus, H1.
      change (inject_Z 1) with 1%Q. lra.
Qed.

(** On the backend-optimal path the daily constraints of the model bound
    the extracted periods of every day. *)
Lemma extracted_daily_cap (results : SolverResults) (n : nat) (e : nat) (horizon_days d : Z) :
  daily_hours (build_model n horizon_days) (working results) = true →
  (e < n)%nat →
  (length (periods_on_day d (extracted_schedule results e horizon_days)) ≤ 8)%nat.
Proof.
  intros Hmodel He. unfold extracted_schedule.
  rewrite periods_on_day_filter, periods_on_day_range.
  case_decide as Hd; [| cbn; lia].
  unfold daily_hours in Hmodel. rewrite forallb_forall in Hmodel.
  specialize (Hmodel e). cbn [EMPLOYEES PERIODS DAYS build_model] in Hmodel.
  destruct (andb_prop _ _ (Hmodel ltac:(apply in_seq; lia))) as [Hbin Hrule].
  rewrite forallb_forall in Hbin, Hrule.
  specialize (Hrule d ltac:(apply list_elem_of_In, elem_of_seqZ; lia)).
  unfold daily_hours_rule, sum_values in Hrule. cbn zeta in Hrule.
  destruct (sum_values_counts (working results) e (range (d * 24) (d * 24 + 24)) 0)
    as (total & Hsum & Htotal).
  { apply forallb_forall. intros p Hp. apply Hbin.
    apply list_elem_of_In, elem_of_seqZ in Hp.
    apply list_elem_of_In, elem_of_seqZ. lia. }
  rewrite Hsum in Hrule. apply Qle_bool_imp_le in Hrule.
  rewrite Htotal, Qplus_0_l in Hrule.
  change 8%Q with (inject_Z 8) in Hrule. rewrite <- Zle_Qle in Hrule. lia.
Qed.

End DailyCap.

(** ** Runs of the fallback schedule *)

Section FallbackRuns.

Import WorkforceSimulator.

Lemma maximal_runs_contiguous (runs : list (list Z)) (run : list Z) :
  maximal_runs runs = true → run ∈ runs → contiguous run = true.
Proof.
  unfold maximal_runs. intros [[_ Hc]%andb_true_iff _]%andb_true_iff Hrun.
  rewrite forallb_forall in Hc. by apply Hc, list_elem_of_In.
Qed.

Lemma _get_shifts_run (s run : list Z) :
  run ∈ _get_shifts s → contiguous run = true ∧ ∀ p, p ∈ run → p ∈ s.
Proof.
  rewrite _get_shifts_eq. intros Hrun.
  destruct (get_shifts_runs s) as (Hconcat & Hmax). split.
  - by eapply maximal_runs_contiguous.
  - intros p Hp. rewrite <- Hconcat. by eapply elem_of_concat.
Qed.

(** In a contiguous run the element at offset [i] is the first element
    plus [i]. *)
Lemma contiguous_offset (a : Z) (run : list Z) (i : nat) (y : Z) :
  contiguous (a :: run) = true → (a :: run) !! i = Some y → y = a + Z.of_nat i.
Proof.
  intros Hc. revert y. induction i as [|i IH]; intros y Hy.
  - cbn in Hy. simplify_eq. lia.
  - destruct (lookup_lt_is_Some_2 (a :: run) i) as [x Hx].
    { apply lookup_lt_Some in Hy. lia. }
    rewrite (proj1 (contiguous_lookup _) Hc i x y Hx Hy), (IH x Hx). lia.
Qed.

(** A contiguous run that stays on a template has at most eight
    periods: the hour after the template's last one is off it. *)
Lemma on_template_run_short (e : nat) (run : list Z) :
  contiguous run = true → Forall (on_template e) run → (length run ≤ 8)%nat.
Proof.
  intros Hc Hon. destruct run as [|a run]; [cbn; lia |].
  destruct (decide (length (a :: run) ≤ 8)%nat) as [|Hlong]; [done | exfalso].
  pose proof (Forall_inv Hon) as [_ Ha].
  assert (snd (template e) = fst (template e) + 8 ∧ 0 ≤ fst (template e)
          ∧ (snd (template e) = 24 ∨ snd (template e) < 24)) as (Hlen & Hs & Ht)
    by (destruct (template_cases e) as [_ [-> | [-> | ->]]]; cbn; lia).
  set (i := Z.to_nat (snd (template e) - a `mod` 24)).
  destruct (lookup_lt_is_Some_2 (a :: run) i) as [y Hy]; [lia |].
  pose proof (contiguous_offset a run i y Hc Hy) as ->.
  rewrite Forall_forall in Hon.
  destruct (Hon _ (list_elem_of_lookup_2 _ _ _ Hy)) as [_ Hy'].
  revert Hy'. unfold i. rewrite Z2Nat.id by lia. clear -Ha.
  destruct (template_cases e) as [_ [Ht | [Ht | Ht]]]; rewrite Ht in *;
    cbn [fst snd] in *; intros ?; Z.div_mod_to_equations; lia.
Qed.

(** On the fallback path no contiguous run is longer than eight
    periods. *)
Lemma fallback_runs_short (e : nat) (horizon_days : Z) :
  Forall (λ run, (length run ≤ 8)%nat) (_get_shifts (fallback_schedule e horizon_days)).
Proof.
  apply Forall_forall. intros run Hrun.
  apply _get_shifts_run in Hrun as [Hc Hin].
  apply (on_template_run_short e); [done |].
  apply Forall_forall. intros p Hp%Hin.
  rewrite fallback_schedule_filter in Hp. by apply list_elem_of_filter in Hp as [? _].
Qed.

(** Properties of every employee after a loop that assigns schedules. *)
Lemma Forall_imap_set_schedule (P : Employee → Prop) (f : nat → list Z) (emps : list Employee) :
  (∀ e emp, (e < length emps)%nat → P (set_schedule (f e) emp)) →
  Forall P (imap (λ e, set_schedule (f e)) emps).
Proof.
  intros H. apply Forall_lookup. intros e emp' Hlook.
  rewrite list_lookup_imap in Hlook.
  destruct (emps !! e) as [emp|] eqn:He; [| done]. cbn in Hlook. simplify_eq.
  apply H. by eapply lookup_lt_Some.
Qed.

End FallbackRuns.

(** * The specification's claims *)

Section SegmenterClaims.

Import Helpers WorkforceSimulator.

Example get_shifts_example :
  get_shifts [1; 2; 3; 7; 8; 12] = [[1; 2; 3]; [7; 8]; [12]].
Proof. reflexivity. Qed.

Example get_shifts_unsorted_example :
  get_shifts [5; 6; 2; 3; 4; 4] = [[5; 6]; [2; 3; 4]; [4]].
Proof. reflexivity. Qed.

(** C1. For every input sequence (sorted or not), both copies of the
    segmenter return runs whose concatenation, in order, is the input;
    no run is empty, every run is contiguous (each element is its
    predecessor plus one), no two neighbouring runs can be merged into
    one contiguous run, and the empty input gives the empty list of
    runs. *)
Theorem get_shifts_segments (schedule : list Z) :
  concat (get_shifts schedule) = schedule
  ∧ maximal_runs (get_shifts schedule) = true
  ∧ get_shifts [] = []
  ∧ _get_shifts schedule = get_shifts schedule.
Proof.
  destruct (get_shifts_runs schedule) as [Hconcat Hmax].
  split_and!; [done | done | done | apply _get_shifts_eq].
Qed.

End SegmenterClaims.

Section BreakClaims.

Import WorkforceSimulator.

Example add_breaks_example :
  breaks_taken
    <$> employees_after add_breaks
          [set_schedule [0; 1; 2; 3; 4; 5; 6; 10; 11; 12; 13; 14; 20; 21; 22; 23; 24; 25]
                        (new_employee 0 [])]
  = [[3; 23]].
Proof. reflexivity. Qed.

Lemma add_breaks_returns (emps : list Employee) : returns add_breaks emps = true.
Proof. unfold returns. by rewrite add_breaks_run. Qed.

Lemma breaks_of_run_cases (run : list Z) :
  if decide (6 ≤ length run)%nat
  then ∃ b, run !! (length run / 2)%nat = Some b ∧ breaks_of_run run = [b]
  else breaks_of_run run = [].
Proof.
  unfold breaks_of_run. case_decide as Hlen; [| done].
  destruct (lookup_lt_is_Some_2 run (length run / 2)) as [b Hb];
    [by apply middle_in_range |].
  exists b. by rewrite (list_lookup_total_correct _ _ _ Hb).
Qed.

(** What [add_breaks] leaves in every employee, run by run. *)
Lemma add_breaks_per_run (emps : list Employee) :
  Forall (λ emp,
      breaks_taken emp = concat (breaks_of_run <$> _get_shifts (schedule emp))
      ∧ Forall (λ run,
          (if decide (6 ≤ length run)%nat
           then ∃ b, run !! (length run / 2)%nat = Some b ∧ breaks_of_run run = [b]
           else breaks_of_run run = [])
          ∧ (NoDup (schedule emp) →
             breaks_within run (breaks_taken emp) = breaks_of_run run))
        (_get_shifts (schedule emp)))
    (employees_after add_breaks emps).
Proof.
  rewrite add_breaks_after. apply Forall_fmap, Forall_forall. intros emp _.
  cbn. split; [done |].
  apply Forall_forall. intros run Hrun. split; [apply breaks_of_run_cases |].
  intros Hnodup. revert run Hrun. apply Forall_forall.
  unfold breaks_of_schedule. apply breaks_within_own.
  rewrite _get_shifts_eq. by rewrite (proj1 (get_shifts_runs _)).
Qed.

(** C2. [add_breaks] returns, and it leaves the employees it was given,
    in their order, each with nothing changed but the breaks.  The
    breaks recorded for an employee are the contributions of the runs
    of that employee's schedule, run after run: a run of length
    [L >= 6] contributes exactly the one break [run[L // 2]] and a
    shorter run contributes none.  When the schedule has no repeated
    period, the recorded breaks that fall inside a run of length
    [L >= 6] are exactly the one break [run[L // 2]], and no recorded
    break falls inside a shorter run. *)
Theorem add_breaks_one_break_per_long_run (emps : list Employee) :
  returns add_breaks emps = true
  ∧ Forall2 (λ emp emp',
      emp' = set_breaks_taken (breaks_taken emp') emp
      ∧ (∃ contributions,
           breaks_taken emp' = concat contributions
           ∧ Forall2 (λ run contribution,
                 if decide (6 ≤ length run)%nat
                 then ∃ b, run !! (length run / 2)%nat = Some b ∧ contribution = [b]
                 else contribution = [])
               (_get_shifts (schedule emp)) contributions)
      ∧ (NoDup (schedule emp) →
         Forall (λ run,
             if decide (6 ≤ length run)%nat
             then ∃ b, run !! (length run / 2)%nat = Some b
                       ∧ breaks_within run (breaks_taken emp') = [b]
             else breaks_within run (breaks_taken emp') = [])
           (_get_shifts (schedule emp))))
    emps (employees_after add_breaks emps).
Proof.
  split; [apply add_breaks_returns |].
  rewrite add_breaks_after.
  apply Forall2_fmap_r, Forall_Forall2_diag, Forall_forall. intros emp _.
  cbn. split_and!; [done | |].
  - exists (breaks_of_run <$> _get_shifts (schedule emp)). split; [done |].
    apply Forall2_fmap_r, Forall_Forall2_diag, Forall_forall. intros run _.
    apply breaks_of_run_cases.
  - intros Hnodup. unfold breaks_of_schedule.
    eapply Forall_impl.
    + apply breaks_within_own.
      rewrite _get_shifts_eq. by rewrite (proj1 (get_shifts_runs _)).
    + intros run Hwithin. cbn beta in Hwithin.
      change (filter (λ b, b ∈ run) ?l) with (breaks_within run l).
      rewrite Hwithin. apply breaks_of_run_cases.
Qed.

(** C3, as stated, fails: on the run 0..5 (even length 6) the recorded
    break is period 3, at index 3, not the element at the lower-middle
    index 6/2 - 1 = 2. *)
Lemma lower_middle_break_refuted :
  ¬ (∀ (e : nat) (emp : Employee) (run : list Z) (b : Z),
       employees_after add_breaks [six_period_employee] !! e = Some emp →
       run ∈ _get_shifts (schedule emp) →
       Nat.even (length run) = true → (6 ≤ length run)%nat →
       breaks_within run (breaks_taken emp) = [b] →
       run !! (length run / 2 - 1)%nat = Some b).
Proof.
  intros H.
  specialize (H 0%nat (set_breaks_taken [3] six_period_employee) [0; 1; 2; 3; 4; 5] 3
                eq_refl ltac:(by left) eq_refl ltac:(cbn; lia) eq_refl).
  discriminate H.
Qed.

(** C3, amended. For every run of even length [L >= 6] of an employee
    whose schedule has no repeated period, the single break recorded
    inside the run is the element at index [L/2]: the upper of the run's
    two central positions [L/2 - 1] and [L/2], with [L/2] elements
    before it and [L/2 - 1] after it. *)
Theorem even_run_break_upper_middle (emps : list Employee) (e : nat) (emp : Employee)
        (i : nat) (run : list Z) :
  employees_after add_breaks emps !! e = Some emp →
  _get_shifts (schedule emp) !! i = Some run →
  Nat.even (length run) = true → (6 ≤ length run)%nat →
  NoDup (schedule emp) →
  ∃ b, run !! (length run / 2)%nat = Some b
       ∧ breaks_within run (breaks_taken emp) = [b]
       ∧ (length run / 2 = S (length run / 2 - 1))%nat
       ∧ (length (take (length run / 2) run) = length run / 2)%nat
       ∧ (length (drop (S (length run / 2)) run) = length run / 2 - 1)%nat.
Proof.
  intros Hemp Hrun Heven Hlen Hnodup.
  pose proof (add_breaks_per_run emps) as Hall.
  rewrite Forall_lookup in Hall. destruct (Hall e emp Hemp) as [_ Hruns].
  rewrite Forall_lookup in Hruns. destruct (Hruns i run Hrun) as [Hcase Hwithin].
  destruct (decide (6 ≤ length run)%nat) as [_|]; [| done].
  destruct Hcase as (b & Hb & Hcontrib). exists b.
  apply Nat.even_spec in Heven as [k Hk].
  assert (length run / 2 = k)%nat as Hhalf
    by (rewrite Hk, Nat.mul_comm; apply Nat.div_mul; lia).
  rewrite Hwithin, Hcontrib by done.
  rewrite length_take, length_drop. split_and!; [done | done | lia..].
Qed.

Lemma even_run_break_upper_middle_witness :
  ∃ b, [0; 1; 2; 3; 4; 5] !! (6 / 2)%nat = Some b
       ∧ breaks_within [0; 1; 2; 3; 4; 5] [3] = [b]
       ∧ (6 / 2 = S (6 / 2 - 1))%nat
       ∧ (length (take (6 / 2) [0; 1; 2; 3; 4; 5]) = 6 / 2)%nat
       ∧ (length (drop (S (6 / 2)) [0; 1; 2; 3; 4; 5]) = 6 / 2 - 1)%nat.
Proof.
  apply (even_run_break_upper_middle
           [six_period_employee] 0 (set_breaks_taken [3] six_period_employee)
           0 [0; 1; 2; 3; 4; 5]).
  - reflexivity.
  - reflexivity.
  - reflexivity.
  - simpl. lia.
  - apply (bool_decide_unpack _). vm_compute. exact I.
Defined.

(** C9. [add_breaks] changes nothing but [breaks_taken]: every
    employee's schedule is what it was, break periods included, and
    every recorded break is a period of that employee's schedule (the
    breaks are picked from the schedule, in order). *)
Theorem add_breaks_keeps_schedule (emps : list Employee) :
  schedule <$> employees_after add_breaks emps = schedule <$> emps
  ∧ Forall2 (λ emp emp', emp' = set_breaks_taken (breaks_taken emp') emp)
            emps (employees_after add_breaks emps)
  ∧ Forall (λ emp, (∀ b, b ∈ breaks_taken emp → b ∈ schedule emp)
                   ∧ breaks_taken emp `sublist_of` schedule emp)
           (employees_after add_breaks emps).
Proof.
  rewrite add_breaks_after. split_and!.
  - rewrite <- list_fmap_compose. by apply list_fmap_ext.
  - apply Forall2_fmap_r, Forall_Forall2_diag, Forall_forall. by intros emp _.
  - apply Forall_fmap, Forall_forall. intros emp _. cbn.
    split; [| apply breaks_of_schedule_sublist].
    intros b Hb. eapply elem_of_sublist; [exact Hb | apply breaks_of_schedule_sublist].
Qed.

End BreakClaims.

Section BreakAlgebra.

Import WorkforceSimulator.




End BreakAlgebra.

Section SchedulingClaims.

Import WorkforceSimulator.

Lemma generate_schedule_returns solver horizon_days emps :
  returns (generate_schedule solver horizon_days) emps = true.
Proof. unfold returns. by rewrite generate_schedule_run. Qed.

Lemma generate_schedule_schedules solver horizon_days emps :
  schedule <$> employees_after (generate_schedule solver horizon_days) emps
  = match backend_optimal solver (length emps) horizon_days with
    | Some results => (λ e, extracted_schedule results e horizon_days) <$> indices emps
    | None => (λ e, fallback_schedule e horizon_days) <$> indices emps
    end.
Proof.
  rewrite generate_schedule_after, schedules_after_imap.
  by destruct (backend_optimal _ _ _).
Qed.

Lemma fallback_after horizon_days emps :
  employees_after (_generate_fallback_schedule horizon_days) emps
  = imap (λ e, set_schedule (fallback_schedule e horizon_days)) emps.
Proof. unfold employees_after. by rewrite fallback_run. Qed.

Example generate_schedule_stale_example :
  schedule <$> employees_after (generate_schedule stale_variable 1)
                 [new_employee 0 []; new_employee 1 []]
  = [[0; 1; 2; 3; 4; 5; 6; 7]; [8; 9; 10; 11; 12; 13; 14; 15]].
Proof. vm_compute. reflexivity. Qed.

Example generate_schedule_optimal_example :
  schedule <$> employees_after (generate_schedule first_eight 1)
                 [new_employee 0 []; new_employee 1 []]
  = [[0; 1; 2; 3; 4; 5; 6; 7]; [0; 1; 2; 3; 4; 5; 6; 7]].
Proof. vm_compute. reflexivity. Qed.

(** C4. [generate_schedule] always returns to its caller, and it never
    leaves a mix: when the backend reports an optimal solution and every
    variable holds a value, every employee has the schedule extracted
    for that employee's index; in every other case (the backend raised,
    its status is not ok, its termination condition is not optimal, or
    reading a variable raised after some employees had already been
    given their extracted schedule) every employee has the fallback
    schedule of that employee's index and the horizon. *)
Theorem generate_schedule_all_or_nothing (solver : Solver) (horizon_days : Z)
        (emps : list Employee) :
  returns (generate_schedule solver horizon_days) emps = true
  ∧ schedule <$> employees_after (generate_schedule solver horizon_days) emps
    = match backend_optimal solver (length emps) horizon_days with
      | Some results => (λ e, extracted_schedule results e horizon_days) <$> indices emps
      | None => (λ e, fallback_schedule e horizon_days) <$> indices emps
      end
  ∧ match solver (build_model (length emps) horizon_days) with
    | Raised => backend_optimal solver (length emps) horizon_days = None
    | Return results =>
        (status results ≠ ok ∨ termination_condition results ≠ optimal
         ∨ (∃ e p, (e < length emps)%nat ∧ 0 ≤ p < 24 * horizon_days
                   ∧ working results e p = None) →
         backend_optimal solver (length emps) horizon_days = None)
        ∧ (backend_optimal solver (length emps) horizon_days = None
           ∨ backend_optimal solver (length emps) horizon_days = Some results)
    end.
Proof.
  split_and!; [apply generate_schedule_returns | apply generate_schedule_schedules |].
  unfold backend_optimal.
  destruct (solver (build_model (length emps) horizon_days)) as [results|]; [| done].
  split; [| by destruct (_ && _); auto].
  intros [Hs | [Ht | (e & p & He & Hp & Hnone)]].
  - by rewrite (bool_decide_eq_false_2 _ Hs).
  - by rewrite (bool_decide_eq_false_2 _ Ht), andb_false_r.
  - match goal with |- (if ?b then _ else _) = _ => destruct b eqn:Hb end; [| done].
    apply andb_true_iff in Hb as [_ Hall]. rewrite forallb_forall in Hall.
    specialize (Hall e ltac:(cbn; apply in_seq; lia)). rewrite forallb_forall in Hall.
    specialize (Hall p ltac:(cbn; apply list_elem_of_In, elem_of_seqZ; lia)).
    rewrite Hnone in Hall. apply bool_decide_eq_true in Hall. by destruct Hall.
Qed.

(** C5. The fallback scheduler returns, and the schedules it leaves are
    those of [fallback_schedule] at the employees' indices: a function
    of the index and the horizon alone.  Two employee lists of the same
    length therefore get the same schedules whatever they held before,
    and running the fallback again changes nothing. *)
Theorem fallback_deterministic (horizon_days : Z) (emps1 emps2 : list Employee) :
  length emps1 = length emps2 →
  returns (_generate_fallback_schedule horizon_days) emps1 = true
  ∧ schedule <$> employees_after (_generate_fallback_schedule horizon_days) emps1
    = (λ e, fallback_schedule e horizon_days) <$> indices emps1
  ∧ schedule <$> employees_after (_generate_fallback_schedule horizon_days) emps1
    = schedule <$> employees_after (_generate_fallback_schedule horizon_days) emps2
  ∧ employees_after (_generate_fallback_schedule horizon_days)
      (employees_after (_generate_fallback_schedule horizon_days) emps1)
    = employees_after (_generate_fallback_schedule horizon_days) emps1.
Proof.
  intros Hlen. rewrite !fallback_after, !schedules_after_imap. split_and!.
  - unfold returns. by rewrite fallback_run.
  - done.
  - unfold indices. by rewrite Hlen.
  - apply imap_set_schedule_forgets.
Qed.

Lemma fallback_deterministic_witness :
  returns (_generate_fallback_schedule 7) main_employees = true
  ∧ schedule <$> employees_after (_generate_fallback_schedule 7) main_employees
    = (λ e, fallback_schedule e 7) <$> indices main_employees
  ∧ schedule <$> employees_after (_generate_fallback_schedule 7) main_employees
    = schedule <$> employees_after (_generate_fallback_schedule 7)
                     (set_schedule [5; 3; 3] <$> main_employees)
  ∧ employees_after (_generate_fallback_schedule 7)
      (employees_after (_generate_fallback_schedule 7) main_employees)
    = employees_after (_generate_fallback_schedule 7) main_employees.
Proof.
  apply (fallback_deterministic 7 main_employees (set_schedule [5; 3; 3] <$> main_employees)).
  reflexivity.
Defined.

(** C6. After [generate_schedule], whatever the backend did, every
    employee's schedule is strictly increasing and every period of it
    lies in [[0, horizon_days * 24)]; this holds for the schedule
    extracted from any solution and for the fallback schedule of any
    index. *)
Theorem generate_schedule_sorted_within_horizon (solver : Solver) (horizon_days : Z)
        (emps : list Employee) :
  Forall (λ emp, strictly_increasing (schedule emp) = true
                 ∧ within_horizon horizon_days (schedule emp) = true)
         (employees_after (generate_schedule solver horizon_days) emps)
  ∧ (∀ results e,
       strictly_increasing (extracted_schedule results e horizon_days) = true
       ∧ within_horizon horizon_days (extracted_schedule results e horizon_days) = true)
  ∧ (∀ e,
       strictly_increasing (fallback_schedule e horizon_days) = true
       ∧ within_horizon horizon_days (fallback_schedule e horizon_days) = true).
Proof.
  assert (∀ results e,
       strictly_increasing (extracted_schedule results e horizon_days) = true
       ∧ within_horizon horizon_days (extracted_schedule results e horizon_days) = true)
    as Hextracted by (intros; apply filter_range_sorted).
  assert (∀ e,
       strictly_increasing (fallback_schedule e horizon_days) = true
       ∧ within_horizon horizon_days (fallback_schedule e horizon_days) = true)
    as Hfallback by (intros; rewrite fallback_schedule_filter; apply filter_range_sorted).
  split_and!; [| done | done].
  rewrite generate_schedule_after. apply Forall_imap_set_schedule. intros e emp _. cbn.
  destruct (backend_optimal _ _ _); [apply Hextracted | apply Hfallback].
Qed.

End SchedulingClaims.

Section CapClaims.

Import WorkforceSimulator.

Example all_ones_breaks_the_cap :
  (λ emp, length (periods_on_day 0 (schedule emp)))
    <$> employees_after (generate_schedule all_ones 1) [new_employee 0 []]
  = [24%nat]
  ∧ backend_respects_daily_hours all_ones 1 1 = false.
Proof. vm_compute. done. Qed.

(** C7. Provided the values of an optimal backend solution are binary
    and satisfy the daily-hours constraints of the model it was given,
    after [generate_schedule] every employee has, on every day, at most
    8 scheduled periods in [[d*24, (d+1)*24)] (the configured daily
    cap), on the backend-optimal path as on the fallback path.  On the
    fallback path, moreover, no contiguous run of a schedule is longer
    than 8 periods.  The fallback bounds hold for every index and
    horizon. *)
Theorem generate_schedule_daily_cap (solver : Solver) (horizon_days : Z)
        (emps : list Employee) :
  backend_respects_daily_hours solver (length emps) horizon_days = true →
  Forall (λ emp, ∀ d, (length (periods_on_day d (schedule emp)) ≤ max_hours_per_day)%nat)
         (employees_after (generate_schedule solver horizon_days) emps)
  ∧ (backend_optimal solver (length emps) horizon_days = None →
     Forall (λ emp, Forall (λ run, (length run ≤ 8)%nat) (_get_shifts (schedule emp)))
            (employees_after (generate_schedule solver horizon_days) emps))
  ∧ (∀ e d, (length (periods_on_day d (fallback_schedule e horizon_days))
             ≤ max_hours_per_day)%nat)
  ∧ (∀ e, Forall (λ run, (length run ≤ 8)%nat)
                 (_get_shifts (fallback_schedule e horizon_days))).
Proof.
  intros Hmodel. unfold backend_respects_daily_hours in Hmodel.
  rewrite generate_schedule_after. split_and!.
  - apply Forall_imap_set_schedule. intros e emp He d. cbn.
    destruct (backend_optimal _ _ _) as [results|].
    + by apply (extracted_daily_cap results (length emps)).
    + apply fallback_daily_cap.
  - intros ->. apply Forall_imap_set_schedule. intros e emp _. cbn.
    apply fallback_runs_short.
  - intros e d. apply fallback_daily_cap.
  - intros e. apply fallback_runs_short.
Qed.

Lemma generate_schedule_daily_cap_witness :
  Forall (λ emp, ∀ d, (length (periods_on_day d (schedule emp)) ≤ max_hours_per_day)%nat)
         (employees_after (generate_schedule first_eight 1) [new_employee 0 []])
  ∧ (backend_optimal first_eight (length [new_employee 0 []]) 1 = None →
     Forall (λ emp, Forall (λ run, (length run ≤ 8)%nat) (_get_shifts (schedule emp)))
            (employees_after (generate_schedule first_eight 1) [new_employee 0 []]))
  ∧ (∀ e d, (length (periods_on_day d (fallback_schedule e 1)) ≤ max_hours_per_day)%nat)
  ∧ (∀ e, Forall (λ run, (length run ≤ 8)%nat) (_get_shifts (fallback_schedule e 1))).
Proof.
  apply (generate_schedule_daily_cap first_eight 1 [new_employee 0 []]).
  vm_compute. reflexivity.
Defined.

(** C8. The scenario: four employees, seven days, the backend
    unavailable.  The templates of the employees 0..3 are [0,8), [8,16),
    [16,24) and [0,8); every employee works exactly the hours of the
    template on the days 0, 2, 4 and 6; every schedule has 32 entries
    (employee 0's in particular); every schedule has four runs of length
    8; [add_breaks] records one break per run, the element at offset 4
    of the run, which for the template [0,8) of the employees 0 and 3 is
    the period day*24 + 4 (for the employees 1 and 2 it is day*24 + 12
    and day*24 + 20). *)
Theorem fallback_scenario :
  template <$> [0; 1; 2; 3]%nat = [(0, 8); (8, 16); (16, 24); (0, 8)]
  ∧ schedule <$> scenario_result
    = (λ shift : Z * Z,
         concat ((λ day, (λ hour, day * 24 + hour) <$> range (fst shift) (snd shift))
                   <$> [0; 2; 4; 6]))
        <$> [(0, 8); (8, 16); (16, 24); (0, 8)]
  ∧ (λ emp, remove_dups ((λ p, p `mod` 24) <$> schedule emp)) <$> scenario_result
    = [range 0 8; range 8 16; range 16 24; range 0 8]
  ∧ (λ emp, remove_dups ((λ p, p `div` 24) <$> schedule emp)) <$> scenario_result
    = [[0; 2; 4; 6]; [0; 2; 4; 6]; [0; 2; 4; 6]; [0; 2; 4; 6]]
  ∧ (λ emp, length (schedule emp)) <$> scenario_result = [32; 32; 32; 32]%nat
  ∧ (λ emp, length <$> _get_shifts (schedule emp)) <$> scenario_result
    = [[8; 8; 8; 8]; [8; 8; 8; 8]; [8; 8; 8; 8]; [8; 8; 8; 8]]%nat
  ∧ breaks_taken <$> scenario_result
    = (λ emp, (λ run, run !!! 4%nat) <$> _get_shifts (schedule emp)) <$> scenario_result
  ∧ breaks_taken <$> scenario_result
    = [(λ day, day * 24 + 4) <$> [0; 2; 4; 6];
       (λ day, day * 24 + 12) <$> [0; 2; 4; 6];
       (λ day, day * 24 + 20) <$> [0; 2; 4; 6];
       (λ day, day * 24 + 4) <$> [0; 2; 4; 6]].
Proof. vm_compute. repeat split. Qed.

End CapClaims.

(** * Further properties of the code *)

(** ** The segmentation is unique *)

Section Uniqueness.

Import Helpers.

(** Periods that continue the current shift are appended to it. *)
Lemma get_shifts_loop_extend (more tl current : list Z) :
  current ≠ [] → contiguous (current ++ more) = true →
  get_shifts_loop (more ++ tl) [] current = get_shifts_loop tl [] (current ++ more).
Proof.
  revert current. induction more as [|x more IH]; intros current Hne Hc.
  - by rewrite app_nil_r.
  - rewrite contiguous_app in Hc by done.
    apply andb_true_iff in Hc as [[Hcur Hx%bool_decide_eq_true]%andb_true_iff Hmore].
    cbn [app get_shifts_loop]. rewrite decide_True by done.
    rewrite (IH (current ++ [x])); [by rewrite <- app_assoc | by destruct current |].
    rewrite <- app_assoc. cbn [app]. rewrite contiguous_app by done.
    by rewrite Hcur, Hmore, bool_decide_eq_true_2.
Qed.

Lemma maximal_runs_first (r : list Z) (runs : list (list Z)) :
  maximal_runs (r :: runs) = true →
  r ≠ [] ∧ contiguous r = true ∧ maximal_runs runs = true.
Proof.
  destruct runs as [|r2 runs].
  - unfold maximal_runs. cbn. rewrite !andb_true_r.
    intros [Hr Hc]%andb_true_iff. by destruct r.
  - rewrite maximal_runs_cons.
    intros [[[Hr Hc]%andb_true_iff _]%andb_true_iff Hrest]%andb_true_iff.
    by destruct r.
Qed.

Lemma get_shifts_loop_runs (runs : list (list Z)) (a : Z) (r : list Z) :
  maximal_runs ((a :: r) :: runs) = true →
  get_shifts_loop (r ++ concat runs) [] [a] = (a :: r) :: runs.
Proof.
  revert a r. induction runs as [|r2 runs IH]; intros a r Hmax.
  - apply maximal_runs_first in Hmax as (_ & Hc & _).
    cbn [concat]. rewrite (get_shifts_loop_extend r [] [a]) by done. done.
  - pose proof Hmax as Hmax'. rewrite maximal_runs_cons in Hmax'.
    apply andb_true_iff in Hmax' as [[[_ Hc]%andb_true_iff Hsep]%andb_true_iff Hrest].
    destruct (maximal_runs_first _ _ Hrest) as (Hne2 & Hc2 & _).
    destruct r2 as [|y r2]; [done |].
    cbn [concat]. rewrite (get_shifts_loop_extend r _ [a]) by done.
    cbn [app get_shifts_loop].
    unfold mergeable in Hsep. cbn [fst snd] in Hsep.
    rewrite contiguous_app, Hc, Hc2, andb_true_r in Hsep by done. cbn [andb] in Hsep.
    apply negb_true_iff, bool_decide_eq_false in Hsep.
    rewrite decide_False by done.
    rewrite get_shifts_loop_app. cbn [app]. f_equal. by apply IH.
Qed.

Lemma get_shifts_of_runs (runs : list (list Z)) :
  maximal_runs runs = true → get_shifts (concat runs) = runs.
Proof.
  destruct runs as [|r runs]; [done |]. intros Hmax.
  destruct (maximal_runs_first _ _ Hmax) as (Hne & _ & _).
  destruct r as [|a r]; [done |]. by apply get_shifts_loop_runs.
Qed.

(** X1. The segmentation is unique: any way of cutting a sequence into
    non-empty contiguous runs of which no two neighbours can be merged
    is the one [get_shifts] (and [_get_shifts]) computes, so
    [get_shifts] undoes [concat] on such run lists. *)
Theorem get_shifts_unique (schedule : list Z) (runs : list (list Z)) :
  maximal_runs runs = true → concat runs = schedule →
  get_shifts schedule = runs ∧ WorkforceSimulator._get_shifts schedule = runs.
Proof.
  intros Hmax <-. split; [| rewrite (_get_shifts_eq (concat runs))];
    by apply get_shifts_of_runs.
Qed.

Lemma get_shifts_unique_witness :
  get_shifts [3; 4; 5; 9; 10; 2] = [[3; 4; 5]; [9; 10]; [2]]
  ∧ WorkforceSimulator._get_shifts [3; 4; 5; 9; 10; 2] = [[3; 4; 5]; [9; 10]; [2]].
Proof.
  apply (get_shifts_unique [3; 4; 5; 9; 10; 2] [[3; 4; 5]; [9; 10]; [2]]);
    reflexivity.
Defined.

End Uniqueness.

(** ** Gaps between runs, and where breaks fall *)

Section RunsAndBreaks.

Import Helpers WorkforceSimulator.

Lemma last_default (l : list Z) (x d : Z) : last l = Some x → List.last l d = x.
Proof. intros [l' ->]%last_Some. apply last_last. Qed.

Lemma maximal_sorted_gaps (runs : list (list Z)) :
  maximal_runs runs = true → StronglySorted Z.lt (concat runs) →
  Forall (λ rr, ∀ x y, last (fst rr) = Some x → head (snd rr) = Some y → x + 1 < y)
         (adjacent runs).
Proof.
  induction runs as [|r1 [|r2 runs] IH]; intros Hmax Hs; [constructor.. |].
  rewrite adjacent_cons. pose proof Hmax as Hmax'. rewrite maximal_runs_cons in Hmax'.
  apply andb_true_iff in Hmax' as [[[_ Hc]%andb_true_iff Hsep]%andb_true_iff Hrest].
  cbn [concat] in Hs. apply StronglySorted_app in Hs as (Hlt & _ & Hs').
  constructor; [| by apply IH].
  cbn [fst snd]. intros x y Hx Hy.
  destruct (maximal_runs_first _ _ Hrest) as (_ & Hc2 & _).
  apply head_Some in Hy as [r2' ->].
  assert (x < y) as Hxy.
  { apply Hlt; [by apply last_Some_elem_of |]. cbn. by left. }
  unfold mergeable in Hsep. cbn [fst snd] in Hsep.
  rewrite contiguous_app, Hc, Hc2, andb_true_r in Hsep by (intros ->; done).
  cbn [andb] in Hsep. apply negb_true_iff, bool_decide_eq_false in Hsep.
  rewrite (last_default r1 x 0 Hx) in Hsep. lia.
Qed.

(** X2. In a strictly increasing schedule neighbouring shifts are
    separated by at least one period that is not worked: the first
    period of a shift is more than one after the last period of the
    shift before it. *)
Theorem get_shifts_gaps (schedule : list Z) :
  strictly_increasing schedule = true →
  Forall (λ rr, ∀ x y, last (fst rr) = Some x → head (snd rr) = Some y → x + 1 < y)
         (adjacent (get_shifts schedule)).
Proof.
  intros Hs%strictly_increasing_sorted.
  destruct (get_shifts_runs schedule) as [Hconcat Hmax].
  apply maximal_sorted_gaps; [done | by rewrite Hconcat].
Qed.

Lemma get_shifts_gaps_witness :
  Forall (λ rr, ∀ x y, last (fst rr) = Some x → head (snd rr) = Some y → x + 1 < y)
         (adjacent (get_shifts [1; 2; 3; 5; 6; 20])).
Proof. apply (get_shifts_gaps [1; 2; 3; 5; 6; 20]). reflexivity. Defined.

Lemma elem_of_concat_inv {A} (x : A) (ls : list (list A)) :
  x ∈ concat ls → ∃ l, l ∈ ls ∧ x ∈ l.
Proof.
  induction ls as [|l ls IH]; cbn; [by intros ?%not_elem_of_nil |].
  intros [Hx | Hx]%elem_of_app.
  - exists l. split; [by left | done].
  - destruct (IH Hx) as (l' & Hl' & Hx'). exists l'. split; [by right | done].
Qed.

(** The periods around the middle of a run of six or more. *)
Lemma break_neighbours (run : list Z) (b k : Z) :
  contiguous run = true → b ∈ breaks_of_run run → -3 ≤ k ≤ 2 → b + k ∈ run.
Proof.
  intros Hc Hb Hk. pose proof (breaks_of_run_cases run) as Hcase.
  destruct (decide (6 ≤ length run)%nat) as [Hlen|]; last first.
  { rewrite Hcase in Hb. by apply not_elem_of_nil in Hb. }
  destruct Hcase as (b' & Hmid & Hbreak). rewrite Hbreak in Hb.
  apply list_elem_of_singleton in Hb as ->.
  destruct run as [|a run]; [cbn in Hlen; lia |].
  pose proof (contiguous_offset a run _ _ Hc Hmid) as ->.
  assert (3 ≤ length (a :: run) / 2 ∧ length (a :: run) / 2 + 2 < length (a :: run))%nat
    as [Hlo Hhi].
  { pose proof (Nat.div_mod_eq (length (a :: run)) 2).
    pose proof (Nat.mod_upper_bound (length (a :: run)) 2). lia. }
  set (i := Z.to_nat (Z.of_nat (length (a :: run) / 2) + k)).
  destruct (lookup_lt_is_Some_2 (a :: run) i) as [y Hy]; [lia |].
  pose proof (contiguous_offset a run _ _ Hc Hy) as ->.
  replace (a + Z.of_nat (length (a :: run) / 2) + k) with (a + Z.of_nat i) by lia.
  by eapply list_elem_of_lookup_2.
Qed.

(** X3. A break never sits at the edge of a shift: for every break [b]
    that [add_breaks] records, the three periods before it and the two
    after it are in the employee's schedule as well. *)
Theorem breaks_are_interior (emps : list Employee) :
  Forall (λ emp,
      Forall (λ b, Forall (λ k, b + k ∈ schedule emp) [-3; -2; -1; 0; 1; 2])
             (breaks_taken emp))
    (employees_after add_breaks emps).
Proof.
  rewrite add_breaks_after. apply Forall_fmap, Forall_forall. intros emp _. cbn.
  apply Forall_forall. intros b Hb. unfold breaks_of_schedule in Hb.
  apply elem_of_concat_inv in Hb as (contribution & Hcontribution & Hb).
  apply list_elem_of_fmap in Hcontribution as (run & -> & Hrun).
  apply _get_shifts_run in Hrun as [Hc Hin].
  apply Forall_forall. intros k Hk. apply Hin, break_neighbours; [done | done |].
  repeat (apply elem_of_cons in Hk as [-> | Hk]; [lia |]).
  by apply not_elem_of_nil in Hk.
Qed.

End RunsAndBreaks.

(** ** Shifts and breaks of the fallback schedule *)

Section FallbackShifts.

Import Helpers WorkforceSimulator.

Lemma contiguous_seqZ (a n : Z) : contiguous (seqZ a n) = true.
Proof.
  apply contiguous_lookup. intros i x y [-> _]%lookup_seqZ [-> _]%lookup_seqZ. lia.
Qed.

Lemma last_seqZ (a n d : Z) : 0 < n → List.last (seqZ a n) d = a + n - 1.
Proof.
  intros Hn. replace n with (Z.of_nat (S (Z.to_nat (n - 1)))) by lia.
  rewrite seqZ_S, last_last. lia.
Qed.

(** The hours of a template on one day. *)
Lemma template_day (e : nat) (day : Z) :
  (λ hour, day * 24 + hour) <$> range (fst (template e)) (snd (template e))
  = seqZ (day * 24 + fst (template e)) 8.
Proof.
  unfold range.
  assert (snd (template e) - fst (template e) = 8) as ->
    by (destruct (template_cases e) as [_ [-> | [-> | ->]]]; done).
  apply fmap_add_seqZ.
Qed.

Lemma maximal_runs_single (r : list Z) :
  maximal_runs [r] = nonempty r && contiguous r.
Proof.
  change (maximal_runs [r]) with (nonempty r && true && (contiguous r && true) && true).
  by destruct (nonempty r), (contiguous r).
Qed.

(** Blocks of eight periods that start on whole days plus a fixed hour
    are never mergeable: they form a maximal segmentation in any
    order. *)
Lemma day_blocks_maximal (s : Z) (days : list Z) :
  maximal_runs ((λ day, seqZ (day * 24 + s) 8) <$> days) = true.
Proof.
  induction days as [|d1 [|d2 days] IH]; [done | |].
  - cbn [fmap list_fmap]. rewrite maximal_runs_single, contiguous_seqZ.
    by rewrite seqZ_cons by lia.
  - cbn [fmap list_fmap] in *. rewrite maximal_runs_cons, IH, contiguous_seqZ.
    rewrite andb_true_r. unfold mergeable. cbn [fst snd].
    rewrite (seqZ_cons (d2 * 24 + s)) by lia.
    rewrite contiguous_app by (rewrite seqZ_cons by lia; done).
    rewrite last_seqZ by lia.
    rewrite (bool_decide_eq_false_2 (d2 * 24 + s = _)) by lia.
    rewrite andb_false_r. by rewrite seqZ_cons by lia.
Qed.

Lemma fallback_schedule_blocks (e : nat) (horizon_days : Z) :
  fallback_schedule e horizon_days
  = concat ((λ day, seqZ (day * 24 + fst (template e)) 8)
              <$> filter (λ day, day `mod` 2 = 0) (range 0 horizon_days)).
Proof.
  unfold fallback_schedule. f_equal. apply list_fmap_ext. intros _ day _.
  apply template_day.
Qed.

(** The shifts of the fallback schedule are the daily blocks. *)
Lemma fallback_get_shifts (e : nat) (horizon_days : Z) :
  _get_shifts (fallback_schedule e horizon_days)
  = (λ day, seqZ (day * 24 + fst (template e)) 8)
      <$> filter (λ day, day `mod` 2 = 0) (range 0 horizon_days).
Proof.
  rewrite (_get_shifts_eq (fallback_schedule e horizon_days)), fallback_schedule_blocks.
  apply get_shifts_of_runs, day_blocks_maximal.
Qed.

Lemma breaks_of_block (a : Z) : breaks_of_run (seqZ a 8) = [a + 4].
Proof.
  unfold breaks_of_run. rewrite length_seqZ. change (Z.to_nat 8) with 8%nat.
  rewrite decide_True by lia. change (8 / 2)%nat with 4%nat.
  rewrite lookup_total_seqZ_lt by lia. f_equal.
Qed.

Lemma fallback_breaks (e : nat) (horizon_days : Z) :
  breaks_of_schedule (fallback_schedule e horizon_days)
  = (λ day, day * 24 + fst (template e) + 4)
      <$> filter (λ day, day `mod` 2 = 0) (range 0 horizon_days).
Proof.
  unfold breaks_of_schedule. rewrite fallback_get_shifts.
  induction (filter _ _) as [|day days IH]; [done |].
  cbn [fmap list_fmap concat]. by rewrite breaks_of_block, IH.
Qed.

(** X4. On the fallback path, for every number of employees and every
    horizon: the shifts of employee [e] are exactly the daily blocks of
    the template on the even days, in order, and [add_breaks] records
    for each of them the one break at the fifth hour of the block,
    period [day * 24 + template start + 4]. *)
Theorem fallback_shifts_and_breaks (horizon_days : Z) (emps : list Employee) :
  (λ emp, _get_shifts (schedule emp))
    <$> employees_after add_breaks
          (employees_after (_generate_fallback_schedule horizon_days) emps)
  = (λ e, (λ day, range (day * 24 + fst (template e)) (day * 24 + snd (template e)))
            <$> filter (λ day, day `mod` 2 = 0) (range 0 horizon_days))
      <$> indices emps
  ∧ breaks_taken
      <$> employees_after add_breaks
            (employees_after (_generate_fallback_schedule horizon_days) emps)
    = (λ e, (λ day, day * 24 + fst (template e) + 4)
              <$> filter (λ day, day `mod` 2 = 0) (range 0 horizon_days))
        <$> indices emps.
Proof.
  rewrite add_breaks_after, fallback_after. split.
  - rewrite <- list_fmap_compose.
    change ((λ emp, _get_shifts (schedule emp)) ∘ _) with (_get_shifts ∘ schedule).
    rewrite list_fmap_compose, schedules_after_imap, <- list_fmap_compose.
    apply list_fmap_ext. intros _ e _. cbn. rewrite fallback_get_shifts.
    apply list_fmap_ext. intros _ day _. unfold range. f_equal.
    destruct (template_cases e) as [_ [-> | [-> | ->]]]; cbn; lia.
  - rewrite <- list_fmap_compose.
    change (breaks_taken ∘ _) with (breaks_of_schedule ∘ schedule).
    rewrite list_fmap_compose, schedules_after_imap, <- list_fmap_compose.
    apply list_fmap_ext. intros _ e _. cbn. apply fallback_breaks.
Qed.

End FallbackShifts.

(** ** Schedules and the constraints of the model *)

Section Constraints.

Import WorkforceSimulator.

Lemma binary_holds (v : Q) :
  Qeq_bool v 0 || Qeq_bool v 1 = true →
  (above_half v = false ∧ (v == 0)%Q) ∨ (above_half v = true ∧ (v == 1)%Q).
Proof.
  intros [H0%Qeq_bool_eq | H1%Qeq_bool_eq]%orb_true_iff; [left | right]; split; try done.
  - unfold above_half. apply negb_false_iff, Qle_bool_iff. by rewrite H0.
  - unfold above_half. apply negb_true_iff, not_true_iff_false.
    rewrite Qle_bool_iff, H1. intros Hle. by compute in Hle.
Qed.

(** With binary values a sum is the number of variables that hold. *)
Lemma sum_values_holds (vs : list (option Q)) (a : Q) :
  forallb is_binary vs = true →
  ∃ total,
    foldl (λ acc ov, match acc, ov with
                     | Some a, Some v => Some (a + v)%Q
                     | _, _ => None
                     end) (Some a) vs = Some total
    ∧ (total == a + inject_Z (Z.of_nat (length (filter (λ ov, holds ov = true) vs))))%Q.
Proof.
  revert a. induction vs as [|ov vs IH]; intros a Hbin.
  - exists a. split; [done |]. symmetry. apply Qplus_0_r.
  - cbn [forallb] in Hbin. apply andb_true_iff in Hbin as [Hv Hbin].
    destruct ov as [v|]; [| done]. cbn [is_binary] in Hv. cbn [foldl].
    destruct (IH (a + v)%Q Hbin) as (total & Hrun & Htotal).
    exists total. split; [done |]. rewrite Htotal, filter_cons. cbn [holds].
    destruct (binary_holds v Hv) as [[Hh Hz] | [Hh Hz]]; rewrite Hh.
    + rewrite decide_False by done. rewrite Hz. lra.
    + rewrite decide_True by done. cbn [length].
      rewrite Nat2Z.inj_succ, <- Z.add_1_r, inject_Z_plus, Hz.
      change (inject_Z 1) with 1%Q. lra.
Qed.

Lemma sum_values_count (vs : list (option Q)) :
  forallb is_binary vs = true →
  ∃ total, sum_values vs = Some total
           ∧ (total == inject_Z (Z.of_nat (length (filter (λ ov, holds ov = true) vs))))%Q.
Proof.
  intros Hbin. destruct (sum_values_holds vs 0 Hbin) as (total & Hsum & Htotal).
  exists total. split; [done |]. by rewrite Htotal, Qplus_0_l.
Qed.

Lemma sum_at_most (vs : list (option Q)) (bound : nat) :
  forallb is_binary vs = true →
  (length (filter (λ ov, holds ov = true) vs) ≤ bound)%nat →
  match sum_values vs with
  | Some total => Qle_bool total (inject_Z (Z.of_nat bound))
  | None => false
  end = true.
Proof.
  intros Hbin Hle. destruct (sum_values_count vs Hbin) as (total & -> & Htotal).
  apply Qle_bool_iff. rewrite Htotal, <- Zle_Qle. lia.
Qed.

Lemma sum_bounded (vs : list (option Q)) (bound : nat) :
  forallb is_binary vs = true →
  match sum_values vs with
  | Some total => Qle_bool total (inject_Z (Z.of_nat bound))
  | None => false
  end = true →
  (length (filter (λ ov, holds ov = true) vs) ≤ bound)%nat.
Proof.
  intros Hbin. destruct (sum_values_count vs Hbin) as (total & -> & Htotal).
  intros Hle%Qle_bool_iff. rewrite Htotal, <- Zle_Qle in Hle. lia.
Qed.

Lemma holds_filter_fmap {A} (f : A → option Q) (l : list A) :
  length (filter (λ ov, holds ov = true) (f <$> l))
  = length (filter (λ a, holds (f a) = true) l).
Proof. by rewrite filter_fmap, length_fmap. Qed.

(** *** The assignment of a list of schedules *)

Lemma assignment_binary schedules e p : is_binary (assignment_of schedules e p) = true.
Proof. unfold assignment_of. by case_decide. Qed.

Lemma assignment_holds schedules e p :
  holds (assignment_of schedules e p) = true ↔ p ∈ schedules !!! e.
Proof. unfold assignment_of. by case_decide. Qed.

Lemma assignment_selected schedules e p :
  selected (assignment_of schedules) e p = true ↔ p ∈ schedules !!! e.
Proof. apply assignment_holds. Qed.

Lemma fallback_schedules_lookup (n e : nat) (horizon_days : Z) :
  (e < n)%nat → fallback_schedules n horizon_days !!! e = fallback_schedule e horizon_days.
Proof.
  intros He. unfold fallback_schedules. apply list_lookup_total_correct.
  rewrite list_lookup_fmap, lookup_seq_lt by done. done.
Qed.

Lemma StronglySorted_lt_NoDup (l : list Z) : StronglySorted Z.lt l → NoDup l.
Proof.
  induction 1 as [|x l _ IH Hx]; constructor; [| done].
  intros Hin. rewrite Forall_forall in Hx. specialize (Hx x Hin). lia.
Qed.

(** Selecting the periods of a sorted schedule from a range that
    contains them gives the schedule back. *)
Lemma filter_member_sorted (s : list Z) (a n : Z) :
  StronglySorted Z.lt s → Forall (λ p, a ≤ p < a + n) s →
  filter (λ p, p ∈ s) (seqZ a n) = s.
Proof.
  intros Hs Hin.
  assert (AntiSymm eq Z.lt) by (intros x y ? ?; lia).
  apply (StronglySorted_unique Z.lt).
  - eapply StronglySorted_sublist; [apply sublist_filter | apply StronglySorted_seqZ].
  - done.
  - apply NoDup_Permutation.
    + eapply sublist_NoDup; [apply NoDup_seqZ | apply sublist_filter].
    + by apply StronglySorted_lt_NoDup.
    + intros p. rewrite list_elem_of_filter, elem_of_seqZ. split; [by intros [? _] |].
      intros Hp. split; [done |]. rewrite Forall_forall in Hin. by apply Hin.
Qed.

Lemma within_horizon_range (horizon_days : Z) (s : list Z) :
  within_horizon horizon_days s = true →
  Forall (λ p, 0 ≤ p < 0 + 24 * horizon_days) s.
Proof.
  unfold within_horizon. rewrite forallb_forall, Forall_forall.
  intros H p Hp%list_elem_of_In. specialize (H p Hp).
  apply bool_decide_eq_true in H. lia.
Qed.

Lemma extracted_assignment st tc (schedules : list (list Z)) (e : nat) (horizon_days : Z) :
  strictly_increasing (schedules !!! e) = true →
  within_horizon horizon_days (schedules !!! e) = true →
  extracted_schedule (mkResults st tc (assignment_of schedules)) e horizon_days
  = schedules !!! e.
Proof.
  intros Hs%strictly_increasing_sorted Hin%within_horizon_range.
  unfold extracted_schedule. cbn [working]. rewrite range_0.
  rewrite (filter_ext_in _ (λ p, p ∈ schedules !!! e))
    by (intros; apply assignment_selected).
  by apply filter_member_sorted.
Qed.

Lemma answers_optimal (schedules : list (list Z)) (n : nat) (horizon_days : Z) :
  backend_optimal (answers schedules) n horizon_days
  = Some (mkResults ok optimal (assignment_of schedules)).
Proof.
  unfold backend_optimal, answers. cbn [status termination_condition working].
  rewrite !bool_decide_eq_true_2 by done. cbn [andb].
  match goal with |- (if ?b then _ else _) = _ => assert (b = true) as -> end; [| done].
  apply forallb_forall. intros e _. apply forallb_forall. intros p _.
  apply bool_decide_eq_true. eauto.
Qed.

(** X5. Extraction undoes the encoding of schedules as an assignment:
    when the backend answers, as optimal, with the 0/1 assignment of a
    list of strictly increasing schedules inside the horizon, one per
    employee, [generate_schedule] gives every employee exactly that
    schedule. *)
Theorem generate_schedule_round_trip (schedules : list (list Z)) (horizon_days : Z)
        (emps : list Employee) :
  length schedules = length emps →
  forallb (λ s, strictly_increasing s && within_horizon horizon_days s) schedules = true →
  schedule <$> employees_after (generate_schedule (answers schedules) horizon_days) emps
  = schedules.
Proof.
  intros Hlen Hall. rewrite generate_schedule_schedules, answers_optimal.
  unfold indices. rewrite <- Hlen.
  apply list_eq. intros e. rewrite list_lookup_fmap.
  destruct (decide (e < length schedules)%nat) as [He|He].
  - rewrite lookup_seq_lt by done. cbn.
    destruct (lookup_lt_is_Some_2 schedules e He) as [s Hs].
    rewrite forallb_forall in Hall.
    specialize (Hall s ltac:(by eapply list_elem_of_In, list_elem_of_lookup_2)).
    apply andb_true_iff in Hall as [Hsorted Hin].
    rewrite extracted_assignment; rewrite (list_lookup_total_correct _ _ _ Hs); done.
  - rewrite lookup_seq_ge, lookup_ge_None_2 by lia. done.
Qed.

Lemma generate_schedule_round_trip_witness :
  schedule <$> employees_after
                 (generate_schedule (answers [[0; 1; 2; 30]; []; [5; 47]]) 2)
                 [new_employee 0 []; new_employee 1 []; new_employee 2 []]
  = [[0; 1; 2; 30]; []; [5; 47]].
Proof.
  apply (generate_schedule_round_trip [[0; 1; 2; 30]; []; [5; 47]] 2
           [new_employee 0 []; new_employee 1 []; new_employee 2 []]);
    reflexivity.
Defined.

End Constraints.

Section FallbackFeasibility.

Import WorkforceSimulator.

Lemma fallback_member (e : nat) (horizon_days p : Z) :
  p ∈ fallback_schedule e horizon_days ↔ on_template e p ∧ 0 ≤ p < 24 * horizon_days.
Proof.
  rewrite fallback_schedule_filter, list_elem_of_filter, range_0, elem_of_seqZ.
  split; intros [? ?]; split; done || lia.
Qed.

(** Nobody is scheduled on an odd day. *)
Lemma fallback_odd_day (e : nat) (horizon_days p : Z) :
  (p `div` 24) `mod` 2 ≠ 0 → p ∉ fallback_schedule e horizon_days.
Proof. intros Hodd [[Heven _] _]%fallback_member. done. Qed.

Lemma staff_at_schedules (emps : list Employee) (p : Z) :
  staff_at emps p = length (filter (λ s, p ∈ s) (schedule <$> emps)).
Proof. unfold staff_at. by rewrite filter_fmap, length_fmap. Qed.

Lemma length_filter_all {A} (P : A → Prop) `{!∀ x, Decision (P x)} (l : list A) :
  length (filter P l) = length l → Forall P l.
Proof.
  intros Hlen. apply Forall_forall. intros x Hx.
  destruct (decide (P x)) as [|Hnot]; [done |].
  pose proof (length_filter_lt P l x Hx Hnot). lia.
Qed.

(** The fallback respects the daily-hours constraints. *)
Lemma fallback_daily_hours (n : nat) (horizon_days : Z) :
  daily_hours (build_model n horizon_days)
              (assignment_of (fallback_schedules n horizon_days)) = true.
Proof.
  unfold daily_hours. apply forallb_forall. intros e He%in_seq.
  apply andb_true_iff. split; apply forallb_forall.
  - intros p _. apply assignment_binary.
  - intros d _. unfold daily_hours_rule. cbn zeta.
    apply (sum_at_most _ 8).
    + apply forallb_forall. intros ov (p & <- & _)%in_map_iff. apply assignment_binary.
    + rewrite holds_filter_fmap.
      rewrite (filter_ext_in _ (λ p, p ∈ fallback_schedule e horizon_days)); last first.
      { intros p _. rewrite assignment_holds, fallback_schedules_lookup by lia. done. }
      change 8%nat with (Z.to_nat 8).
      apply (sorted_interval_length _ (d * 24 + fst (template e))).
      * eapply StronglySorted_sublist; [apply sublist_filter | apply StronglySorted_seqZ].
      * apply Forall_forall.
        intros p [[[_ Hp] _]%fallback_member Hday%elem_of_seqZ]%list_elem_of_filter.
        assert (snd (template e) = fst (template e) + 8) as Hlen
          by (destruct (template_cases e) as [_ [-> | [-> | ->]]]; done).
        rewrite Hlen in Hp. clear Hlen.
        generalize dependent (fst (template e)). intros s Hp.
        pose proof (Z.div_mod p 24 ltac:(lia)).
        pose proof (Z.mod_pos_bound p 24 ltac:(lia)). lia.
Qed.

(** The fallback respects the consecutive-hours constraints. *)
Lemma fallback_consecutive_hours (n : nat) (horizon_days : Z) :
  consecutive_hours (build_model n horizon_days)
                    (assignment_of (fallback_schedules n horizon_days)) = true.
Proof.
  unfold consecutive_hours. apply forallb_forall. intros e He%in_seq.
  apply forallb_forall. intros p _. unfold consecutive_hours_rule.
  case_decide; [| done].
  apply (sum_at_most _ 8).
  - apply forallb_forall. intros ov (t & <- & _)%in_map_iff. apply assignment_binary.
  - rewrite holds_filter_fmap.
    rewrite (filter_ext_in _ (λ t, t ∈ fallback_schedule e horizon_days)); last first.
    { intros t _. rewrite assignment_holds, fallback_schedules_lookup by lia. done. }
    unfold range. replace (p + 9 - p) with 9 by lia.
    pose proof (length_filter (λ t, t ∈ fallback_schedule e horizon_days) (seqZ p 9)) as Hle.
    destruct (decide (length (filter (λ t, t ∈ fallback_schedule e horizon_days)
                                     (seqZ p 9)) = length (seqZ p 9))) as [Hnine|Hless].
    2: { rewrite length_seqZ in Hle, Hless. change (Z.to_nat 9) with 9%nat in Hle, Hless.
         lia. }
    exfalso. apply length_filter_all in Hnine.
    pose proof (on_template_run_short e (seqZ p 9) (contiguous_seqZ p 9)) as Hshort.
    rewrite length_seqZ in Hshort. change (Z.to_nat 9) with 9%nat in Hshort.
    assert (9 ≤ 8)%nat; [| lia]. apply Hshort.
    eapply Forall_impl; [exact Hnine |]. by intros t [? _]%fallback_member.
Qed.

(** Period 24, the first of day 1, is covered by nobody. *)
Lemma fallback_coverage_fails (n : nat) (horizon_days : Z) :
  2 ≤ horizon_days →
  coverage (build_model n horizon_days)
           (assignment_of (fallback_schedules n horizon_days)) = false.
Proof.
  intros Hh. apply not_true_iff_false. unfold coverage. rewrite forallb_forall.
  intros Hall. specialize (Hall 24). cbn [PERIODS build_model] in Hall.
  specialize (Hall ltac:(apply list_elem_of_In; rewrite range_0; apply elem_of_seqZ; lia)).
  unfold coverage_rule in Hall. cbn [EMPLOYEES build_model] in Hall.
  destruct (sum_values_count
              ((λ e, assignment_of (fallback_schedules n horizon_days) e 24) <$> seq 0 n))
    as (total & Hsum & Htotal).
  { apply forallb_forall. intros ov (e & <- & _)%in_map_iff. apply assignment_binary. }
  rewrite Hsum in Hall. apply Qle_bool_iff in Hall.
  rewrite Htotal, holds_filter_fmap in Hall.
  rewrite filter_none in Hall; [by compute in Hall |].
  apply Forall_forall. intros e He%elem_of_seq.
  rewrite assignment_holds, fallback_schedules_lookup by lia.
  by apply fallback_odd_day.
Qed.

(** X6. The fallback is feasible for two of the three constraint
    families only.  For every number of employees and every horizon of
    two days or more, the assignment it stands for is binary and
    satisfies the daily-hours and the consecutive-hours constraints of
    the model, but it violates the coverage constraint, because nobody
    is scheduled on an odd day: after the fallback the number of
    employees at any period of an odd day is zero. *)
Theorem fallback_feasibility (n : nat) (horizon_days : Z) (emps : list Employee) :
  2 ≤ horizon_days →
  daily_hours (build_model n horizon_days)
              (assignment_of (fallback_schedules n horizon_days)) = true
  ∧ consecutive_hours (build_model n horizon_days)
                      (assignment_of (fallback_schedules n horizon_days)) = true
  ∧ coverage (build_model n horizon_days)
             (assignment_of (fallback_schedules n horizon_days)) = false
  ∧ satisfies_model (build_model n horizon_days)
                    (assignment_of (fallback_schedules n horizon_days)) = false
  ∧ ∀ p, (p `div` 24) `mod` 2 ≠ 0 →
         staff_at (employees_after (_generate_fallback_schedule horizon_days) emps) p
         = 0%nat.
Proof.
  intros Hh. split_and!.
  - apply fallback_daily_hours.
  - apply fallback_consecutive_hours.
  - by apply fallback_coverage_fails.
  - unfold satisfies_model. rewrite fallback_coverage_fails by done.
    by rewrite andb_false_r.
  - intros p Hodd. rewrite staff_at_schedules, fallback_after, schedules_after_imap.
    rewrite filter_none; [done |].
    apply Forall_forall. intros s (e & -> & _)%list_elem_of_fmap.
    by apply fallback_odd_day.
Qed.

Lemma fallback_feasibility_witness :
  daily_hours (build_model 4 7) (assignment_of (fallback_schedules 4 7)) = true
  ∧ consecutive_hours (build_model 4 7) (assignment_of (fallback_schedules 4 7)) = true
  ∧ coverage (build_model 4 7) (assignment_of (fallback_schedules 4 7)) = false
  ∧ satisfies_model (build_model 4 7) (assignment_of (fallback_schedules 4 7)) = false
  ∧ ∀ p, (p `div` 24) `mod` 2 ≠ 0 →
         staff_at (employees_after (_generate_fallback_schedule 7) main_employees) p
         = 0%nat.
Proof. apply (fallback_feasibility 4 7 main_employees). lia. Defined.

End FallbackFeasibility.

Section OptimalPath.

Import WorkforceSimulator.

Lemma extracted_member (results : SolverResults) (e : nat) (horizon_days p : Z) :
  p ∈ extracted_schedule results e horizon_days
  ↔ holds (working results e p) = true ∧ 0 ≤ p < 24 * horizon_days.
Proof.
  unfold extracted_schedule. rewrite list_elem_of_filter, range_0, elem_of_seqZ.
  unfold selected, holds. split; intros [? ?]; split; done || lia.
Qed.

Lemma satisfies_model_parts (model : ConcreteModel) (x : nat → Z → option Q) :
  satisfies_model model x = true →
  daily_hours model x = true ∧ coverage model x = true
  ∧ consecutive_hours model x = true.
Proof. unfold satisfies_model. by intros [[? ?]%andb_true_iff ?]%andb_true_iff. Qed.

Lemma model_binary (n : nat) (horizon_days : Z) (x : nat → Z → option Q) (e : nat) (p : Z) :
  daily_hours (build_model n horizon_days) x = true →
  (e < n)%nat → 0 ≤ p < 24 * horizon_days → is_binary (x e p) = true.
Proof.
  unfold daily_hours. rewrite forallb_forall. intros Hall He Hp.
  specialize (Hall e ltac:(apply in_seq; cbn; lia)).
  apply andb_true_iff in Hall as [Hbin _]. rewrite forallb_forall in Hbin.
  apply Hbin. cbn. rewrite range_0. apply list_elem_of_In, elem_of_seqZ. lia.
Qed.

(** With a solution that satisfies the model, every period of the
    horizon is in the extracted schedule of some employee. *)
Lemma extracted_coverage (results : SolverResults) (n : nat) (horizon_days p : Z) :
  satisfies_model (build_model n horizon_days) (working results) = true →
  0 ≤ p < 24 * horizon_days →
  (1 ≤ length (filter (λ s, p ∈ s)
                      ((λ e, extracted_schedule results e horizon_days) <$> seq 0 n)))%nat.
Proof.
  intros (Hdaily & Hcov & _)%satisfies_model_parts Hp.
  unfold coverage in Hcov. rewrite forallb_forall in Hcov.
  specialize (Hcov p ltac:(cbn; rewrite range_0; apply list_elem_of_In, elem_of_seqZ; lia)).
  unfold coverage_rule in Hcov. cbn [EMPLOYEES build_model] in Hcov.
  destruct (sum_values_count ((λ e, working results e p) <$> seq 0 n))
    as (total & Hsum & Htotal).
  { apply forallb_forall. intros ov (e & <- & He%in_seq)%in_map_iff.
    apply (model_binary n horizon_days); [done | lia | done]. }
  rewrite Hsum in Hcov. apply Qle_bool_iff in Hcov.
  rewrite Htotal, holds_filter_fmap in Hcov.
  change 1%Q with (inject_Z 1) in Hcov. rewrite <- Zle_Qle in Hcov.
  rewrite filter_fmap, length_fmap.
  rewrite (filter_ext_in _ (λ e, holds (working results e p) = true)); [lia |].
  intros e _. rewrite extracted_member. tauto.
Qed.

(** With a solution that satisfies the model, no run of an extracted
    schedule has more than eight periods. *)
Lemma extracted_runs_short (results : SolverResults) (n e : nat) (horizon_days : Z) :
  satisfies_model (build_model n horizon_days) (working results) = true →
  (e < n)%nat →
  Forall (λ run, (length run ≤ 8)%nat)
         (_get_shifts (extracted_schedule results e horizon_days)).
Proof.
  intros (Hdaily & _ & Hcons)%satisfies_model_parts He.
  apply Forall_forall. intros run Hrun.
  apply _get_shifts_run in Hrun as [Hc Hin].
  destruct (decide (length run ≤ 8)%nat) as [|Hlong]; [done | exfalso].
  destruct run as [|a run]; [cbn in Hlong; lia |].
  assert (∀ i, (i < 9)%nat →
               holds (working results e (a + Z.of_nat i)) = true
               ∧ 0 ≤ a + Z.of_nat i < 24 * horizon_days) as Hwindow.
  { intros i Hi.
    destruct (lookup_lt_is_Some_2 (a :: run) i) as [y Hy]; [lia |].
    pose proof (contiguous_offset a run i y Hc Hy) as ->.
    by apply extracted_member, Hin, (list_elem_of_lookup_2 _ i). }
  destruct (Hwindow 0%nat ltac:(lia)) as [_ Ha0].
  destruct (Hwindow 8%nat ltac:(lia)) as [_ Ha8].
  unfold consecutive_hours in Hcons. rewrite forallb_forall in Hcons.
  specialize (Hcons e ltac:(apply in_seq; cbn; lia)). rewrite forallb_forall in Hcons.
  specialize (Hcons a ltac:(cbn; rewrite range_0; apply list_elem_of_In, elem_of_seqZ; lia)).
  unfold consecutive_hours_rule in Hcons. cbn [PERIODS build_model] in Hcons.
  rewrite range_0, length_seqZ in Hcons.
  rewrite decide_True in Hcons by lia.
  apply (sum_bounded _ 8) in Hcons; last first.
  { apply forallb_forall. intros ov (t & <- & Ht%list_elem_of_In)%in_map_iff.
    apply elem_of_seqZ in Ht.
    apply (model_binary n horizon_days); [done | lia | lia]. }
  rewrite holds_filter_fmap in Hcons.
  rewrite filter_all in Hcons.
  - unfold range in Hcons. rewrite length_seqZ in Hcons. lia.
  - apply Forall_forall. intros t Ht%elem_of_seqZ.
    replace t with (a + Z.of_nat (Z.to_nat (t - a))) by lia.
    apply Hwindow. lia.
Qed.

(** X7. When the optimal solutions of the backend satisfy the model
    (binary values, daily hours, coverage, consecutive hours), then
    after [generate_schedule] no shift of any employee is longer than
    eight periods, whichever path was taken; and on the backend-optimal
    path every period of the horizon has at least one employee
    scheduled. *)
Theorem generate_schedule_respects_model (solver : Solver) (horizon_days : Z)
        (emps : list Employee) :
  backend_feasible solver (length emps) horizon_days = true →
  Forall (λ emp, Forall (λ run, (length run ≤ 8)%nat) (_get_shifts (schedule emp)))
         (employees_after (generate_schedule solver horizon_days) emps)
  ∧ (is_Some (backend_optimal solver (length emps) horizon_days) →
     Forall (λ p, (1 ≤ staff_at (employees_after (generate_schedule solver horizon_days)
                                                 emps) p)%nat)
            (range 0 (24 * horizon_days))).
Proof.
  intros Hmodel. unfold backend_feasible in Hmodel. split.
  - rewrite generate_schedule_after. apply Forall_imap_set_schedule. intros e emp He. cbn.
    destruct (backend_optimal _ _ _) as [results|].
    + by apply (extracted_runs_short results (length emps)).
    + apply fallback_runs_short.
  - intros [results Hopt]. rewrite Hopt in Hmodel.
    apply Forall_forall. intros p Hp. rewrite range_0 in Hp. apply elem_of_seqZ in Hp.
    rewrite staff_at_schedules, generate_schedule_schedules, Hopt.
    apply extracted_coverage; [done | lia].
Qed.

Lemma generate_schedule_respects_model_witness :
  Forall (λ emp, Forall (λ run, (length run ≤ 8)%nat) (_get_shifts (schedule emp)))
         (employees_after (generate_schedule three_shifts 1)
            [new_employee 0 []; new_employee 1 []; new_employee 2 []])
  ∧ (is_Some (backend_optimal three_shifts
                (length [new_employee 0 []; new_employee 1 []; new_employee 2 []]) 1) →
     Forall (λ p, (1 ≤ staff_at (employees_after (generate_schedule three_shifts 1)
                                   [new_employee 0 []; new_employee 1 []; new_employee 2 []])
                                p)%nat)
            (range 0 (24 * 1))).
Proof.
  apply (generate_schedule_respects_model three_shifts 1
           [new_employee 0 []; new_employee 1 []; new_employee 2 []]).
  vm_compute. reflexivity.
Defined.

End OptimalPath.

(** * The reports *)

Section Reports.

Import WorkforceSimulator ScheduleVisualizer.

(** A loop whose body appends to its accumulator and does not raise. *)
Lemma for_acc_app {A X} (xs : list X) (body : list A → X → outcome (list A))
      (f : X → list A) (acc : list A) :
  Forall (λ x, ∀ acc, body acc x = Return (acc ++ f x)) xs →
  for_acc xs body acc = Return (acc ++ concat (f <$> xs)).
Proof.
  intros Hbody. revert acc. induction Hbody as [|x xs Hx _ IH]; intros acc; cbn.
  - by rewrite app_nil_r.
  - rewrite Hx. cbn. rewrite IH. by rewrite app_assoc.
Qed.

(** The same for a loop that cannot raise at all. *)
Lemma foldl_app {A X} (xs : list X) (f : X → list A) (acc : list A) :
  foldl (λ acc x, acc ++ f x) acc xs = acc ++ concat (f <$> xs).
Proof.
  revert acc. induction xs as [|x xs IH]; intros acc; cbn.
  - by rewrite app_nil_r.
  - rewrite IH. by rewrite app_assoc.
Qed.

Lemma concat_singletons {A B} (f : A → B) (l : list A) :
  concat ((λ x, [f x]) <$> l) = f <$> l.
Proof. induction l as [|x l IH]; [done |]. cbn. by rewrite IH. Qed.

Lemma StronglySorted_lt_le (l : list Z) : StronglySorted Z.lt l → StronglySorted Z.le l.
Proof.
  induction 1 as [|x l _ IH Hx]; constructor; [done|].
  eapply Forall_impl; [exact Hx|]. intros y ?. cbn in *. lia.
Qed.

(** Sorting a list that is in order gives the list back. *)
Lemma sorted_id (l : list Z) : StronglySorted Z.le l → sorted l = l.
Proof.
  intros Hl. unfold sorted.
  apply (StronglySorted_unique Z.le); [| done | apply merge_sort_Permutation].
  apply StronglySorted_merge_sort; apply _.
Qed.

Lemma within_horizon_sublist (horizon_days : Z) (l1 l2 : list Z) :
  l1 `sublist_of` l2 → within_horizon horizon_days l2 = true →
  within_horizon horizon_days l1 = true.
Proof.
  unfold within_horizon. rewrite !forallb_forall. intros Hsub Hall p Hp.
  apply Hall. apply list_elem_of_In. eapply elem_of_sublist; [| exact Hsub].
  by apply list_elem_of_In.
Qed.

Lemma breaks_increasing (s : list Z) :
  strictly_increasing s = true → strictly_increasing (breaks_of_schedule s) = true.
Proof.
  rewrite !strictly_increasing_sorted.
  apply StronglySorted_sublist, breaks_of_schedule_sublist.
Qed.

(** The state of the employees when the reports run: scheduled, then
    given their breaks. *)
Lemma pipeline_after (solver : Solver) (horizon_days : Z) (emps : list Employee) :
  Forall (λ emp, strictly_increasing (schedule emp) = true
                 ∧ within_horizon horizon_days (schedule emp) = true
                 ∧ breaks_taken emp = breaks_of_schedule (schedule emp))
         (employees_after add_breaks
            (employees_after (generate_schedule solver horizon_days) emps)).
Proof.
  rewrite add_breaks_after. apply Forall_fmap.
  rewrite generate_schedule_after. apply Forall_imap_set_schedule. intros e emp _. cbn.
  split_and!; [| | done].
  - destruct (backend_optimal _ _ _).
    + apply filter_range_sorted.
    + rewrite fallback_schedule_filter. apply filter_range_sorted.
  - destruct (backend_optimal _ _ _).
    + apply filter_range_sorted.
    + rewrite fallback_schedule_filter. apply filter_range_sorted.
Qed.

(** X8. The breaks come out in chronological order.  For every employee
    whose schedule is strictly increasing, the breaks [add_breaks]
    records are strictly increasing, so that the [sorted] of the
    reports leaves them as they are; after [generate_schedule] with any
    backend this holds for every employee, and every break lies inside
    the horizon. *)
Theorem breaks_chronological (solver : Solver) (horizon_days : Z) (emps : list Employee) :
  Forall (λ emp, strictly_increasing (schedule emp) = true →
                 strictly_increasing (breaks_taken emp) = true
                 ∧ sorted (breaks_taken emp) = breaks_taken emp)
         (employees_after add_breaks emps)
  ∧ Forall (λ emp, strictly_increasing (breaks_taken emp) = true
                   ∧ within_horizon horizon_days (breaks_taken emp) = true
                   ∧ sorted (breaks_taken emp) = breaks_taken emp)
           (employees_after add_breaks
              (employees_after (generate_schedule solver horizon_days) emps)).
Proof.
  split.
  - rewrite add_breaks_after. apply Forall_fmap, Forall_forall. intros emp _ Hs. cbn in *.
    apply breaks_increasing in Hs. split; [done|].
    apply sorted_id, StronglySorted_lt_le. by apply strictly_increasing_sorted.
  - eapply Forall_impl; [apply pipeline_after|]. intros emp (Hs & Hh & ->).
    pose proof (breaks_increasing _ Hs) as Hb. split_and!; [done | |].
    + eapply within_horizon_sublist; [apply breaks_of_schedule_sublist | done].
    + apply sorted_id, StronglySorted_lt_le. by apply strictly_increasing_sorted.
Qed.

End Reports.

(** * The spreadsheet: schedules and breaks *)

Section Spreadsheet.

Import WorkforceSimulator ScheduleVisualizer.

Lemma _get_shifts_nonempty (s : list Z) : Forall (λ run, run ≠ []) (_get_shifts s).
Proof.
  rewrite _get_shifts_eq. destruct (get_shifts_runs s) as [_ Hmax].
  unfold maximal_runs in Hmax.
  apply andb_true_iff in Hmax as [[Hne _]%andb_true_iff _].
  rewrite forallb_forall in Hne. apply Forall_forall. intros run Hrun%list_elem_of_In.
  apply Hne in Hrun. by destruct run.
Qed.

Lemma last_item_last (l : list Z) : l ≠ [] → last_item l = Return (List.last l 0).
Proof.
  intros Hl. unfold last_item. destruct (last l) as [x|] eqn:Hlast.
  - by rewrite (last_default l x 0).
  - by apply last_None in Hlast.
Qed.

(** [shift[0]] and [shift[-1]] exist for a shift that is not empty. *)
Lemma shift_times_run (shift : list Z) :
  shift ≠ [] →
  shift_times shift
  = Return (hd 0 shift `div` 24, hd 0 shift `mod` 24, List.last shift 0 `mod` 24 + 1).
Proof.
  intros Hne. unfold shift_times. rewrite (last_item_last shift Hne).
  by destruct shift.
Qed.

(** A contiguous run is given by its first period and its length. *)
Lemma contiguous_last (run : list Z) :
  contiguous run = true → run ≠ [] →
  List.last run 0 = hd 0 run + Z.of_nat (length run) - 1.
Proof.
  intros Hc Hne. destruct run as [|a run]; [done |]. cbn [hd].
  destruct (last (a :: run)) as [x|] eqn:Hlast; [| by apply last_None in Hlast].
  rewrite (last_default _ x 0 Hlast).
  rewrite last_lookup in Hlast.
  apply (contiguous_offset a run _ x Hc) in Hlast. cbn [length] in *. lia.
Qed.

(** The rows of one key inside rows written block after block. *)
Lemma filter_other_blocks {A B} (key : B → nat) (g : nat → A → list B) (l : list A) (t : nat) :
  (∀ j y r, r ∈ g j y → key r ≠ t) →
  filter (λ r, key r = t) (concat (imap g l)) = [].
Proof.
  revert g. induction l as [|a l IH]; intros g Hg; [done |].
  rewrite imap_cons. cbn [concat]. rewrite filter_app, IH.
  - rewrite filter_none; [done |]. apply Forall_forall. intros r Hr. by eapply Hg.
  - intros j y r Hr. by eapply Hg.
Qed.

Lemma filter_block {A B} (key : B → nat) (g : nat → A → list B) (l : list A)
      (k i : nat) (x : A) :
  (∀ j y r, r ∈ g j y → key r = (k + j)%nat) → l !! i = Some x →
  filter (λ r, key r = (k + i)%nat) (concat (imap g l)) = g i x.
Proof.
  revert g k i. induction l as [|a l IH]; intros g k i Hg Hi; [done |].
  rewrite imap_cons. cbn [concat]. rewrite filter_app. destruct i as [|i].
  - cbn in Hi. simplify_eq. rewrite filter_other_blocks.
    + rewrite app_nil_r. apply filter_all, Forall_forall. intros r Hr. by apply Hg in Hr.
    + intros j y r Hr. apply Hg in Hr. lia.
  - cbn in Hi. rewrite filter_none.
    + cbn [app].
      transitivity (filter (λ r, key r = (S k + i)%nat) (concat (imap (g ∘ S) l))).
      * apply filter_ext_in. intros r _. lia.
      * apply (IH (g ∘ S) (S k) i); [| done].
        intros j y r Hr. apply Hg in Hr. lia.
    + apply Forall_forall. intros r Hr. apply Hg in Hr. lia.
Qed.

Lemma concat_enumerate {A B} (f : nat → A → list B) (l : list A) :
  concat ((λ ie, f (fst ie) (snd ie)) <$> enumerate l) = concat (imap f l).
Proof. unfold enumerate. by rewrite fmap_imap. Qed.


(** The loops of the Schedules sheet write one row for each shift and
    do not raise. *)
Lemma schedule_data_rows (emps : list Employee) :
  schedule_data emps
  = Return (concat (imap (λ i emp, shift_row i emp <$> _get_shifts (schedule emp)) emps)).
Proof.
  unfold schedule_data.
  rewrite <- (concat_enumerate (λ i emp, shift_row i emp <$> _get_shifts (schedule emp))).
  rewrite (for_acc_app _ _ (λ ie, shift_row (fst ie) (snd ie)
                                    <$> _get_shifts (schedule (snd ie)))); [done |].
  apply Forall_forall. intros [i emp] _ acc. cbn [fst snd].
  rewrite (for_acc_app _ _ (λ shift, [shift_row i emp shift])).
  - f_equal. f_equal. induction (_get_shifts (schedule emp)) as [|s ss IH]; [done |].
    cbn. by rewrite IH.
  - eapply Forall_impl; [apply _get_shifts_nonempty |]. intros shift Hne acc'.
    by rewrite (shift_times_run shift Hne).
Qed.


End Spreadsheet.

Section BreakSheet.

Import WorkforceSimulator ScheduleVisualizer.

Lemma foldl_same {A X} (f g : A → X → A) (xs : list X) (acc : A) :
  (∀ acc x, f acc x = g acc x) → foldl f acc xs = foldl g acc xs.
Proof.
  intros Hfg. revert acc. induction xs as [|x xs IH]; intros acc; [done |].
  cbn. by rewrite Hfg, IH.
Qed.

Lemma break_data_rows (emps : list Employee) :
  break_data emps
  = concat (imap (λ i emp, break_row i <$> sorted (breaks_taken emp)) emps).
Proof.
  unfold break_data.
  rewrite <- (concat_enumerate (λ i emp, break_row i <$> sorted (breaks_taken emp))).
  etrans; [| exact (foldl_app (enumerate emps)
                (λ ie, break_row (fst ie) <$> sorted (breaks_taken (snd ie))) [])].
  apply foldl_same. intros acc [i emp]. cbn [fst snd].
  rewrite (foldl_app _ (λ b, [break_row i b])). f_equal.
  induction (sorted (breaks_taken emp)) as [|b bs IH]; [done |]. cbn. by rewrite IH.
Qed.

Lemma generate_excel_report_sheets (emps : list Employee) :
  generate_excel_report emps
  = Return (mkExcelReport
              (concat (imap (λ i emp, shift_row i emp <$> _get_shifts (schedule emp)) emps))
              (concat (imap (λ i emp, break_row i <$> sorted (breaks_taken emp)) emps))
              (_generate_coverage_summary emps)).
Proof.
  unfold generate_excel_report. rewrite schedule_data_rows. cbn.
  by rewrite break_data_rows.
Qed.

(** The breaks of a schedule are the middle periods of its long shifts. *)
Lemma breaks_of_runs_mid (runs : list (list Z)) :
  concat (breaks_of_run <$> runs)
  = mid_point <$> filter (λ run, (6 ≤ length run)%nat) runs.
Proof.
  induction runs as [|run runs IH]; [done |].
  cbn [fmap list_fmap concat]. rewrite filter_cons, IH. unfold breaks_of_run at 1.
  by case_decide.
Qed.

Lemma add_breaks_lookup (emps : list Employee) (i : nat) (emp : Employee) :
  employees_after add_breaks emps !! i = Some emp →
  breaks_taken emp = breaks_of_schedule (schedule emp).
Proof.
  rewrite add_breaks_after, list_lookup_fmap.
  destruct (emps !! i) as [emp0|]; [| done]. cbn. by intros [= <-].
Qed.

(** X10. The Breaks sheet agrees with the Schedules sheet.  For the
    employees [add_breaks] leaves, the spreadsheet is prepared without
    an exception; every employee has as many rows in the Breaks sheet
    as rows of shift length six or more in the Schedules sheet; and for
    an employee whose schedule is strictly increasing the rows of the
    Breaks sheet are, in order, the day and hour of the middle period
    of each of these shifts. *)
Theorem excel_report_breaks (emps : list Employee) :
  ∃ report,
    generate_excel_report (employees_after add_breaks emps) = Return report
    ∧ ∀ i emp, employees_after add_breaks emps !! i = Some emp →
        length (filter (λ row, Break_Employee_ID row = i) (Breaks report))
        = length (filter (λ row, Employee_ID row = i ∧ (6 ≤ Shift_Length row)%nat)
                         (Schedules report))
        ∧ (strictly_increasing (schedule emp) = true →
           filter (λ row, Break_Employee_ID row = i) (Breaks report)
           = (λ shift, break_row i (mid_point shift))
               <$> filter (λ shift, (6 ≤ length shift)%nat) (_get_shifts (schedule emp))).
Proof.
  eexists. split; [apply generate_excel_report_sheets |]. intros i emp Hemp.
  cbn [Breaks Schedules].
  rewrite (filter_block Break_Employee_ID
             (λ i emp, break_row i <$> sorted (breaks_taken emp)) _ 0 i emp);
    [| by intros j y r (b & -> & _)%list_elem_of_fmap | done].
  pose proof (add_breaks_lookup emps i emp Hemp) as Hbreaks.
  assert (breaks_taken emp
          = mid_point <$> filter (λ run, (6 ≤ length run)%nat) (_get_shifts (schedule emp)))
    as Hmid by (rewrite Hbreaks; apply breaks_of_runs_mid).
  split.
  - rewrite length_fmap. unfold sorted.
    rewrite (Permutation_length (merge_sort_Permutation Z.le (breaks_taken emp))).
    rewrite Hmid, length_fmap.
    assert (∀ rows : list ScheduleRow,
              filter (λ row, Employee_ID row = i ∧ (6 ≤ Shift_Length row)%nat) rows
              = filter (λ row, (6 ≤ Shift_Length row)%nat)
                       (filter (λ row, Employee_ID row = i) rows)) as ->.
    { intros rows. rewrite list_filter_filter. apply filter_ext_in. intros; tauto. }
    rewrite (filter_block Employee_ID
               (λ i emp, shift_row i emp <$> _get_shifts (schedule emp)) _ 0 i emp);
      [| by intros j y r (shift & -> & _)%list_elem_of_fmap | done].
    by rewrite filter_fmap, length_fmap.
  - intros Hs. rewrite sorted_id.
    + by rewrite Hmid, <- list_fmap_compose.
    + apply StronglySorted_lt_le, strictly_increasing_sorted.
      rewrite Hbreaks. by apply breaks_increasing.
Qed.

End BreakSheet.

(** * The coverage summary and the heatmap *)

Section Coverage.

Import WorkforceSimulator ScheduleVisualizer.

(** Days and hours of the first week, row after row. *)
Lemma week_rows {B} (f : Z → Z → B) :
  concat ((λ day, f day <$> range 0 24) <$> range 0 7)
  = (λ p, f (p `div` 24) (p `mod` 24)) <$> range 0 168.
Proof. vm_compute. reflexivity. Qed.

Lemma staff_count_staff_at (emps : list Employee) (p : Z) :
  sum_list ((λ _, 1%nat) <$> filter (λ emp, p ∈ schedule emp) emps) = staff_at emps p.
Proof. rewrite sum_list_fmap_const. unfold staff_at. lia. Qed.

Lemma skills_present_elem (emps : list Employee) (p : Z) (seen : gset string) (skill : string) :
  skill ∈ foldl (λ skills_present (emp : Employee),
                   if decide (p ∈ schedule emp)
                   then skills_present ∪ list_to_set (skills emp)
                   else skills_present) seen emps
  ↔ skill ∈ seen ∨ skills_at emps p skill.
Proof.
  unfold skills_at. revert seen. induction emps as [|emp emps IH]; intros seen; cbn [foldl].
  - split; [auto |]. intros [? | (emp & []%not_elem_of_nil & _)]. done.
  - rewrite IH. case_decide as Hp.
    + rewrite elem_of_union, elem_of_list_to_set. split.
      * intros [[? | ?] | (emp' & ? & ? & ?)]; [by left | right | right].
        -- exists emp. split_and!; [by left | done | done].
        -- exists emp'. split_and!; [by right | done | done].
      * intros [? | (emp' & [-> | ?]%elem_of_cons & ? & ?)]; [by left; left | by left; right |].
        right. by exists emp'.
    + split.
      * intros [? | (emp' & ? & ? & ?)]; [by left |].
        right. exists emp'. split_and!; [by right | done | done].
      * intros [? | (emp' & [-> | ?]%elem_of_cons & ? & ?)]; [by left | done |].
        right. by exists emp'.
Qed.

Lemma _generate_coverage_summary_rows (emps : list Employee) :
  _generate_coverage_summary emps
  = (λ p, coverage_row emps (p `div` 24) (p `mod` 24)) <$> range 0 168.
Proof.
  unfold _generate_coverage_summary. rewrite <- (week_rows (coverage_row emps)).
  etrans; [| exact (foldl_app (range 0 7) (λ day, coverage_row emps day <$> range 0 24) [])].
  apply foldl_same. intros acc day.
  rewrite (foldl_app _ (λ hour, [coverage_row emps day hour])). by f_equal.
Qed.

(** X11. The coverage summary has one row for each hour of the first
    week, in order of day and hour, whatever the horizon was: 168 rows.
    The staff count of a row is the number of employees scheduled at
    the period [day * 24 + hour], and the skills of the row are those
    of the employees scheduled at that period. *)
Theorem coverage_summary_rows (emps : list Employee) :
  length (_generate_coverage_summary emps) = 168%nat
  ∧ (λ row, (Coverage_Day row, Coverage_Hour row)) <$> _generate_coverage_summary emps
    = (λ p, (p `div` 24, p `mod` 24)) <$> range 0 168
  ∧ Forall (λ row,
              Staff_Count row = staff_at emps (Coverage_Day row * 24 + Coverage_Hour row)
              ∧ ∀ skill, skill ∈ Skills_Available row
                         ↔ skills_at emps (Coverage_Day row * 24 + Coverage_Hour row) skill)
           (_generate_coverage_summary emps).
Proof.
  rewrite _generate_coverage_summary_rows. split_and!.
  - by rewrite length_fmap.
  - by rewrite <- list_fmap_compose.
  - apply Forall_fmap, Forall_forall. intros p _. cbn. split.
    + apply staff_count_staff_at.
    + intros skill. rewrite skills_present_elem.
      split; [intros [Hempty | ?]; [by apply elem_of_empty in Hempty | done] | by right].
Qed.

End Coverage.

Section Heatmap.

Import WorkforceSimulator ScheduleVisualizer.

Lemma increment_shaped (r c : nat) (matrix : list (list nat)) :
  week_shaped matrix → week_shaped (increment r c matrix).
Proof.
  intros [Hlen Hrows]. split; unfold increment.
  - by rewrite length_alter.
  - apply Forall_alter; [done |]. intros row _ Hrow. by rewrite length_alter.
Qed.

Lemma increment_lookup (r c d h : nat) (matrix : list (list nat)) :
  week_shaped matrix → (r < 7)%nat → (c < 24)%nat →
  cell (increment r c matrix) d h
  = (cell matrix d h + (if decide (r = d ∧ c = h) then 1 else 0))%nat.
Proof.
  intros [Hlen Hrows] Hr Hc. unfold cell, increment.
  rewrite list_lookup_total_alter. case_decide as Hrd.
  - destruct Hrd as [<- _].
    assert (length (matrix !!! r) = 24%nat) as Hrow.
    { rewrite Forall_forall in Hrows. apply Hrows, list_elem_of_lookup_total_2. lia. }
    rewrite list_lookup_total_alter.
    repeat case_decide; destruct_and?; subst; lia.
  - case_decide; [| lia]. destruct_and?. lia.
Qed.

(** One scheduled hour of the heatmap. *)
Lemma count_hour_step (matrix : list (list nat)) (p : Z) :
  week_shaped matrix →
  (p < -168 ∧ count_hour matrix p = Raised)
  ∨ (-168 ≤ p
     ∧ ∃ matrix', count_hour matrix p = Return matrix' ∧ week_shaped matrix'
         ∧ ∀ d h : nat, (d < 7)%nat → (h < 24)%nat →
             cell matrix' d h
             = (cell matrix d h + week_count (24 * Z.of_nat d + Z.of_nat h) [p])%nat).
Proof.
  intros Hshape. unfold count_hour, axis_index, week_count.
  destruct (decide (p `div` 24 < 7)) as [Hweek|Hweek].
  - destruct (decide (0 ≤ p `div` 24 < 7)) as [Hday|Hday].
    + right. split; [Z.div_mod_to_equations; lia |]. rewrite decide_True by (apply Z.mod_pos_bound; lia). cbn.
      eexists. split_and!; [done | by apply increment_shaped |]. intros d h Hd Hh.
      rewrite increment_lookup;
        [| done | lia | pose proof (Z.mod_pos_bound p 24); lia].
      f_equal. rewrite ?filter_cons, ?filter_nil.
      repeat case_decide; cbn; try done; exfalso;
        destruct_and?; Z.div_mod_to_equations; lia.
    + destruct (decide (- (7) ≤ p `div` 24 < 0)) as [Hneg|Hneg].
      * right. split; [Z.div_mod_to_equations; lia |].
        rewrite decide_True by (apply Z.mod_pos_bound; lia). cbn.
        eexists. split_and!; [done | by apply increment_shaped |]. intros d h Hd Hh.
        rewrite increment_lookup;
          [| done | lia | pose proof (Z.mod_pos_bound p 24); lia].
        f_equal. rewrite ?filter_cons, ?filter_nil.
        repeat case_decide; cbn; try done; exfalso;
          destruct_and?; Z.div_mod_to_equations; lia.
      * left. split; [Z.div_mod_to_equations; lia | done].
  - right. split; [Z.div_mod_to_equations; lia |]. cbn.
    eexists. split_and!; [done | done |]. intros d h Hd Hh.
    rewrite ?filter_cons, ?filter_nil.
    case_decide; cbn; [| lia]. exfalso. destruct_and?. Z.div_mod_to_equations. lia.
Qed.

Lemma week_count_cons (c p : Z) (hours : list Z) :
  week_count c (p :: hours) = (week_count c [p] + week_count c hours)%nat.
Proof. unfold week_count. rewrite !filter_cons, filter_nil. by case_decide. Qed.

(** The hours of one employee. *)
Lemma count_hours (hours : list Z) (matrix : list (list nat)) :
  week_shaped matrix →
  match for_acc hours count_hour matrix with
  | Return matrix' =>
      Forall (λ p, -168 ≤ p) hours ∧ week_shaped matrix'
      ∧ ∀ d h : nat, (d < 7)%nat → (h < 24)%nat →
          cell matrix' d h
          = (cell matrix d h + week_count (24 * Z.of_nat d + Z.of_nat h) hours)%nat
  | Raised => Exists (λ p, p < -168) hours
  end.
Proof.
  revert matrix. induction hours as [|p hours IH]; intros matrix Hshape; cbn [for_acc].
  - split_and!; [constructor | done |]. intros d h _ _. unfold week_count. cbn. lia.
  - destruct (count_hour_step matrix p Hshape)
      as [[Hp ->] | (Hp & matrix' & -> & Hshape' & Hcells)]; cbn [mbind outcome_bind].
    + by left.
    + specialize (IH matrix' Hshape').
      destruct (for_acc hours count_hour matrix') as [matrix''|].
      * destruct IH as (Hall & Hshape'' & Hcells''). split_and!; [by constructor | done |].
        intros d h Hd Hh. rewrite Hcells'', Hcells by done.
        rewrite (week_count_cons _ p hours). lia.
      * by right.
Qed.

(** All employees. *)
Lemma count_employees_hours (emps : list Employee) (matrix : list (list nat)) :
  week_shaped matrix →
  match for_acc emps (λ matrix employee, for_acc (schedule employee) count_hour matrix)
                matrix with
  | Return matrix' =>
      Forall (λ emp, Forall (λ p, -168 ≤ p) (schedule emp)) emps ∧ week_shaped matrix'
      ∧ ∀ d h : nat, (d < 7)%nat → (h < 24)%nat →
          cell matrix' d h
          = (cell matrix d h
             + sum_list ((λ emp, week_count (24 * Z.of_nat d + Z.of_nat h) (schedule emp))
                           <$> emps))%nat
  | Raised => Exists (λ emp, Exists (λ p, p < -168) (schedule emp)) emps
  end.
Proof.
  revert matrix. induction emps as [|emp emps IH]; intros matrix Hshape; cbn [for_acc].
  - split_and!; [constructor | done |]. intros d h _ _. cbn. lia.
  - pose proof (count_hours (schedule emp) matrix Hshape) as Hemp.
    destruct (for_acc (schedule emp) count_hour matrix) as [matrix'|]; cbn [mbind outcome_bind].
    + destruct Hemp as (Hall & Hshape' & Hcells). specialize (IH matrix' Hshape').
      destruct (for_acc emps _ matrix') as [matrix''|].
      * destruct IH as (Hall' & Hshape'' & Hcells''). split_and!; [by constructor | done |].
        intros d h Hd Hh. rewrite Hcells'', Hcells by done. cbn. lia.
      * by right.
    + by left.
Qed.

Lemma zeros_shaped : week_shaped (replicate 7 (replicate 24 0%nat)).
Proof. split; [done |]. by repeat constructor. Qed.

Lemma zeros_lookup (d h : nat) : cell (replicate 7 (replicate 24 0%nat)) d h = 0%nat.
Proof.
  unfold cell. destruct (decide (d < 7)%nat) as [Hd|Hd].
  - rewrite lookup_total_replicate_2 by done.
    destruct (decide (h < 24)%nat) as [Hh|Hh].
    + by rewrite lookup_total_replicate_2.
    + rewrite list_lookup_total_alt, (proj1 (lookup_replicate_None _ _ _)) by lia. done.
  - rewrite (list_lookup_total_alt (replicate 7 _)),
      (proj1 (lookup_replicate_None _ _ _)) by lia. done.
Qed.

(** X12. What the heatmap counts.  [create_coverage_heatmap] raises
    exactly when some employee has a scheduled hour below -168 (numpy
    accepts the day indices -7 to -1 and counts them from the end of
    the week).  When it does not raise, the array is 7 by 24, and its
    cell for day [d] and hour [h] holds, summed over the employees, the
    number of scheduled hours before the end of the first week that are
    congruent to [24 d + h] modulo 168: the hours of later weeks are
    left out, and an hour of the week before is counted in the first
    week. *)
Theorem coverage_heatmap_cells (emps : list Employee) :
  (coverage_matrix emps = Raised
   ↔ Exists (λ emp, Exists (λ p, p < -168) (schedule emp)) emps)
  ∧ ∀ matrix, coverage_matrix emps = Return matrix →
      week_shaped matrix
      ∧ ∀ d h : nat, (d < 7)%nat → (h < 24)%nat →
          cell matrix d h
          = sum_list ((λ emp, week_count (24 * Z.of_nat d + Z.of_nat h) (schedule emp))
                        <$> emps).
Proof.
  pose proof (count_employees_hours emps _ zeros_shaped) as Hrun.
  unfold coverage_matrix. destruct (for_acc emps _ _) as [matrix'|]; split.
  - split; [done |]. intros Hex. destruct Hrun as (Hall & _). exfalso.
    apply Exists_exists in Hex as (emp & Hemp & Hp).
    rewrite Forall_forall in Hall. specialize (Hall emp Hemp).
    apply Exists_exists in Hp as (p & Hp & Hlow).
    rewrite Forall_forall in Hall. specialize (Hall p Hp). lia.
  - intros matrix [= <-]. destruct Hrun as (_ & Hshape & Hcells). split; [done |].
    intros d h Hd Hh. rewrite Hcells by done. by rewrite zeros_lookup.
  - done.
  - done.
Qed.

End Heatmap.

Section HeatmapAgreement.

Import WorkforceSimulator ScheduleVisualizer.

Lemma count_in_NoDup (c : Z) (l : list Z) :
  NoDup l → length (filter (λ p, p = c) l) = if decide (c ∈ l) then 1%nat else 0%nat.
Proof.
  induction 1 as [|x l Hx _ IH]; [done |].
  rewrite filter_cons. destruct (decide (x = c)) as [->|Hne].
  - cbn [length]. rewrite IH. rewrite decide_False by done.
    by rewrite decide_True by (by left).
  - rewrite IH. destruct (decide (c ∈ l)) as [Hc|Hc].
    + by rewrite decide_True by (by right).
    + rewrite decide_False; [done |]. by intros [-> | ?]%elem_of_cons.
Qed.

(** A schedule without repetition and without negative periods is
    counted once in the cell of each of its periods of the first
    week. *)
Lemma week_count_member (c : Z) (s : list Z) :
  NoDup s → Forall (λ p, 0 ≤ p) s → 0 ≤ c < 168 →
  week_count c s = if decide (c ∈ s) then 1%nat else 0%nat.
Proof.
  intros Hnodup Hpos Hc. rewrite <- (count_in_NoDup c s Hnodup). unfold week_count.
  f_equal. apply filter_ext_in. intros p Hp.
  rewrite Forall_forall in Hpos. specialize (Hpos p Hp).
  split.
  - intros [Hweek <-]. symmetry. apply Z.mod_small. lia.
  - intros ->. split; [lia |]. apply Z.mod_small. lia.
Qed.

Lemma sum_members (c : Z) (emps : list Employee) :
  sum_list ((λ emp, if decide (c ∈ schedule emp) then 1%nat else 0%nat) <$> emps)
  = staff_at emps c.
Proof.
  unfold staff_at. induction emps as [|emp emps IH]; [done |].
  cbn [fmap list_fmap sum_list]. rewrite filter_cons, IH. by case_decide.
Qed.

Lemma heatmap_staff (emps : list Employee) :
  Forall (λ emp, NoDup (schedule emp) ∧ Forall (λ p, 0 ≤ p) (schedule emp)) emps →
  ∃ matrix,
    coverage_matrix emps = Return matrix
    ∧ ∀ d h : nat, (d < 7)%nat → (h < 24)%nat →
        cell matrix d h = staff_at emps (24 * Z.of_nat d + Z.of_nat h).
Proof.
  intros Hemps.
  pose proof (count_employees_hours emps _ zeros_shaped) as Hrun.
  unfold coverage_matrix. destruct (for_acc emps _ _) as [matrix|].
  - exists matrix. split; [done |]. destruct Hrun as (_ & _ & Hcells).
    intros d h Hd Hh. rewrite Hcells, zeros_lookup by done. cbn [Nat.add].
    rewrite <- sum_members. f_equal. apply Forall_fmap_ext_1.
    eapply Forall_impl; [exact Hemps |]. intros emp [Hnodup Hpos]. cbn.
    apply week_count_member; [done | done | lia].
  - exfalso. apply Exists_exists in Hrun as (emp & Hemp & Hp).
    rewrite Forall_forall in Hemps. destruct (Hemps emp Hemp) as [_ Hpos].
    apply Exists_exists in Hp as (p & Hp & Hlow).
    rewrite Forall_forall in Hpos. specialize (Hpos p Hp). lia.
Qed.

(** X13. The heatmap and the coverage summary tell the same story.
    For the employees the simulator holds after [generate_schedule],
    with any backend and any horizon, and [add_breaks], the heatmap is
    computed without an exception, and its cell for day [d] and hour
    [h] is the number of employees scheduled at the period [24 d + h]:
    the staff count of the row of that day and hour in the coverage
    summary. *)
Theorem heatmap_matches_summary (solver : Solver) (horizon_days : Z) (emps : list Employee) :
  ∃ matrix,
    coverage_matrix
      (employees_after add_breaks
         (employees_after (generate_schedule solver horizon_days) emps))
    = Return matrix
    ∧ (∀ d h : nat, (d < 7)%nat → (h < 24)%nat →
         cell matrix d h
         = staff_at (employees_after add_breaks
                       (employees_after (generate_schedule solver horizon_days) emps))
                    (24 * Z.of_nat d + Z.of_nat h))
    ∧ Forall (λ row, cell matrix (Z.to_nat (Coverage_Day row)) (Z.to_nat (Coverage_Hour row))
                     = Staff_Count row)
             (_generate_coverage_summary
                (employees_after add_breaks
                   (employees_after (generate_schedule solver horizon_days) emps))).
Proof.
  destruct (heatmap_staff (employees_after add_breaks
              (employees_after (generate_schedule solver horizon_days) emps)))
    as (matrix & Hrun & Hcells).
  { eapply Forall_impl; [apply pipeline_after |]. intros emp (Hs & Hh & _). split.
    - apply strictly_increasing_sorted in Hs. by apply StronglySorted_lt_NoDup.
    - unfold within_horizon in Hh. rewrite forallb_forall in Hh.
      apply Forall_forall. intros p Hp%list_elem_of_In.
      apply Hh in Hp. apply bool_decide_eq_true in Hp. lia. }
  exists matrix. split_and!; [done | done |].
  rewrite _generate_coverage_summary_rows. apply Forall_fmap, Forall_forall.
  intros p Hp. rewrite range_0 in Hp. apply elem_of_seqZ in Hp. cbn.
  rewrite staff_count_staff_at.
  pose proof (Z.mod_pos_bound p 24).
  rewrite Hcells by (Z.div_mod_to_equations; lia).
  f_equal. Z.div_mod_to_equations. lia.
Qed.

End HeatmapAgreement.

(** * The Gantt chart *)

Section Gantt.

Import WorkforceSimulator ScheduleVisualizer.

Lemma plus_hours_in_range (h : Z) :
  datetime_min ≤ h ≤ datetime_max → plus_hours 0 h = Return h.
Proof. intros Hh. unfold plus_hours. by rewrite decide_True by lia. Qed.

Lemma last_elem (l : list Z) : l ≠ [] → List.last l 0 ∈ l.
Proof.
  intros Hne. destruct (last l) as [x|] eqn:Hlast; [| by apply last_None in Hlast].
  rewrite (last_default l x 0 Hlast). apply last_Some in Hlast as [l' ->].
  apply elem_of_app. right. by left.
Qed.

Lemma working_bars (i : nat) (emp : Employee) (acc : list GanttRow) :
  datable (schedule emp) →
  for_acc (_get_shifts (schedule emp))
    (λ df_list shift,
       first ← first_item shift;
       start_time ← plus_hours 0 first;
       last ← last_item shift;
       end_time ← plus_hours 0 (last + 1);
       mret (df_list ++ [mkGanttRow (employee_label i emp) start_time end_time "Working"]))
    acc
  = Return (acc ++ (working_bar i emp <$> _get_shifts (schedule emp))).
Proof.
  intros Hdat. rewrite (for_acc_app _ _ (λ shift, [working_bar i emp shift])).
  - f_equal. f_equal. apply concat_singletons.
  - apply Forall_forall. intros shift Hshift acc'.
    pose proof (_get_shifts_nonempty (schedule emp)) as Hne.
    rewrite Forall_forall in Hne. specialize (Hne shift Hshift).
    apply _get_shifts_run in Hshift as [_ Hsub].
    unfold datable in Hdat. rewrite Forall_forall in Hdat.
    assert (hd 0 shift ∈ shift) as Hfirst by (destruct shift; [done | by left]).
    pose proof (Hdat _ (Hsub _ Hfirst)). pose proof (Hdat _ (Hsub _ (last_elem shift Hne))).
    rewrite (last_item_last shift Hne). destruct shift as [|a shift]; [done |].
    cbn [first_item mbind outcome_bind hd] in *.
    rewrite plus_hours_in_range by lia. cbn [mbind outcome_bind].
    rewrite plus_hours_in_range by lia. done.
Qed.

Lemma break_bars (i : nat) (emp : Employee) (acc : list GanttRow) :
  datable (breaks_taken emp) →
  for_acc (breaks_taken emp)
    (λ df_list break_time,
       break_start ← plus_hours 0 break_time;
       break_end ← plus_hours break_start 1;
       mret (df_list ++ [mkGanttRow (employee_label i emp) break_start break_end "Break"]))
    acc
  = Return (acc ++ (break_bar i emp <$> breaks_taken emp)).
Proof.
  intros Hdat. rewrite (for_acc_app _ _ (λ b, [break_bar i emp b])).
  - f_equal. f_equal. apply concat_singletons.
  - eapply Forall_impl; [exact Hdat |]. intros b Hb acc'. cbn beta in Hb.
    rewrite plus_hours_in_range by lia. cbn [mbind outcome_bind].
    unfold plus_hours. by rewrite decide_True by lia.
Qed.

(** The rows of the chart, when every period and every break has a
    date. *)
Lemma df_list_rows (emps : list Employee) :
  Forall (λ emp, datable (schedule emp) ∧ datable (breaks_taken emp)) emps →
  df_list emps
  = Return (concat (imap (λ i emp, (working_bar i emp <$> _get_shifts (schedule emp))
                                   ++ (break_bar i emp <$> breaks_taken emp)) emps)).
Proof.
  intros Hemps. unfold df_list.
  rewrite <- (concat_enumerate (λ i emp, (working_bar i emp <$> _get_shifts (schedule emp))
                                         ++ (break_bar i emp <$> breaks_taken emp))).
  rewrite (for_acc_app _ _
             (λ ie, (working_bar (fst ie) (snd ie) <$> _get_shifts (schedule (snd ie)))
                    ++ (break_bar (fst ie) (snd ie) <$> breaks_taken (snd ie)))); [done |].
  apply Forall_forall. intros [i emp] Hin acc. cbn [fst snd].
  assert (emp ∈ emps) as Hemp.
  { unfold enumerate in Hin. apply elem_of_lookup_imap in Hin as (j & y & [= -> ->] & Hy).
    by eapply list_elem_of_lookup_2. }
  rewrite Forall_forall in Hemps. destruct (Hemps emp Hemp) as [Hs Hb].
  rewrite working_bars by done. cbn [mbind outcome_bind].
  rewrite break_bars by done. by rewrite app_assoc.
Qed.

(** The break of a run of six periods or more: three periods or more
    after the first, two or more before the last. *)
Lemma mid_point_inside (run : list Z) :
  contiguous run = true → (6 ≤ length run)%nat →
  hd 0 run + 3 ≤ mid_point run ∧ mid_point run + 2 ≤ List.last run 0.
Proof.
  intros Hc Hlen. assert (run ≠ []) as Hne by (intros ->; cbn in Hlen; lia).
  rewrite (contiguous_last run Hc Hne). unfold mid_point.
  destruct run as [|a run]; [done |]. cbn [hd].
  destruct (lookup_lt_is_Some_2 (a :: run) (length (a :: run) / 2)) as [b Hb].
  { apply middle_in_range, Hlen. }
  rewrite (list_lookup_total_correct _ _ _ Hb).
  apply (contiguous_offset a run _ b Hc) in Hb. subst b.
  pose proof (Nat.div_mod_eq (length (a :: run)) 2).
  pose proof (Nat.mod_upper_bound (length (a :: run)) 2). lia.
Qed.

(** X14. The Gantt chart of a generated schedule.  When the end of the
    horizon is a date the [datetime] type can hold, then for the
    employees left by [generate_schedule], with any backend, and
    [add_breaks] the rows of the chart are prepared without an
    exception; every bar starts at or after the start date, ends after
    it starts and by the end of the horizon; and every break bar lasts
    one hour and lies inside a working bar of the same employee,
    three hours or more after its start and two hours or more before
    its end. *)
Theorem gantt_bars (solver : Solver) (horizon_days : Z) (emps : list Employee) :
  24 * horizon_days ≤ datetime_max →
  ∃ rows,
    df_list (employees_after add_breaks
               (employees_after (generate_schedule solver horizon_days) emps))
    = Return rows
    ∧ Forall (λ row, 0 ≤ Start row < Finish row ∧ Finish row ≤ 24 * horizon_days) rows
    ∧ Forall (λ row, Task row = "Working" ∨ Task row = "Break") rows
    ∧ Forall (λ row,
                Task row = "Break" →
                Finish row = Start row + 1
                ∧ ∃ bar, bar ∈ rows ∧ Task bar = "Working"
                         ∧ Employee_label bar = Employee_label row
                         ∧ Start bar + 3 ≤ Start row ∧ Finish row + 2 ≤ Finish bar) rows.
Proof.
  intros Hend.
  pose proof (pipeline_after solver horizon_days emps) as Hafter.
  set (after := employees_after add_breaks _) in *.
  assert (∀ emp, emp ∈ after → ∀ shift, shift ∈ _get_shifts (schedule emp) →
            shift ≠ [] ∧ contiguous shift = true
            ∧ 0 ≤ hd 0 shift ∧ List.last shift 0 < 24 * horizon_days) as Hshifts.
  { intros emp Hemp shift Hshift. rewrite Forall_forall in Hafter.
    destruct (Hafter emp Hemp) as (_ & Hh & _).
    pose proof (_get_shifts_nonempty (schedule emp)) as Hne.
    rewrite Forall_forall in Hne. specialize (Hne shift Hshift).
    apply _get_shifts_run in Hshift as [Hc Hsub].
    unfold within_horizon in Hh. rewrite forallb_forall in Hh.
    assert (∀ p, p ∈ shift → 0 ≤ p < 24 * horizon_days) as Hin.
    { intros p Hp%Hsub%list_elem_of_In%Hh%bool_decide_eq_true. lia. }
    assert (hd 0 shift ∈ shift) as Hfirst by (destruct shift; [done | by left]).
    pose proof (Hin _ Hfirst). pose proof (Hin _ (last_elem shift Hne)).
    split_and!; [done | done | lia | lia]. }
  assert (∀ emp, emp ∈ after → ∀ b, b ∈ breaks_taken emp →
            ∃ shift, shift ∈ _get_shifts (schedule emp) ∧ (6 ≤ length shift)%nat
                     ∧ b = mid_point shift) as Hbreaks.
  { intros emp Hemp b Hb. rewrite Forall_forall in Hafter.
    destruct (Hafter emp Hemp) as (_ & _ & Heq). rewrite Heq in Hb.
    unfold breaks_of_schedule in Hb. rewrite breaks_of_runs_mid in Hb.
    apply list_elem_of_fmap in Hb as (shift & -> & [Hlen Hshift]%list_elem_of_filter).
    by exists shift. }
  eexists. split; [apply df_list_rows |].
  { apply Forall_forall. intros emp Hemp. rewrite Forall_forall in Hafter.
    destruct (Hafter emp Hemp) as (Hs & Hh & Heq).
    assert (datable (schedule emp)) as Hdat.
    { unfold within_horizon in Hh. rewrite forallb_forall in Hh.
      apply Forall_forall. intros p Hp%list_elem_of_In%Hh%bool_decide_eq_true.
      unfold datetime_min. lia. }
    split; [done |]. rewrite Heq. unfold datable in *. rewrite Forall_forall in Hdat.
    apply Forall_forall. intros b Hb. apply Hdat.
    eapply elem_of_sublist; [exact Hb | apply breaks_of_schedule_sublist]. }
  assert (∀ row, row ∈ concat (imap (λ i emp,
              (working_bar i emp <$> _get_shifts (schedule emp))
              ++ (break_bar i emp <$> breaks_taken emp)) after) →
            ∃ i emp, after !! i = Some emp
              ∧ ((∃ shift, shift ∈ _get_shifts (schedule emp) ∧ row = working_bar i emp shift)
                 ∨ (∃ b, b ∈ breaks_taken emp ∧ row = break_bar i emp b))) as Hrows.
  { intros row (block & Hblock & Hrow)%elem_of_concat_inv.
    apply elem_of_lookup_imap in Hblock as (i & emp & -> & Hemp).
    exists i, emp. split; [done |].
    apply elem_of_app in Hrow as [Hrow | Hrow];
      apply list_elem_of_fmap in Hrow as (x & -> & Hx); [left | right]; by exists x. }
  split_and!.
  - apply Forall_forall. intros row (i & emp & Hemp & Hrow)%Hrows.
    apply list_elem_of_lookup_2 in Hemp.
    destruct Hrow as [(shift & Hshift & ->) | (b & Hb & ->)]; cbn.
    + destruct (Hshifts emp Hemp shift Hshift) as (Hne & Hc & Hfirst & Hlast).
      rewrite (contiguous_last shift Hc Hne) in *.
      assert (0 < length shift)%nat by (destruct shift; [done | cbn; lia]). lia.
    + destruct (Hbreaks emp Hemp b Hb) as (shift & Hshift & Hlen & ->).
      destruct (Hshifts emp Hemp shift Hshift) as (Hne & Hc & Hfirst & Hlast).
      pose proof (mid_point_inside shift Hc Hlen). lia.
  - apply Forall_forall. intros row (i & emp & Hemp & Hrow)%Hrows.
    destruct Hrow as [(shift & Hshift & ->) | (b & Hb & ->)]; cbn; auto.
  - apply Forall_forall. intros row (i & emp & Hemp & Hrow)%Hrows.
    destruct Hrow as [(shift & Hshift & ->) | (b & Hb & ->)]; cbn; [done |].
    intros _. split; [done |].
    destruct (Hbreaks emp (list_elem_of_lookup_2 _ _ _ Hemp) b Hb)
      as (shift & Hshift & Hlen & ->).
    destruct (Hshifts emp (list_elem_of_lookup_2 _ _ _ Hemp) shift Hshift)
      as (Hne & Hc & Hfirst & Hlast).
    exists (working_bar i emp shift). split_and!; [| done | done | |].
    + eapply elem_of_concat; [| eapply elem_of_lookup_imap_2, Hemp].
      apply elem_of_app. left. by apply list_elem_of_fmap_2.
    + unfold working_bar. cbn [Start]. pose proof (mid_point_inside shift Hc Hlen). lia.
    + unfold working_bar. cbn [Finish]. pose proof (mid_point_inside shift Hc Hlen). lia.
Qed.

Lemma gantt_bars_witness :
  ∃ rows,
    df_list (employees_after add_breaks
               (employees_after (generate_schedule unavailable 7) main_employees))
    = Return rows
    ∧ Forall (λ row, 0 ≤ Start row < Finish row ∧ Finish row ≤ 24 * 7) rows
    ∧ Forall (λ row, Task row = "Working" ∨ Task row = "Break") rows
    ∧ Forall (λ row,
                Task row = "Break" →
                Finish row = Start row + 1
                ∧ ∃ bar, bar ∈ rows ∧ Task bar = "Working"
                         ∧ Employee_label bar = Employee_label row
                         ∧ Start bar + 3 ≤ Start row ∧ Finish row + 2 ≤ Finish bar) rows.
Proof.
  apply (gantt_bars unavailable 7 main_employees). unfold datetime_max. lia.
Defined.

End Gantt.

(** * The printed schedule *)

Section Printing.

Import WorkforceSimulator ScheduleVisualizer.

Lemma append_assoc (a b c : string) : (a +:+ b) +:+ c = a +:+ (b +:+ c).
Proof.
  induction a as [|x a IH]; [done |].
  change (String x ((a +:+ b) +:+ c) = String x (a +:+ (b +:+ c))). by rewrite IH.
Qed.

(** The printed line of a shift shows the fields of its row in the
    Schedules sheet. *)
Lemma shift_line_row (i : nat) (emp : Employee) (shift : list Z) :
  shift_line (shift_row i emp shift)
  = shift_text (hd 0 shift `div` 24) (hd 0 shift `mod` 24) (List.last shift 0 `mod` 24 + 1).
Proof.
  unfold shift_line, shift_text, shift_row. cbn [Day Start_Hour End_Hour].
  by rewrite !append_assoc.
Qed.

Lemma print_schedule_lines (emps : list Employee) :
  print_schedule emps
  = Return ((newline +:+ "Schedule Summary:")
            :: concat (imap (λ i emp,
                 [employee_heading i emp]
                 ++ (shift_line ∘ shift_row i emp <$> _get_shifts (schedule emp))
                 ++ breaks_lines emp) emps)).
Proof.
  unfold print_schedule.
  rewrite <- (concat_enumerate (λ i emp,
                 [employee_heading i emp]
                 ++ (shift_line ∘ shift_row i emp <$> _get_shifts (schedule emp))
                 ++ breaks_lines emp)).
  rewrite (for_acc_app _ _ (λ ie,
                 [employee_heading (fst ie) (snd ie)]
                 ++ (shift_line ∘ shift_row (fst ie) (snd ie)
                       <$> _get_shifts (schedule (snd ie)))
                 ++ breaks_lines (snd ie))); [done |].
  apply Forall_forall. intros [i emp] _ acc. cbn [fst snd].
  rewrite (for_acc_app _ _ (λ shift, [(shift_line ∘ shift_row i emp) shift])).
  - rewrite concat_singletons. cbn [mbind outcome_bind].
    unfold breaks_lines. destruct (breaks_taken emp) as [|b bs]; cbn [nonempty mret outcome_ret].
    + by rewrite app_nil_r, <- app_assoc.
    + by rewrite <- !app_assoc.
  - eapply Forall_impl; [apply _get_shifts_nonempty |]. intros shift Hne acc'.
    rewrite (shift_times_run shift Hne). cbn [mbind outcome_bind fst snd compose].
    by rewrite shift_line_row.
Qed.

(** X15. [print_schedule] never raises, and what it prints agrees with
    the Schedules sheet of the spreadsheet: after the title, for every
    employee in turn, a heading, then one line for each row the sheet
    has for that employee, showing the day, the start hour and the end
    hour of the row, then a line of breaks when the employee has
    breaks and no such line otherwise. *)
Theorem print_schedule_matches_sheet (emps : list Employee) :
  ∃ lines rows,
    print_schedule emps = Return lines
    ∧ schedule_data emps = Return rows
    ∧ lines
      = (newline +:+ "Schedule Summary:")
        :: concat (imap (λ i emp,
             [employee_heading i emp]
             ++ (shift_line <$> filter (λ row, Employee_ID row = i) rows)
             ++ breaks_lines emp) emps)
    ∧ Forall (λ emp, (length (breaks_lines emp) ≤ 1)%nat
                     ∧ (breaks_lines emp = [] ↔ breaks_taken emp = [])) emps.
Proof.
  eexists _, _. split_and!; [apply print_schedule_lines | apply schedule_data_rows | |].
  - f_equal. f_equal. apply imap_ext. intros i emp Hemp. cbn beta.
    rewrite (filter_block Employee_ID
               (λ i emp, shift_row i emp <$> _get_shifts (schedule emp)) emps 0 i emp);
      [| by intros j y r (shift & -> & _)%list_elem_of_fmap | done].
    by rewrite <- list_fmap_compose.
  - apply Forall_forall. intros emp _. unfold breaks_lines.
    destruct (breaks_taken emp); cbn; split; done || lia.
Qed.

End Printing.

(** * The skill coverage chart *)

Section SkillChart.

Import WorkforceSimulator ScheduleVisualizer.

Lemma count_skill_step (hour_of_day : Z) (coverage : gmap string (list nat)) (skill : string) :
  0 ≤ hour_of_day < 24 → day_shaped coverage →
  ∃ coverage',
    count_skill hour_of_day coverage skill = Return coverage'
    ∧ day_shaped coverage'
    ∧ ∀ skill' (h : nat), (h < 24)%nat →
        skill_row coverage' skill' !!! h
        = (skill_row coverage skill' !!! h
           + if decide (skill = skill' ∧ Z.of_nat h = hour_of_day) then 1 else 0)%nat.
Proof.
  intros Hhour Hshape. unfold count_skill, axis_index. rewrite decide_True by done.
  cbn [mbind outcome_bind mret outcome_ret]. eexists. split_and!; [done | |].
  - intros skill'. unfold skill_row at 1.
    destruct (decide (skill = skill')) as [<-|Hne].
    + rewrite lookup_insert_eq. cbn. by rewrite length_alter.
    + rewrite lookup_insert_ne by done. apply Hshape.
  - intros skill' h Hh. unfold skill_row at 1.
    destruct (decide (skill = skill')) as [<-|Hne].
    + rewrite lookup_insert_eq. cbn [default from_option]; unfold Datatypes.id. rewrite list_lookup_total_alter.
      rewrite Hshape. destruct (decide (Z.to_nat hour_of_day = h)) as [<-|Hother].
      * rewrite !decide_True by (split; [done | lia]). lia.
      * rewrite !decide_False by (intros [? ?]; lia). lia.
    + rewrite lookup_insert_ne by done. fold (skill_row coverage skill').
      rewrite decide_False by (by intros [? _]). lia.
Qed.

Lemma skills_loop (skill_list : list string) (hour_of_day : Z)
      (coverage : gmap string (list nat)) :
  0 ≤ hour_of_day < 24 → day_shaped coverage →
  ∃ coverage',
    for_acc skill_list (count_skill hour_of_day) coverage = Return coverage'
    ∧ day_shaped coverage'
    ∧ ∀ skill (h : nat), (h < 24)%nat →
        skill_row coverage' skill !!! h
        = (skill_row coverage skill !!! h
           + if decide (Z.of_nat h = hour_of_day)
             then length (filter (λ s, s = skill) skill_list) else 0)%nat.
Proof.
  intros Hhour. revert coverage.
  induction skill_list as [|s skill_list IH]; intros coverage Hshape; cbn [for_acc].
  - exists coverage. split_and!; [done | done |]. intros skill h _.
    rewrite filter_nil. case_decide; cbn; lia.
  - destruct (count_skill_step hour_of_day coverage s Hhour Hshape)
      as (coverage1 & -> & Hshape1 & Hvalues1). cbn [mbind outcome_bind].
    destruct (IH coverage1 Hshape1) as (coverage2 & -> & Hshape2 & Hvalues2).
    exists coverage2. split_and!; [done | done |]. intros skill h Hh.
    rewrite Hvalues2, Hvalues1 by done. rewrite filter_cons.
    destruct (decide (s = skill)) as [->|Hne].
    + destruct (decide (Z.of_nat h = hour_of_day)).
      * rewrite decide_True by done. cbn [length]. lia.
      * rewrite decide_False by (by intros [_ ?]). lia.
    + rewrite decide_False by (by intros [? _]). lia.
Qed.

Lemma hour_count_cons (h : nat) (p : Z) (hours : list Z) :
  hour_count h (p :: hours)
  = ((if decide (Z.of_nat h = (p `mod` 24)%Z) then 1 else 0) + hour_count h hours)%nat.
Proof.
  unfold hour_count. rewrite filter_cons.
  destruct (decide (p `mod` 24 = Z.of_nat h)) as [Heq|Hne].
  - by rewrite decide_True.
  - by rewrite decide_False.
Qed.

Lemma hours_loop (skill_list : list string) (hours : list Z)
      (coverage : gmap string (list nat)) :
  day_shaped coverage →
  ∃ coverage',
    for_acc hours (λ coverage hour,
                     for_acc skill_list (count_skill (hour `mod` 24)) coverage) coverage
    = Return coverage'
    ∧ day_shaped coverage'
    ∧ ∀ skill (h : nat), (h < 24)%nat →
        skill_row coverage' skill !!! h
        = (skill_row coverage skill !!! h
           + length (filter (λ s, s = skill) skill_list) * hour_count h hours)%nat.
Proof.
  revert coverage. induction hours as [|p hours IH]; intros coverage Hshape; cbn [for_acc].
  - exists coverage. split_and!; [done | done |]. intros skill h _. unfold hour_count. cbn. lia.
  - destruct (skills_loop skill_list (p `mod` 24) coverage) as (coverage1 & Hrun & Hshape1 & Hvalues1);
      [apply Z.mod_pos_bound; lia | done |].
    rewrite Hrun. cbn [mbind outcome_bind].
    destruct (IH coverage1 Hshape1) as (coverage2 & -> & Hshape2 & Hvalues2).
    exists coverage2. split_and!; [done | done |]. intros skill h Hh.
    rewrite Hvalues2, Hvalues1 by done. rewrite hour_count_cons.
    case_decide; lia.
Qed.

Lemma hour_count_app (h : nat) (l1 l2 : list Z) :
  hour_count h (l1 ++ l2) = (hour_count h l1 + hour_count h l2)%nat.
Proof. unfold hour_count. by rewrite filter_app, length_app. Qed.

Lemma shifts_loop (skill_list : list string) (shifts : list (list Z))
      (coverage : gmap string (list nat)) :
  day_shaped coverage →
  ∃ coverage',
    for_acc shifts
      (λ coverage shift,
         for_acc shift (λ coverage hour,
                          for_acc skill_list (count_skill (hour `mod` 24)) coverage) coverage)
      coverage
    = Return coverage'
    ∧ day_shaped coverage'
    ∧ ∀ skill (h : nat), (h < 24)%nat →
        skill_row coverage' skill !!! h
        = (skill_row coverage skill !!! h
           + length (filter (λ s, s = skill) skill_list) * hour_count h (concat shifts))%nat.
Proof.
  revert coverage. induction shifts as [|shift shifts IH]; intros coverage Hshape; cbn [for_acc].
  - exists coverage. split_and!; [done | done |]. intros skill h _. unfold hour_count. cbn. lia.
  - destruct (hours_loop skill_list shift coverage Hshape)
      as (coverage1 & -> & Hshape1 & Hvalues1). cbn [mbind outcome_bind].
    destruct (IH coverage1 Hshape1) as (coverage2 & -> & Hshape2 & Hvalues2).
    exists coverage2. split_and!; [done | done |]. intros skill h Hh.
    rewrite Hvalues2, Hvalues1 by done. cbn [concat]. rewrite hour_count_app. lia.
Qed.

Lemma employees_loop (emps : list Employee) (all_skills : gset string)
      (coverage : gmap string (list nat)) :
  day_shaped coverage →
  ∃ all_skills' coverage',
    for_acc emps
      (λ acc employee,
         coverage ← for_acc (_get_shifts (schedule employee))
                      (λ coverage shift,
                         for_acc shift
                           (λ coverage hour,
                              for_acc (skills employee) (count_skill (hour `mod` 24)) coverage)
                           coverage)
                      (snd acc);
         mret (fst acc ∪ list_to_set (skills employee), coverage))
      (all_skills, coverage)
    = Return (all_skills', coverage')
    ∧ day_shaped coverage'
    ∧ (∀ skill, skill ∈ all_skills'
                ↔ skill ∈ all_skills ∨ ∃ emp, emp ∈ emps ∧ skill ∈ skills emp)
    ∧ ∀ skill (h : nat), (h < 24)%nat →
        skill_row coverage' skill !!! h
        = (skill_row coverage skill !!! h
           + sum_list ((λ emp, skill_count skill emp * hour_count h (schedule emp)) <$> emps))%nat.
Proof.
  revert all_skills coverage.
  induction emps as [|emp emps IH]; intros all_skills coverage Hshape; cbn [for_acc].
  - exists all_skills, coverage. split_and!; [done | done | |].
    + intros skill. split; [auto |]. intros [? | (emp & []%not_elem_of_nil & _)]. done.
    + intros skill h _. cbn. lia.
  - cbn [fst snd].
    destruct (shifts_loop (skills emp) (_get_shifts (schedule emp)) coverage Hshape)
      as (coverage1 & -> & Hshape1 & Hvalues1). cbn [mbind outcome_bind mret outcome_ret].
    destruct (IH (all_skills ∪ list_to_set (skills emp)) coverage1 Hshape1)
      as (all_skills2 & coverage2 & -> & Hshape2 & Hall2 & Hvalues2).
    exists all_skills2, coverage2. split_and!; [done | done | |].
    + intros skill. rewrite Hall2, elem_of_union, elem_of_list_to_set. split.
      * intros [[? | ?] | (emp' & ? & ?)]; [by left | right | right].
        -- exists emp. split; [by left | done].
        -- exists emp'. split; [by right | done].
      * intros [? | (emp' & [-> | ?]%elem_of_cons & ?)]; [by left; left | by left; right |].
        right. by exists emp'.
    + intros skill h Hh. rewrite Hvalues2, Hvalues1 by done.
      rewrite _get_shifts_eq. destruct (get_shifts_runs (schedule emp)) as [-> _].
      cbn [fmap list_fmap sum_list]. unfold skill_count at 2, Datatypes.id. lia.
Qed.

Lemma empty_shaped : day_shaped ∅.
Proof. intros skill. unfold skill_row. by rewrite lookup_empty. Qed.

Lemma empty_row (skill : string) (h : nat) : skill_row ∅ skill !!! h = 0%nat.
Proof.
  unfold skill_row. rewrite lookup_empty. cbn [default from_option].
  destruct (decide (h < 24)%nat) as [Hh|Hh].
  - by rewrite lookup_total_replicate_2.
  - rewrite list_lookup_total_alt, (proj1 (lookup_replicate_None _ _ _)) by lia. done.
Qed.

(** X16. The skill coverage chart.  Preparing its data never raises.
    The skills plotted are the skills of all employees.  For every
    skill and hour of the day, the value plotted is the number of
    scheduled periods of the employees with that skill that fall on
    that hour, over all days of the schedule and not only the first
    week; an employee whose skill list names the skill more than once
    is counted as often. *)
Theorem skill_coverage_counts (emps : list Employee) :
  ∃ all_skills coverage,
    skill_coverage emps = Return (all_skills, coverage)
    ∧ (∀ skill, skill ∈ all_skills ↔ ∃ emp, emp ∈ emps ∧ skill ∈ skills emp)
    ∧ (∀ skill, length (skill_row coverage skill) = 24%nat)
    ∧ ∀ skill (h : nat), (h < 24)%nat →
        skill_row coverage skill !!! h
        = sum_list ((λ emp, skill_count skill emp * hour_count h (schedule emp))%nat <$> emps).
Proof.
  destruct (employees_loop emps ∅ ∅ empty_shaped)
    as (all_skills & coverage & Hrun & Hshape & Hall & Hvalues).
  exists all_skills, coverage. split_and!; [done | | done |].
  - intros skill. rewrite Hall. split; [| by right].
    intros [Hempty | ?]; [by apply elem_of_empty in Hempty | done].
  - intros skill h Hh. rewrite Hvalues by done. by rewrite empty_row.
Qed.

End SkillChart.

(** * Setting up the simulator and the run of [main] *)

Section Setup.

Import WorkforceSimulator.

Lemma resources_loop (skill_list : list string) (resources : gmap string Resource) :
  resources ⊆ foldl (λ resources skill,
                       if decide (resources !! skill = None)
                       then <[skill := mkResource 1]> resources
                       else resources) resources skill_list
  ∧ (∀ skill,
       is_Some (foldl (λ resources skill,
                         if decide (resources !! skill = None)
                         then <[skill := mkResource 1]> resources
                         else resources) resources skill_list !! skill)
       ↔ is_Some (resources !! skill) ∨ skill ∈ skill_list)
  ∧ (∀ skill r,
       foldl (λ resources skill,
                if decide (resources !! skill = None)
                then <[skill := mkResource 1]> resources
                else resources) resources skill_list !! skill = Some r →
       resources !! skill = Some r ∨ r = mkResource 1).
Proof.
  revert resources. induction skill_list as [|s skill_list IH]; intros resources; cbn [foldl].
  - split_and!; [done | | by left].
    intros skill. split; [by left |]. by intros [? | ?%not_elem_of_nil].
  - case_decide as Hnew.
    + destruct (IH (<[s := mkResource 1]> resources)) as (Hsub & Hdom & Hcap). split_and!.
      * etrans; [| exact Hsub]. by apply insert_subseteq.
      * intros skill. rewrite Hdom, lookup_insert_is_Some, elem_of_cons.
        split; [intros [[-> | [_ ?]] | ?] | intros [? | [-> | ?]]]; try tauto.
        destruct (decide (s = skill)); tauto.
      * intros skill r [Hr | ->]%Hcap; [| by right].
        destruct (decide (s = skill)) as [<- | Hne].
        -- rewrite lookup_insert_eq in Hr. right. congruence.
        -- rewrite lookup_insert_ne in Hr by done. by left.
    + destruct (IH resources) as (Hsub & Hdom & Hcap). split_and!; [done | | done].
      intros skill. rewrite Hdom, elem_of_cons.
      split; [tauto |]. intros [? | [-> | ?]]; [tauto | | tauto].
      left. destruct (resources !! s); [done | congruence].
Qed.

(** X17. Adding employees to a simulator.  The employees are appended
    in order.  Every resource the simulator had is kept as it was; a
    skill has a resource afterwards exactly when it had one before or
    one of the added employees has the skill; and every resource that
    was created has capacity 1. *)
Theorem add_employee_resources (self : Simulator) (emps : list Employee) :
  employees (foldl add_employee self emps) = employees self ++ emps
  ∧ resources self ⊆ resources (foldl add_employee self emps)
  ∧ (∀ skill,
       is_Some (resources (foldl add_employee self emps) !! skill)
       ↔ is_Some (resources self !! skill) ∨ ∃ emp, emp ∈ emps ∧ skill ∈ skills emp)
  ∧ (∀ skill r,
       resources (foldl add_employee self emps) !! skill = Some r →
       resources self !! skill = Some r ∨ r = mkResource 1).
Proof.
  revert self. induction emps as [|emp emps IH]; intros self; cbn [foldl].
  - split_and!; [by rewrite app_nil_r | done | | by left].
    intros skill. split; [by left |]. by intros [? | (emp & ?%not_elem_of_nil & _)].
  - destruct (IH (add_employee self emp)) as (Hemps & Hsub & Hdom & Hcap).
    destruct (resources_loop (skills emp) (resources self)) as (Hsub1 & Hdom1 & Hcap1).
    split_and!.
    + rewrite Hemps. cbn. by rewrite <- app_assoc.
    + etrans; [exact Hsub1 | exact Hsub].
    + intros skill. rewrite Hdom. cbn [resources add_employee]. rewrite Hdom1. split.
      * intros [[? | ?] | (emp' & ? & ?)]; [by left | right | right].
        -- exists emp. split; [by left | done].
        -- exists emp'. split; [by right | done].
      * intros [? | (emp' & [-> | ?]%elem_of_cons & ?)]; [by left; left | by left; right |].
        right. by exists emp'.
    + intros skill r [Hr | ->]%Hcap; [| by right]. by apply Hcap1.
Qed.

Lemma main_simulator_employees : employees main_simulator = main_employees.
Proof. reflexivity. Qed.

(** X18. The exit code of [main].  Scheduling and break assignment
    never make [main] fail: whatever the backend does, the visualizer
    is called, on the four employees of the skills matrix with their
    schedules for seven days and their breaks, and [main] returns 0
    when the visualizer returns and 1 when it raises. *)
Theorem main_exit_code (solver : Solver) (visualizer : list Employee → outcome unit) :
  main solver visualizer
  = match visualizer (employees_after add_breaks
                        (employees_after (generate_schedule solver 7) main_employees)) with
    | Return _ => 0
    | Raised => 1
    end.
Proof.
  unfold main. rewrite main_simulator_employees.
  pose proof (generate_schedule_returns solver 7 main_employees) as Hgen.
  unfold returns, employees_after in *.
  destruct (generate_schedule solver 7 main_employees) as [[[]|] emps]; [| done]. cbn [snd].
  pose proof (add_breaks_returns emps) as Hbreaks. unfold returns in Hbreaks.
  destruct (add_breaks emps) as [[[]|] emps']; [| done]. cbn [snd].
  by destruct (visualizer emps').
Qed.

End Setup.

(** * What scheduling leaves alone *)

Section Frame.

Import WorkforceSimulator.

Lemma Forall2_imap_set_schedule (P : Employee → Employee → Prop) (f : nat → list Z)
      (emps : list Employee) :
  (∀ e emp, P emp (set_schedule (f e) emp)) →
  Forall2 P emps (imap (λ e, set_schedule (f e)) emps).
Proof.
  intros HP. apply Forall2_same_length_lookup_2; [by rewrite length_imap |].
  intros i emp emp' Hemp Hemp'. rewrite list_lookup_imap, Hemp in Hemp'.
  cbn in Hemp'. simplify_eq. apply HP.
Qed.

(** X19. Scheduling changes the schedules and nothing else.
    [generate_schedule], with any backend and horizon, keeps the number
    and the order of the employees and leaves the identifier, the
    skills, the hour cap, the current task, the hours worked and the
    breaks of every employee as they were: the hours worked are not
    brought up to date with the new schedule, and the breaks of an
    earlier schedule stay until [add_breaks] runs.  After [add_breaks]
    as well, everything but the schedule and the breaks is as it was
    before scheduling. *)
Theorem scheduling_frame (solver : Solver) (horizon_days : Z) (emps : list Employee) :
  Forall2 (λ emp emp',
             id emp' = id emp ∧ skills emp' = skills emp
             ∧ max_hours emp' = max_hours emp ∧ current_task emp' = current_task emp
             ∧ hours_worked emp' = hours_worked emp
             ∧ breaks_taken emp' = breaks_taken emp)
          emps (employees_after (generate_schedule solver horizon_days) emps)
  ∧ Forall2 (λ emp emp',
               id emp' = id emp ∧ skills emp' = skills emp
               ∧ max_hours emp' = max_hours emp ∧ current_task emp' = current_task emp
               ∧ hours_worked emp' = hours_worked emp)
            emps (employees_after add_breaks
                    (employees_after (generate_schedule solver horizon_days) emps)).
Proof.
  rewrite add_breaks_after, generate_schedule_after. split.
  - by apply Forall2_imap_set_schedule.
  - apply Forall2_fmap_r. by apply Forall2_imap_set_schedule.
Qed.

End Frame.

(** * The model needs three employees *)

Section Staffing.

Import WorkforceSimulator.

Lemma length_filter_split {A} (P : A → Prop) `{!∀ x, Decision (P x)} (l : list A) :
  (length (filter P l) + length (filter (λ x, ¬ P x) l))%nat = length l.
Proof.
  induction l as [|x l IH]; [done |].
  rewrite !filter_cons. destruct (decide (P x)).
  - rewrite decide_False by tauto. cbn. lia.
  - rewrite decide_True by done. cbn. lia.
Qed.

(** When every element of a list is taken by one of the workers and no
    worker takes more than [b] of them, the list has at most [b]
    elements for each worker. *)
Lemma cover_bound {A} (P : nat → A → Prop) `{Hdec : !∀ e a, Decision (P e a)}
      (es : list nat) (l : list A) (b : nat) :
  (∀ a, a ∈ l → ∃ e, e ∈ es ∧ P e a) →
  (∀ e, e ∈ es → length (filter (P e) l) ≤ b)%nat →
  (length l ≤ b * length es)%nat.
Proof.
  revert l. induction es as [|e es IH]; intros l Hcover Hbound.
  - destruct l as [|a l]; [cbn; lia |].
    destruct (Hcover a ltac:(by left)) as (e & []%not_elem_of_nil & _).
  - rewrite <- (length_filter_split (P e) l).
    pose proof (Hbound e ltac:(by left)) as He.
    assert (length (filter (λ a, ¬ P e a) l) ≤ b * length es)%nat as Hrest.
    { apply IH.
      - intros a [Hnot Ha]%list_elem_of_filter.
        destruct (Hcover a Ha) as (e' & [-> | He']%elem_of_cons & HP); [done |].
        by exists e'.
      - intros e' He'. rewrite list_filter_filter.
        etrans; [| exact (Hbound e' ltac:(by right))].
        rewrite <- (list_filter_filter_l (λ a, P e' a ∧ ¬ P e a) (P e') l) by tauto.
        apply length_filter. }
    cbn [length]. lia.
Qed.

(** An assignment that satisfies the daily-hours and the coverage
    constraints on the first day needs three employees. *)
Lemma first_day_staffing (n : nat) (horizon_days : Z) (x : nat → Z → option Q) :
  1 ≤ horizon_days →
  satisfies_model (build_model n horizon_days) x = true → (3 ≤ n)%nat.
Proof.
  intros Hdays (Hdaily & Hcov & _)%satisfies_model_parts.
  assert (∀ e p, (e < n)%nat → 0 ≤ p < 24 → is_binary (x e p) = true) as Hbin.
  { intros e p He Hp. apply (model_binary n horizon_days); [done | done | lia]. }
  assert (length (seqZ 0 24) ≤ 8 * length (seq 0 n))%nat as Hcount.
  { apply (cover_bound (λ e p, holds (x e p) = true)
             (Hdec := λ e p, decide (holds (x e p) = true))).
    - intros p Hp%elem_of_seqZ.
      unfold coverage in Hcov. rewrite forallb_forall in Hcov.
      specialize (Hcov p ltac:(cbn; rewrite range_0; apply list_elem_of_In, elem_of_seqZ; lia)).
      unfold coverage_rule in Hcov. cbn [EMPLOYEES build_model] in Hcov.
      destruct (sum_values_count ((λ e, x e p) <$> seq 0 n)) as (total & Hsum & Htotal).
      { apply forallb_forall. intros ov (e & <- & He%in_seq)%in_map_iff.
        apply Hbin; lia. }
      rewrite Hsum in Hcov. apply Qle_bool_iff in Hcov.
      rewrite Htotal in Hcov. change 1%Q with (inject_Z 1) in Hcov.
      rewrite <- Zle_Qle in Hcov. rewrite holds_filter_fmap in Hcov.
      destruct (filter (λ e, holds (x e p) = true) (seq 0 n)) as [|e es] eqn:Hfilter;
        [cbn in Hcov; lia |].
      assert (e ∈ filter (λ e, holds (x e p) = true) (seq 0 n)) as He
          by (rewrite Hfilter; by left).
      apply list_elem_of_filter in He as [Hholds He]. by exists e.
    - intros e He%elem_of_seq.
      unfold daily_hours in Hdaily. rewrite forallb_forall in Hdaily.
      specialize (Hdaily e ltac:(apply in_seq; cbn; lia)).
      apply andb_true_iff in Hdaily as [_ Hrule]. rewrite forallb_forall in Hrule.
      specialize (Hrule 0 ltac:(cbn; rewrite range_0; apply list_elem_of_In, elem_of_seqZ; lia)).
      unfold daily_hours_rule in Hrule. cbn zeta in Hrule.
      change (0 * 24) with 0 in Hrule. rewrite range_0 in Hrule.
      change (0 + 24) with 24 in Hrule.
      apply (sum_bounded _ 8) in Hrule.
      + by rewrite holds_filter_fmap in Hrule.
      + apply forallb_forall. intros ov (p & <- & Hp%list_elem_of_In)%in_map_iff.
        apply elem_of_seqZ in Hp. apply Hbin; lia. }
  rewrite length_seqZ, length_seq in Hcount. lia.
Qed.

Lemma round_the_clock_binary (e : nat) (p : Z) : is_binary (round_the_clock e p) = true.
Proof. unfold round_the_clock. by case_decide. Qed.

Lemma round_the_clock_holds (e : nat) (p : Z) :
  holds (round_the_clock e p) = true
  ↔ (e < 3)%nat ∧ 8 * Z.of_nat e ≤ p `mod` 24 < 8 * Z.of_nat e + 8.
Proof. unfold round_the_clock. by case_decide. Qed.

(** Three employees or more can satisfy the model, and so can any
    number when the horizon has no period. *)
Lemma round_the_clock_feasible (n : nat) (horizon_days : Z) :
  (3 ≤ n)%nat ∨ horizon_days ≤ 0 →
  satisfies_model (build_model n horizon_days) round_the_clock = true.
Proof.
  intros Hn. unfold satisfies_model. rewrite !andb_true_iff. split_and!.
  - unfold daily_hours. apply forallb_forall. intros e He%in_seq.
    apply andb_true_iff. split; apply forallb_forall.
    + intros p _. apply round_the_clock_binary.
    + intros d _. unfold daily_hours_rule. cbn zeta.
      apply (sum_at_most _ 8).
      * apply forallb_forall. intros ov (p & <- & _)%in_map_iff.
        apply round_the_clock_binary.
      * rewrite holds_filter_fmap. change 8%nat with (Z.to_nat 8).
        apply (sorted_interval_length _ (d * 24 + 8 * Z.of_nat e)).
        -- eapply StronglySorted_sublist; [apply sublist_filter | apply StronglySorted_seqZ].
        -- apply Forall_forall.
           intros p [[_ Hp]%round_the_clock_holds Hday%elem_of_seqZ]%list_elem_of_filter.
           pose proof (Z.div_mod p 24 ltac:(lia)).
           pose proof (Z.mod_pos_bound p 24 ltac:(lia)). lia.
  - unfold coverage. apply forallb_forall. intros p Hp%list_elem_of_In.
    cbn [PERIODS build_model] in Hp. rewrite range_0 in Hp. apply elem_of_seqZ in Hp.
    destruct Hn as [Hn | Hn]; [| lia].
    unfold coverage_rule. cbn [EMPLOYEES build_model].
    destruct (sum_values_count ((λ e, round_the_clock e p) <$> seq 0 n))
      as (total & -> & Htotal).
    { apply forallb_forall. intros ov (e & <- & _)%in_map_iff.
      apply round_the_clock_binary. }
    apply Qle_bool_iff. rewrite Htotal. change 1%Q with (inject_Z 1).
    rewrite <- Zle_Qle. rewrite holds_filter_fmap.
    pose proof (Z.mod_pos_bound p 24 ltac:(lia)) as Hmod.
    assert (Z.to_nat ((p `mod` 24) `div` 8)
            ∈ filter (λ e, holds (round_the_clock e p) = true) (seq 0 n)) as Hin.
    { apply list_elem_of_filter. split.
      - apply round_the_clock_holds. split; Z.div_mod_to_equations; lia.
      - apply elem_of_seq. split; [lia |]. Z.div_mod_to_equations. lia. }
    destruct (filter _ (seq 0 n)); [by apply not_elem_of_nil in Hin | cbn; lia].
  - unfold consecutive_hours. apply forallb_forall. intros e He%in_seq.
    apply forallb_forall. intros p _. unfold consecutive_hours_rule.
    case_decide; [| done].
    apply (sum_at_most _ 8).
    + apply forallb_forall. intros ov (t & <- & _)%in_map_iff.
      apply round_the_clock_binary.
    + rewrite holds_filter_fmap. unfold range. replace (p + 9 - p) with 9 by lia.
      pose proof (length_filter (λ t, holds (round_the_clock e t) = true) (seqZ p 9)) as Hle.
      destruct (decide (length (filter (λ t, holds (round_the_clock e t) = true)
                                       (seqZ p 9)) = length (seqZ p 9))) as [Hnine|Hless].
      2: { rewrite length_seqZ in Hle, Hless. change (Z.to_nat 9) with 9%nat in Hle, Hless.
           lia. }
      exfalso. apply length_filter_all in Hnine. rewrite Forall_forall in Hnine.
      pose proof (Hnine p ltac:(apply elem_of_seqZ; lia)) as [_ Hfirst]%round_the_clock_holds.
      pose proof (Hnine (p + 8) ltac:(apply elem_of_seqZ; lia))
        as [_ Hlast]%round_the_clock_holds.
      Z.div_mod_to_equations. lia.
Qed.

(** X20. The model needs three employees.  For every number of
    employees and every horizon, some assignment satisfies the model
    of [generate_schedule] (binary variables, daily hours, coverage,
    consecutive hours) exactly when there are three employees or more,
    or the horizon has no day: the 24 periods of a day must each be
    covered and an employee covers at most 8 of them, and three
    employees working eight hours each round the clock do satisfy all
    constraints.  The four employees of [main] and its seven days can
    be scheduled. *)
Theorem model_feasible_iff (n : nat) (horizon_days : Z) :
  ((∃ x, satisfies_model (build_model n horizon_days) x = true)
   ↔ (3 ≤ n)%nat ∨ horizon_days ≤ 0)
  ∧ satisfies_model (build_model (length main_employees) 7) round_the_clock = true.
Proof.
  split; [| by apply round_the_clock_feasible; left; cbn; lia].
  split.
  - intros [x Hx]. destruct (decide (horizon_days ≤ 0)); [by right | left].
    apply (first_day_staffing n horizon_days x); [lia | done].
  - intros Hn. exists round_the_clock. by apply round_the_clock_feasible.
Qed.

(** X21. With fewer than three employees the optimisation is of no
    use: for a horizon of one day or more, a backend whose optimal
    solutions satisfy the model never reports one, and
    [generate_schedule] gives every employee the fallback schedule. *)
Theorem too_few_employees (solver : Solver) (horizon_days : Z) (emps : list Employee) :
  (length emps < 3)%nat → 1 ≤ horizon_days →
  backend_feasible solver (length emps) horizon_days = true →
  backend_optimal solver (length emps) horizon_days = None
  ∧ schedule <$> employees_after (generate_schedule solver horizon_days) emps
    = (λ e, fallback_schedule e horizon_days) <$> indices emps.
Proof.
  intros Hfew Hdays Hsound. unfold backend_feasible in Hsound.
  rewrite generate_schedule_schedules.
  destruct (backend_optimal solver (length emps) horizon_days) as [results|]; [| done].
  apply (first_day_staffing _ _ _ Hdays) in Hsound. lia.
Qed.

Lemma too_few_employees_witness :
  backend_optimal reports_infeasible (length [new_employee 0 []; new_employee 1 []]) 7 = None
  ∧ schedule <$> employees_after (generate_schedule reports_infeasible 7)
                   [new_employee 0 []; new_employee 1 []]
    = (λ e, fallback_schedule e 7) <$> indices [new_employee 0 []; new_employee 1 []].
Proof.
  apply (too_few_employees reports_infeasible 7 [new_employee 0 []; new_employee 1 []]);
    [cbn; lia | lia | reflexivity].
Defined.

End Staffing.
